(** * A shallow embedding of the Tetris game engine

    The development follows the three source modules of the engine:

    - [game.js]: the board functions [createEmptyBoard], [checkCollision],
      [checkFullLines], [clearLines], [dropLinesDown] and [calculateScore];
    - [tetromino.js]: the catalogue [TETROMINOS] and [createTetromino];
    - [main.js]: the class [Game] with its state and its methods.

    JavaScript numbers are modelled by [Z] (every number the engine handles
    is an integer: cell values, coordinates, counters, milliseconds), arrays
    by lists, [null] by [None], and a thrown [TypeError] by the outcome
    [Throw] of a small state-and-exception monad. *)

From Stdlib Require Import String ZArith List Bool Lia Arith Permutation Sorted.
Import ListNotations.
Local Open Scope string_scope.
Local Open Scope list_scope.
Local Open Scope Z_scope.

(* ================================================================== *)
(** * Outcomes and the state-and-exception monad                      *)
(* ================================================================== *)

(** The result of running a piece of JavaScript: a value, or an exception
    (the only one the engine can raise is the [TypeError] of reading a
    property of [undefined]). *)
Inductive outcome (A : Type) : Type :=
| Ret (a : A)
| Throw.
Arguments Ret {A} a.
Arguments Throw {A}.

(** A computation over a mutable store [S].  The store is returned in both
    outcomes: what was written before an exception stays written. *)
Definition M (S A : Type) : Type := S -> outcome A * S.

Definition ret {S A} (a : A) : M S A := fun s => (Ret a, s).

Definition bind {S A B} (m : M S A) (k : A -> M S B) : M S B :=
  fun s => match m s with
           | (Ret a, s') => k a s'
           | (Throw, s') => (Throw, s')
           end.

Definition get {S} : M S S := fun s => (Ret s, s).
Definition put {S} (s : S) : M S unit := fun _ => (Ret tt, s).
Definition modify {S} (f : S -> S) : M S unit := fun s => (Ret tt, f s).
Definition throw {S A} : M S A := fun s => (Throw, s).

(** A pure computation that may throw, run inside [M]. *)
Definition lift {S A} (o : outcome A) : M S A := fun s => (o, s).

(** [try { body } catch (error) { handler }] *)
Definition try_catch {S A} (body : M S A) (handler : M S A) : M S A :=
  fun s => match body s with
           | (Ret a, s') => (Ret a, s')
           | (Throw, s') => handler s'
           end.

(** The store after a computation, whatever its outcome. *)
Definition exec {S A} (m : M S A) (s : S) : S := snd (m s).

Declare Scope monad_scope.
Delimit Scope monad_scope with monad.
Notation "x <- m ;; k" := (bind m (fun x => k))
  (at level 61, m at next level, right associativity) : monad_scope.
Notation "m ;; k" := (bind m (fun _ => k))
  (at level 61, right associativity) : monad_scope.

(* ================================================================== *)
(** * JavaScript arrays                                               *)
(* ================================================================== *)

(** [arr[i]] for a number [i]: [None] is [undefined]. *)
Definition arr_get {A} (l : list A) (i : Z) : option A :=
  if i <? 0 then None else nth_error l (Z.to_nat i).

(** [arr[i] = v] for an index [i]: an existing element is replaced and an
    index equal to the length grows the array by one.  An index past the
    length would leave holes, which a list of numbers cannot hold; the
    engine writes there only on a board whose rows differ in length, which
    is not a grid, and the model leaves the array as it is. *)
Fixpoint arr_set {A} (l : list A) (i : nat) (v : A) : list A :=
  match l, i with
  | [], O => [v]
  | [], S _ => []
  | _ :: t, O => v :: t
  | h :: t, S j => h :: arr_set t j v
  end.

Definition len {A} (l : list A) : Z := Z.of_nat (length l).

(* ================================================================== *)
(** * game.js: the board                                              *)
(* ================================================================== *)

Definition Row := list Z.
Definition Board := list Row.
Definition Shape := list (list Z).

Definition BOARD_WIDTH : nat := 10.
Definition BOARD_HEIGHT : nat := 20.

(** [Array(height).fill().map(() => Array(width).fill(0))] *)
Definition createEmptyBoard (width height : nat) : Board :=
  repeat (repeat 0 width) height.

(** The cell [board[r][c]], [None] when there is no such cell. *)
Definition cellAt (board : Board) (r c : Z) : option Z :=
  match arr_get board r with
  | Some row => arr_get row c
  | None => None
  end.

(** ** checkCollision *)

(** The body of the two loops for one cell of the shape that is filled.
    [Ret true] is the [return true] of the source, [Ret false] means that
    the loop goes on.  The first test short-circuits as in the source:
    [board[0].length] is only read when [newX < 0] is false. *)
Definition collisionAt (board : Board) (newX newY : Z) : outcome bool :=
  if newX <? 0 then Ret true
  else match board with
       | [] => Throw
       | row0 :: _ =>
           if (newX >=? len row0) || (newY >=? len board) then Ret true
           else if newY >=? 0 then
             match arr_get board newY with
             | None => Throw
             | Some row =>
                 match arr_get row newX with
                 | Some 0 => Ret false
                 | _ => Ret true
                 end
             end
           else Ret false
       end.

(** [for (let col = 0; col < shape[row].length; col++)], on the cells that
    are left from column [col] on. *)
Fixpoint collisionCols (board : Board) (cells : list Z) (col : nat)
    (x newY offsetX : Z) : outcome bool :=
  match cells with
  | [] => Ret false
  | v :: rest =>
      if v =? 0 then collisionCols board rest (S col) x newY offsetX
      else match collisionAt board (x + Z.of_nat col + offsetX) newY with
           | Ret false => collisionCols board rest (S col) x newY offsetX
           | r => r
           end
  end.

(** [for (let row = 0; row < shape.length; row++)], on the rows that are
    left from row [row] on. *)
Fixpoint collisionRows (board : Board) (rows : Shape) (row : nat)
    (x y offsetX offsetY : Z) : outcome bool :=
  match rows with
  | [] => Ret false
  | cells :: rest =>
      match collisionCols board cells 0 x (y + Z.of_nat row + offsetY) offsetX with
      | Ret false => collisionRows board rest (S row) x y offsetX offsetY
      | r => r
      end
  end.

Definition checkCollision (board : Board) (shape : option Shape)
    (x y offsetX offsetY : Z) : outcome bool :=
  match shape with
  | None => Ret false
  | Some [] => Ret false
  | Some rows => collisionRows board rows 0 x y offsetX offsetY
  end.

(** ** checkFullLines *)

(** The inner loop with its [break]: is every cell of the row non-zero? *)
Fixpoint isFull (cells : Row) : bool :=
  match cells with
  | [] => true
  | v :: rest => if v =? 0 then false else isFull rest
  end.

Fixpoint fullLinesFrom (rows : Board) (row : nat) : list nat :=
  match rows with
  | [] => []
  | cells :: rest =>
      if isFull cells then row :: fullLinesFrom rest (S row)
      else fullLinesFrom rest (S row)
  end.

Definition checkFullLines (board : Board) : list nat := fullLinesFrom board 0.

(** ** clearLines *)

(** [board[r][col] = v], for a row [r] that exists. *)
Definition setCell (board : Board) (r col : nat) (v : Z) : Board :=
  match nth_error board r with
  | Some cells => arr_set board r (arr_set cells col v)
  | None => board
  end.

(** [for (let col = 0; col < board[r].length; col++) board[r][col] = 0],
    the bound read from the row as it is when the loop starts (the writes
    are in range and do not change it). *)
Definition zeroRow (board : Board) (r : nat) : outcome unit * Board :=
  match nth_error board r with
  | None => (Throw, board)
  | Some cells =>
      (Ret tt, fold_left (fun b col => setCell b r col 0) (seq 0 (length cells)) board)
  end.

Fixpoint clearLines (lineIndices : list nat) : M Board unit :=
  match lineIndices with
  | [] => ret tt
  | lineIndex :: rest =>
      (fun b => zeroRow b lineIndex) ;; clearLines rest
  end%monad.

(** ** dropLinesDown *)

(** [clearedSet.has(readRow)] *)
Definition has (clearedSet : list nat) (r : nat) : bool :=
  existsb (Nat.eqb r) clearedSet.

(** [for (col ...) board[writeRow][col] = board[readRow][col]] *)
Definition copyRow (board : Board) (readRow writeRow : nat) : Board :=
  match nth_error board readRow with
  | None => board
  | Some cells =>
      fold_left (fun b col =>
                   match nth_error b readRow with
                   | Some src => setCell b writeRow col (nth col src 0)
                   | None => b
                   end)
                (seq 0 (length cells)) board
  end.

(** The loop [for (readRow = board.length - 1; readRow >= 0; readRow--)]
    with [n = readRow + 1] iterations left; it returns the board and the
    final [writeRow], which is [-1] when no row was cleared. *)
Fixpoint dropLoop (clearedSet : list nat) (n : nat) (board : Board)
    (writeRow : Z) : Board * Z :=
  match n with
  | O => (board, writeRow)
  | S readRow =>
      if has clearedSet readRow then dropLoop clearedSet readRow board writeRow
      else
        let board' :=
          if writeRow =? Z.of_nat readRow then board
          else copyRow board readRow (Z.to_nat writeRow) in
        dropLoop clearedSet readRow board' (writeRow - 1)
  end.

(** [for (let row = 0; row <= writeRow; row++)] zero the row. *)
Definition fillTop (board : Board) (writeRow : Z) : Board :=
  fold_left (fun b row => snd (zeroRow b row))
            (seq 0 (Z.to_nat (writeRow + 1))) board.

Definition dropLinesDown (board : Board) (clearedLineIndices : list nat) : Board :=
  match clearedLineIndices with
  | [] => board
  | _ =>
      let '(board', writeRow) :=
        dropLoop clearedLineIndices (length board) board (len board - 1) in
      fillTop board' writeRow
  end.

(** ** calculateScore *)

(** The object literal [baseScores], looked up by key.  Its keys are 0
    to 4, and [calculateScore] looks up no other integer. *)
Definition baseScores (linesCleared : Z) : Z :=
  match linesCleared with
  | 0 => 0
  | 1 => 100
  | 2 => 300
  | 3 => 500
  | 4 => 800
  | _ => 0
  end.

Definition calculateScore (linesCleared level : Z) : Z :=
  if (level <=? 0) || (linesCleared <? 0) || (linesCleared >? 4) then 0
  else baseScores linesCleared * level.

(* ================================================================== *)
(** * tetromino.js: the catalogue                                     *)
(* ================================================================== *)

Record Entry : Type := mkEntry {
  entry_color : string;
  shapes : list Shape
}.

(** The object literal [TETROMINOS], as its list of own keys and values. *)
Definition TETROMINOS : list (string * Entry) :=
  [ ("I", mkEntry "cyan"
       [ [[0;0;0;0]; [1;1;1;1]; [0;0;0;0]; [0;0;0;0]];
         [[0;0;1;0]; [0;0;1;0]; [0;0;1;0]; [0;0;1;0]];
         [[0;0;0;0]; [0;0;0;0]; [1;1;1;1]; [0;0;0;0]];
         [[0;1;0;0]; [0;1;0;0]; [0;1;0;0]; [0;1;0;0]] ]);
    ("O", mkEntry "yellow"
       [ [[1;1]; [1;1]];
         [[1;1]; [1;1]];
         [[1;1]; [1;1]];
         [[1;1]; [1;1]] ]);
    ("T", mkEntry "purple"
       [ [[0;1;0]; [1;1;1]; [0;0;0]];
         [[0;1;0]; [0;1;1]; [0;1;0]];
         [[0;0;0]; [1;1;1]; [0;1;0]];
         [[0;1;0]; [1;1;0]; [0;1;0]] ]);
    ("S", mkEntry "green"
       [ [[0;1;1]; [1;1;0]; [0;0;0]];
         [[0;1;0]; [0;1;1]; [0;0;1]];
         [[0;0;0]; [0;1;1]; [1;1;0]];
         [[1;0;0]; [1;1;0]; [0;1;0]] ]);
    ("Z", mkEntry "red"
       [ [[1;1;0]; [0;1;1]; [0;0;0]];
         [[0;0;1]; [0;1;1]; [0;1;0]];
         [[0;0;0]; [1;1;0]; [0;1;1]];
         [[0;1;0]; [1;1;0]; [1;0;0]] ]);
    ("J", mkEntry "blue"
       [ [[1;0;0]; [1;1;1]; [0;0;0]];
         [[0;1;1]; [0;1;0]; [0;1;0]];
         [[0;0;0]; [1;1;1]; [0;0;1]];
         [[0;1;0]; [0;1;0]; [1;1;0]] ]);
    ("L", mkEntry "orange"
       [ [[0;0;1]; [1;1;1]; [0;0;0]];
         [[0;1;0]; [0;1;0]; [0;1;1]];
         [[0;0;0]; [1;1;1]; [1;0;0]];
         [[1;1;0]; [0;1;0]; [0;1;0]] ]) ].

(** The own keys of an object literal: the value of an own key, [None]
    for a string that is no own key. *)
Fixpoint lookup {A} (obj : list (string * A)) (key : string) : option A :=
  match obj with
  | [] => None
  | (k, v) :: rest => if String.eqb k key then Some v else lookup rest key
  end.

(** The keys an object literal inherits from [Object.prototype]. *)
Definition objectPrototypeKeys : list string :=
  [ "constructor"; "hasOwnProperty"; "isPrototypeOf"; "propertyIsEnumerable";
    "toLocaleString"; "toString"; "valueOf"; "__proto__";
    "__defineGetter__"; "__defineSetter__"; "__lookupGetter__";
    "__lookupSetter__" ].

Definition inherited (key : string) : bool :=
  existsb (String.eqb key) objectPrototypeKeys.

(** What the read [obj[key]] of an object literal finds: the value of an
    own key, or a property inherited from [Object.prototype] (a function,
    for [__proto__] the prototype itself: a truthy value with none of the
    properties of the object's values), or nothing ([undefined]). *)
Inductive property (A : Type) : Type :=
| Own (v : A)
| Inherited
| Missing.

Arguments Own {A} v.
Arguments Inherited {A}.
Arguments Missing {A}.

Definition read {A} (obj : list (string * A)) (key : string) : property A :=
  match lookup obj key with
  | Some v => Own v
  | None => if inherited key then Inherited else Missing
  end.

Record Tetromino : Type := mkTetromino {
  type : string;
  shape : option Shape;     (* [None]: undefined *)
  color : string;
  x : Z;
  y : Z;
  rotation : Z
}.

(** [createTetromino(type)]; the argument may be [undefined], which reads
    the key 'undefined' and finds nothing.  The test [!TETROMINOS[type]]
    replaces by ['I'] a type for which the read finds nothing; an inherited
    property passes the test, and then [TETROMINOS[type].shapes] is
    undefined and the read of its element 0 throws. *)
Definition createTetromino (type : option string) : outcome Tetromino :=
  let type :=
    match type with
    | Some t => match read TETROMINOS t with
                | Missing => "I"
                | _ => t
                end
    | None => "I"
    end in
  match read TETROMINOS type with
  | Own e => Ret (mkTetromino type (nth_error (shapes e) 0) (entry_color e) 4 0 0)
  | Inherited => Throw
  | Missing => Throw
  end.

(* ================================================================== *)
(** * main.js: the class Game                                         *)
(* ================================================================== *)

(** A JavaScript value, as far as [typeof] tells numbers from the rest. *)
Inductive value : Type :=
| VNumber (n : Z)
| VString (s : string)
| VBoolean (b : bool)
| VUndefined
| VNull.

(** The fields of a [Game] object; the renderer is an external capability
    and holds no game state. *)
Record Game : Type := mkGame {
  score : Z;
  level : Z;
  lines : Z;
  gameOver : bool;
  paused : bool;
  board : Board;
  currentTetromino : option Tetromino;
  lastDropTime : Z;
  dropInterval : Z
}.

Definition set_score (v : Z) (g : Game) : Game :=
  mkGame v (level g) (lines g) (gameOver g) (paused g) (board g)
         (currentTetromino g) (lastDropTime g) (dropInterval g).
Definition set_level (v : Z) (g : Game) : Game :=
  mkGame (score g) v (lines g) (gameOver g) (paused g) (board g)
         (currentTetromino g) (lastDropTime g) (dropInterval g).
Definition set_lines (v : Z) (g : Game) : Game :=
  mkGame (score g) (level g) v (gameOver g) (paused g) (board g)
         (currentTetromino g) (lastDropTime g) (dropInterval g).
Definition set_gameOver (v : bool) (g : Game) : Game :=
  mkGame (score g) (level g) (lines g) v (paused g) (board g)
         (currentTetromino g) (lastDropTime g) (dropInterval g).
Definition set_paused (v : bool) (g : Game) : Game :=
  mkGame (score g) (level g) (lines g) (gameOver g) v (board g)
         (currentTetromino g) (lastDropTime g) (dropInterval g).
Definition set_board (v : Board) (g : Game) : Game :=
  mkGame (score g) (level g) (lines g) (gameOver g) (paused g) v
         (currentTetromino g) (lastDropTime g) (dropInterval g).
Definition set_currentTetromino (v : option Tetromino) (g : Game) : Game :=
  mkGame (score g) (level g) (lines g) (gameOver g) (paused g) (board g)
         v (lastDropTime g) (dropInterval g).
Definition set_lastDropTime (v : Z) (g : Game) : Game :=
  mkGame (score g) (level g) (lines g) (gameOver g) (paused g) (board g)
         (currentTetromino g) v (dropInterval g).
Definition set_dropInterval (v : Z) (g : Game) : Game :=
  mkGame (score g) (level g) (lines g) (gameOver g) (paused g) (board g)
         (currentTetromino g) (lastDropTime g) v.

(** A computation on the board, run on [this.board]. *)
Definition on_board {A} (m : M Board A) : M Game A :=
  fun g => let '(o, b) := m (board g) in (o, set_board b g).

Local Open Scope monad_scope.

(** ** initializeGameState, the constructor and reset *)

Definition initialState : Game :=
  mkGame 0 1 0 false false (createEmptyBoard BOARD_WIDTH BOARD_HEIGHT) None 0 1000.

Definition initializeGameState : M Game unit := put initialState.

Definition reset : M Game unit := initializeGameState.

(** ** getDropInterval and updateDropInterval *)

Definition getDropInterval (g : Game) : Z :=
  if level g <=? 1 then 1000
  else if level g =? 2 then 800
  else if level g <=? 5 then 500
  else if level g >=? 10 then 100
  else if level g <=? 4 then 800 - (level g - 2) * 100
  else 500 - (level g - 5) * 80.

Definition updateDropInterval : M Game unit :=
  modify (fun g => set_dropInterval (getDropInterval g) g).

(** ** addScore *)

Definition addScore (points linesCleared : value) : M Game unit :=
  match points with
  | VNumber p =>
      if p <? 0 then ret tt
      else
        match linesCleared with
        | VNumber n =>
            if n <? 0 then ret tt
            else
              modify (fun g => set_score (score g + p) g) ;;
              modify (fun g => set_lines (lines g + n) g) ;;
              g <- get ;;
              let newLevel := lines g / 10 + 1 in
              if newLevel >? level g then
                modify (set_level newLevel) ;;
                updateDropInterval
              else ret tt
        | _ => ret tt
        end
  | _ => ret tt
  end.

(** ** setGameOver and togglePause *)

Definition setGameOver (isGameOver : bool) : M Game unit :=
  modify (set_gameOver isGameOver).

Definition togglePause : M Game bool :=
  modify (fun g => set_paused (negb (paused g)) g) ;;
  g <- get ;;
  ret (paused g).

(** ** shouldDropTetromino *)

Definition shouldDropTetromino (currentTime : Z) : M Game bool :=
  g <- get ;;
  if paused g || gameOver g then ret false
  else if currentTime - lastDropTime g <? dropInterval g then ret false
  else
    modify (set_lastDropTime currentTime) ;;
    ret true.

(** ** spawnNewTetromino *)

Definition types : list string := ["I"; "O"; "T"; "S"; "Z"; "J"; "L"].

(** [rnd] is the draw [Math.floor(Math.random() * types.length)] of the
    random source. *)
Definition spawnNewTetromino (rnd : nat) : M Game bool :=
  let randomType := nth_error types rnd in
  newTetromino <- lift (createTetromino randomType) ;;
  g <- get ;;
  collides <- lift (checkCollision (board g) (shape newTetromino)
                                   (x newTetromino) (y newTetromino) 0 0) ;;
  if collides : bool then
    setGameOver true ;;
    ret false
  else
    modify (set_currentTetromino (Some newTetromino)) ;;
    ret true.

(** ** getTetrominoColorValue *)

Definition colorMap : list (string * Z) :=
  [("I", 1); ("O", 2); ("T", 3); ("S", 4); ("Z", 5); ("J", 6); ("L", 7)].

(** [colorMap[type] || 1]: a missing key and a zero both give 1.  This
    is the value for a type that is no key of [Object.prototype]
    ([inherited type = false]); for such a key the source finds the
    inherited property, which is no number, and a board of numbers cannot
    hold it. *)
Definition getTetrominoColorValue (type : string) : Z :=
  match lookup colorMap type with
  | Some v => if v =? 0 then 1 else v
  | None => 1
  end.

(** ** processLineClearing *)

Definition processLineClearing : M Game unit :=
  g <- get ;;
  let fullLines := checkFullLines (board g) in
  if (len fullLines >? 0) then
    on_board (clearLines fullLines) ;;
    on_board (modify (fun b => dropLinesDown b fullLines)) ;;
    g <- get ;;
    let points := calculateScore (len fullLines) (level g) in
    addScore (VNumber points) (VNumber (len fullLines))
  else ret tt.

(** ** fixTetrominoToBoard *)

(** The guarded write of one filled cell.  [this.board[0].length] is read
    only after [boardY < this.board.length] held, so row 0 exists. *)
Definition stampCell (b : Board) (boardX boardY colorValue : Z) : Board :=
  if (boardY >=? 0) && (boardY <? len b) &&
     (boardX >=? 0) && (boardX <? len (hd [] b))
  then setCell b (Z.to_nat boardY) (Z.to_nat boardX) colorValue
  else b.

Fixpoint stampCols (b : Board) (cells : list Z) (col : nat)
    (x boardY colorValue : Z) : Board :=
  match cells with
  | [] => b
  | v :: rest =>
      let b' := if v =? 0 then b
                else stampCell b (x + Z.of_nat col) boardY colorValue in
      stampCols b' rest (S col) x boardY colorValue
  end.

Fixpoint stampRows (b : Board) (rows : Shape) (row : nat)
    (x y colorValue : Z) : Board :=
  match rows with
  | [] => b
  | cells :: rest =>
      stampRows (stampCols b cells 0 x (y + Z.of_nat row) colorValue)
                rest (S row) x y colorValue
  end.

Definition fixTetrominoToBoard (rnd : nat) : M Game unit :=
  g <- get ;;
  match currentTetromino g with
  | None => ret tt
  | Some t =>
      match shape t with
      | None => throw                    (* [shape.length] of undefined *)
      | Some rows =>
          on_board (modify (fun b =>
            stampRows b rows 0 (x t) (y t) (getTetrominoColorValue (type t)))) ;;
          processLineClearing ;;
          modify (set_currentTetromino None) ;;
          _ <- spawnNewTetromino rnd ;;
          ret tt
      end
  end.

(** ** dropCurrentTetromino *)

Definition move_down (t : Tetromino) : Tetromino :=
  mkTetromino (type t) (shape t) (color t) (x t) (y t + 1) (rotation t).

Definition dropCurrentTetromino (rnd : nat) : M Game unit :=
  g <- get ;;
  match currentTetromino g with
  | None => ret tt
  | Some t =>
      collides <- lift (checkCollision (board g) (shape t) (x t) (y t + 1) 0 0) ;;
      if negb collides then
        modify (set_currentTetromino (Some (move_down t)))
      else
        fixTetrominoToBoard rnd
  end.

(** ** validateAndFixGameState *)

Definition validateAndFixGameState : M Game unit :=
  modify (fun g => if level g <? 1 then set_level 1 g else g) ;;
  modify (fun g => if score g <? 0 then set_score 0 g else g) ;;
  modify (fun g => if lines g <? 0 then set_lines 0 g else g).

(** ** update *)

Definition update (currentTime : Z) (rnd : nat) : M Game unit :=
  try_catch
    (validateAndFixGameState ;;
     g <- get ;;
     if paused g || gameOver g then ret tt
     else
       match currentTetromino g with
       | None =>
           _ <- spawnNewTetromino rnd ;;
           ret tt
       | Some _ =>
           drop <- shouldDropTetromino currentTime ;;
           if drop : bool then dropCurrentTetromino rnd else ret tt
       end)
    (modify (set_paused true)).

(** ** render *)

(** What [render] asks of the renderer.  An exception of the renderer is
    caught inside [render]; in either case no field of the game is
    written. *)
Inductive RendererCall : Type :=
| Clear
| DrawBoard (b : Board)
| DrawTetromino (t : Tetromino).

Definition render : M Game (list RendererCall) :=
  g <- get ;;
  if paused g then ret []
  else
    ret ([Clear; DrawBoard (board g)] ++
         match currentTetromino g with
         | Some t => [DrawTetromino t]
         | None => []
         end).

(** ** The methods of the class, as one type *)

Inductive method : Type :=
| InitializeGameState
| AddScore (points linesCleared : value)
| SetGameOver (isGameOver : bool)
| TogglePause
| Reset
| UpdateDropInterval
| ShouldDropTetromino (currentTime : Z)
| SpawnNewTetromino (rnd : nat)
| FixTetrominoToBoard (rnd : nat)
| ProcessLineClearing
| Update (currentTime : Z) (rnd : nat)
| DropCurrentTetromino (rnd : nat)
| ValidateAndFixGameState
| Render.

(** The game after a call of a method. *)
Definition call (m : method) (g : Game) : Game :=
  match m with
  | InitializeGameState => exec initializeGameState g
  | AddScore p n => exec (addScore p n) g
  | SetGameOver b => exec (setGameOver b) g
  | TogglePause => exec togglePause g
  | Reset => exec reset g
  | UpdateDropInterval => exec updateDropInterval g
  | ShouldDropTetromino t => exec (shouldDropTetromino t) g
  | SpawnNewTetromino r => exec (spawnNewTetromino r) g
  | FixTetrominoToBoard r => exec (fixTetrominoToBoard r) g
  | ProcessLineClearing => exec processLineClearing g
  | Update t r => exec (update t r) g
  | DropCurrentTetromino r => exec (dropCurrentTetromino r) g
  | ValidateAndFixGameState => exec validateAndFixGameState g
  | Render => exec render g
  end.

(** The methods the specification exposes to the host. *)
Definition exposed (m : method) : bool :=
  match m with
  | SpawnNewTetromino _ | TogglePause | Reset | Update _ _ | Render => true
  | _ => false
  end.

(** The states the host can reach from a new game. *)
Inductive reachable : Game -> Prop :=
| reachable_new : reachable initialState
| reachable_call m g : reachable g -> exposed m = true -> reachable (call m g).

Fixpoint run (ms : list method) (g : Game) : Game :=
  match ms with
  | [] => g
  | m :: rest => run rest (call m g)
  end.

(* ================================================================== *)
(** * tetromino.js: moving and rotating a piece                       *)
(* ================================================================== *)

(** [moveTetromino(tetromino, direction)]: a copy of the piece, moved by
    the [switch] on the direction. *)
Definition moveTetromino (tetromino : Tetromino) (direction : string) : Tetromino :=
  if String.eqb direction "left" then
    mkTetromino (type tetromino) (shape tetromino) (color tetromino)
                (x tetromino - 1) (y tetromino) (rotation tetromino)
  else if String.eqb direction "right" then
    mkTetromino (type tetromino) (shape tetromino) (color tetromino)
                (x tetromino + 1) (y tetromino) (rotation tetromino)
  else if String.eqb direction "down" then
    mkTetromino (type tetromino) (shape tetromino) (color tetromino)
                (x tetromino) (y tetromino + 1) (rotation tetromino)
  else tetromino.

(** [rotateTetromino(tetromino, direction)].  [%] is the remainder of
    JavaScript, which has the sign of the dividend; the read of
    [TETROMINOS[tetromino.type].shapes] throws for a type that is not in
    the catalogue, and [shapes[newRotation]] is undefined for an index that
    is not 0 to 3. *)
Definition rotateTetromino (tetromino : Tetromino) (direction : string)
  : outcome Tetromino :=
  let newRotation :=
    if String.eqb direction "right" then Z.rem (rotation tetromino + 1) 4
    else if String.eqb direction "left" then Z.rem (rotation tetromino + 3) 4
    else rotation tetromino in
  match lookup TETROMINOS (type tetromino) with
  | None => Throw
  | Some e =>
      Ret (mkTetromino (type tetromino) (arr_get (shapes e) newRotation)
                       (color tetromino) (x tetromino) (y tetromino) newRotation)
  end.

(* ================================================================== *)
(** * The application: keys, buttons and frames                       *)
(* ================================================================== *)

(** The methods of [TetrisApp] that act on the game, for an application
    that is initialised ([this.game] is set) and running. *)

Definition set_x (v : Z) (t : Tetromino) : Tetromino :=
  mkTetromino (type t) (shape t) (color t) v (y t) (rotation t).

(** The body shared by [moveLeft] and [moveRight]: [newX] is [x - 1] or
    [x + 1]. *)
Definition moveTo (newX : Tetromino -> Z) : M Game unit :=
  g <- get ;;
  match currentTetromino g with
  | Some tetromino =>
      if negb (paused g) then
        collides <- lift (checkCollision (board g) (shape tetromino)
                                         (newX tetromino) (y tetromino) 0 0) ;;
        if negb collides then
          modify (set_currentTetromino (Some (set_x (newX tetromino) tetromino)))
        else ret tt
      else ret tt
  | None => ret tt
  end.

Definition moveLeft : M Game unit := moveTo (fun t => x t - 1).
Definition moveRight : M Game unit := moveTo (fun t => x t + 1).

Definition softDrop (rnd : nat) : M Game unit :=
  g <- get ;;
  match currentTetromino g with
  | Some _ => if negb (paused g) then dropCurrentTetromino rnd else ret tt
  | None => ret tt
  end.

(** Not implemented in the source: they only log. *)
Definition rotateRight : M Game unit := ret tt.
Definition rotateLeft : M Game unit := ret tt.
Definition hardDrop : M Game unit := ret tt.

Definition appTogglePause : M Game unit :=
  _ <- togglePause ;; ret tt.

Definition restart (rnd : nat) : M Game unit :=
  reset ;;
  _ <- spawnNewTetromino rnd ;;
  ret tt.

(** [handleKeyDown(event)], by [event.code]. *)
Definition handleKeyDown (code : string) (rnd : nat) : M Game unit :=
  g <- get ;;
  if gameOver g then ret tt
  else if String.eqb code "ArrowLeft" then moveLeft
  else if String.eqb code "ArrowRight" then moveRight
  else if String.eqb code "ArrowDown" then softDrop rnd
  else if String.eqb code "ArrowUp" then rotateRight
  else if String.eqb code "KeyX" then rotateRight
  else if String.eqb code "KeyZ" then rotateLeft
  else if String.eqb code "Space" then hardDrop
  else if String.eqb code "KeyP" then appTogglePause
  else if String.eqb code "KeyR" then restart rnd
  else ret tt.

(** The handler of the [blur] event of the window. *)
Definition onBlur : M Game unit :=
  g <- get ;;
  if negb (paused g) then appTogglePause else ret tt.

(** One turn of [gameLoop]: [update], then [render]. *)
Definition gameLoop (currentTime : Z) (rnd : nat) : M Game unit :=
  update currentTime rnd ;;
  _ <- render ;;
  ret tt.

(** What the browser sends to the application. *)
Inductive event : Type :=
| KeyDown (code : string) (rnd : nat)
| PauseButton
| RestartButton (rnd : nat)
| Blur
| Frame (currentTime : Z) (rnd : nat).

Definition handle (e : event) : M Game unit :=
  match e with
  | KeyDown code rnd => handleKeyDown code rnd
  | PauseButton => appTogglePause
  | RestartButton rnd => restart rnd
  | Blur => onBlur
  | Frame t rnd => gameLoop t rnd
  end.

(** The states of the game in the application: [init] makes a new game
    and spawns the first piece, then the events follow. *)
Inductive app_reachable : Game -> Prop :=
| app_init rnd : app_reachable (exec (spawnNewTetromino rnd) initialState)
| app_event e g : app_reachable g -> app_reachable (exec (handle e) g).

(* ================================================================== *)
(** * renderer.js                                                     *)
(* ================================================================== *)

(** The fields of a [Renderer]; [hasContext] tells whether the canvas
    gave a 2D context. *)
Record Renderer : Type := mkRenderer {
  blockSize : Z;
  hasContext : bool;
  canvasWidth : Z;
  canvasHeight : Z
}.

(** The calls on the 2D context, with the fill style they are made with. *)
Inductive CanvasOp : Type :=
| FillRect (px py w h : Z) (fillStyle : string)
| ClearRect (px py w h : Z).

(** The object literal [colorMap] of [getBlockColor]. *)
Definition blockColorMap : list (Z * string) :=
  [ (0, "transparent"); (1, "#FF0000"); (2, "#00FF00"); (3, "#0000FF");
    (4, "#FFFF00"); (5, "#FF00FF"); (6, "#00FFFF"); (7, "#FFA500") ].

Fixpoint lookupZ {A} (obj : list (Z * A)) (key : Z) : option A :=
  match obj with
  | [] => None
  | (k, v) :: rest => if k =? key then Some v else lookupZ rest key
  end.

(** [colorMap[blockValue] || '#FFFFFF'], after the test for a negative
    value; every colour of the table is a non-empty string. *)
Definition getBlockColor (blockValue : Z) : string :=
  if blockValue <? 0 then "transparent"
  else match lookupZ blockColorMap blockValue with
       | Some c => c
       | None => "#FFFFFF"
       end.

Definition drawBlock (r : Renderer) (x y : Z) (color : string) : list CanvasOp :=
  if hasContext r then
    [FillRect (x * blockSize r) (y * blockSize r) (blockSize r) (blockSize r) color]
  else [].

Fixpoint drawBoardCols (r : Renderer) (cells : Row) (row col : nat) : list CanvasOp :=
  match cells with
  | [] => []
  | blockValue :: rest =>
      (if blockValue =? 0 then []
       else drawBlock r (Z.of_nat col) (Z.of_nat row) (getBlockColor blockValue))
      ++ drawBoardCols r rest row (S col)
  end.

Fixpoint drawBoardRows (r : Renderer) (rows : Board) (row : nat) : list CanvasOp :=
  match rows with
  | [] => []
  | cells :: rest => drawBoardCols r cells row 0 ++ drawBoardRows r rest (S row)
  end.

Definition drawBoard (r : Renderer) (board : Board) : list CanvasOp :=
  drawBoardRows r board 0.

Fixpoint drawShapeCols (r : Renderer) (cells : list Z) (col : nat)
    (x absoluteY : Z) (color : string) : list CanvasOp :=
  match cells with
  | [] => []
  | v :: rest =>
      (if v =? 0 then []
       else drawBlock r (x + Z.of_nat col) absoluteY color)
      ++ drawShapeCols r rest (S col) x absoluteY color
  end.

Fixpoint drawShapeRows (r : Renderer) (rows : Shape) (row : nat)
    (x y : Z) (color : string) : list CanvasOp :=
  match rows with
  | [] => []
  | cells :: rest =>
      drawShapeCols r cells 0 x (y + Z.of_nat row) color
      ++ drawShapeRows r rest (S row) x y color
  end.

Definition drawTetromino (r : Renderer) (tetromino : option Tetromino)
  : list CanvasOp :=
  match tetromino with
  | None => []
  | Some t =>
      match shape t with
      | None => []
      | Some rows => drawShapeRows r rows 0 (x t) (y t) (color t)
      end
  end.

Definition clear (r : Renderer) : list CanvasOp :=
  if hasContext r then [ClearRect 0 0 (canvasWidth r) (canvasHeight r)] else [].

(** What a call of [render] puts on the canvas of the renderer [r]. *)
Definition perform (r : Renderer) (c : RendererCall) : list CanvasOp :=
  match c with
  | Clear => clear r
  | DrawBoard b => drawBoard r b
  | DrawTetromino t => drawTetromino r (Some t)
  end.

Definition renderOn (r : Renderer) (g : Game) : list CanvasOp :=
  match render g with
  | (Ret calls, _) => concat (map (perform r) calls)
  | (Throw, _) => []
  end.

(* ================================================================== *)
(** * testHelpers.js                                                  *)
(* ================================================================== *)

(** [boardsEqual(board1, board2)].  The loop over the columns of two rows
    of the same length, with its [return false]: *)
Fixpoint cellsLoop (r1 r2 : Row) : bool :=
  match r1, r2 with
  | v1 :: t1, v2 :: t2 => if negb (v1 =? v2) then false else cellsLoop t1 t2
  | _, _ => true
  end.

(** the loop over the rows of two boards of the same length: *)
Fixpoint rowsLoop (b1 b2 : Board) : bool :=
  match b1, b2 with
  | r1 :: t1, r2 :: t2 =>
      if negb (Nat.eqb (length r1) (length r2)) then false
      else if cellsLoop r1 r2 then rowsLoop t1 t2 else false
  | _, _ => true
  end.

Definition boardsEqual (board1 board2 : Board) : bool :=
  if negb (Nat.eqb (length board1) (length board2)) then false
  else rowsLoop board1 board2.

(** [countFilledBlocks(board)] *)
Fixpoint countRow (cells : Row) : Z :=
  match cells with
  | [] => 0
  | v :: rest => (if v =? 0 then 0 else 1) + countRow rest
  end.

Fixpoint countFilledBlocks (board : Board) : Z :=
  match board with
  | [] => 0
  | cells :: rest => countRow cells + countFilledBlocks rest
  end.

(* ================================================================== *)
(** * The vocabulary of the specification                             *)
(* ================================================================== *)

Definition height (b : Board) : Z := len b.

(** The width the code uses: [board[0].length]. *)
Definition width (b : Board) : Z := len (hd [] b).

(** A grid: at least one row, and every row as long as row 0. *)
Definition grid (b : Board) : Prop :=
  b <> [] /\ Forall (fun row => length row = length (hd [] b)) b.

(** The cell [(r, c)] of the shape is filled. *)
Definition filledAt (s : Shape) (r c : nat) : Prop :=
  exists cells v, nth_error s r = Some cells /\ nth_error cells c = Some v /\ v <> 0.

(** A cell at absolute column [X] and absolute row [Y] is in collision:
    outside the columns of the board, at or below the floor, or, from row
    0 on, over a board cell that is not 0. *)
Definition hits (b : Board) (X Y : Z) : Prop :=
  X < 0 \/ width b <= X \/ height b <= Y \/
  (0 <= Y /\ exists v, cellAt b Y X = Some v /\ v <> 0).

Definition collides (b : Board) (s : Shape) (x y offsetX offsetY : Z) : Prop :=
  exists r c, filledAt s r c /\
              hits b (x + Z.of_nat c + offsetX) (y + Z.of_nat r + offsetY).

(** A new game put at level [l]. *)
Definition at_level (l : Z) : Game := set_level l initialState.

(** A piece of the catalogue: its type is a key of [TETROMINOS], its
    rotation is 0 to 3 and its shape is the one the catalogue has for
    them. *)
Definition catalogued (t : Tetromino) : Prop :=
  exists e, lookup TETROMINOS (type t) = Some e /\
            0 <= rotation t <= 3 /\
            shape t = arr_get (shapes e) (rotation t).

(** [n] calls of [rotateTetromino], each on the result of the one
    before. *)
Fixpoint rotateTimes (n : nat) (direction : string) (t : Tetromino)
  : outcome Tetromino :=
  match n with
  | O => Ret t
  | S k => match rotateTetromino t direction with
           | Ret t' => rotateTimes k direction t'
           | Throw => Throw
           end
  end.

(** Does a filled cell of the shape at [(x, y)] lie on the cell at row
    [R] and column [C]? *)
Fixpoint coversCols (cells : list Z) (col : nat) (x C : Z) : bool :=
  match cells with
  | [] => false
  | v :: rest =>
      (negb (v =? 0) && (x + Z.of_nat col =? C)) || coversCols rest (S col) x C
  end.

Fixpoint coversRows (rows : Shape) (row : nat) (x y R C : Z) : bool :=
  match rows with
  | [] => false
  | cells :: rest =>
      ((y + Z.of_nat row =? R) && coversCols cells 0 x C)
      || coversRows rest (S row) x y R C
  end.

Definition covers (s : Shape) (x y R C : Z) : bool := coversRows s 0 x y R C.

(** The numbers of the game: score and lines are not negative, the level
    follows the lines and the drop interval follows the level. *)
Definition stats_ok (g : Game) : Prop :=
  0 <= score g /\ 0 <= lines g /\ level g = lines g / 10 + 1 /\
  dropInterval g = getDropInterval g.

(** A piece as [createTetromino] makes it, moved to some place at or
    below its spawn row. *)
Definition spawned (t : Tetromino) : Prop :=
  exists rnd t0,
    createTetromino (nth_error types rnd) = Ret t0 /\
    type t = type t0 /\ shape t = shape t0 /\ color t = color t0 /\
    rotation t = 0 /\ 0 <= y t.

(** The type of the current piece, when there is one, is no key that
    [colorMap] inherits: the seven types of the catalogue are such, and so
    is every string for which [colorMap[type]] finds nothing. *)
Definition piece_typed (g : Game) : Prop :=
  forall t, currentTetromino g = Some t -> inherited (type t) = false.

(** The current piece, when there is one, is a spawned piece that does
    not collide with the board. *)
Definition piece_ok (g : Game) : Prop :=
  forall t, currentTetromino g = Some t ->
            spawned t /\
            checkCollision (board g) (shape t) (x t) (y t) 0 0 = Ret false.

(** [addScore] rejects a value that is not a number and a negative
    number. *)
Definition rejected (v : value) : Prop :=
  match v with
  | VNumber n => n < 0
  | _ => True
  end.

(** The invariant of the data model that ties the level to the lines. *)
Definition level_inv (g : Game) : Prop := level g = lines g / 10 + 1.

(** Every cell of the row is occupied. *)
Definition occupied (row : Row) : Prop := Forall (fun v => v <> 0) row.

(** Every row of the board has [w] cells. *)
Definition rows_of_width (w : nat) (b : Board) : Prop :=
  Forall (fun row => length row = w) b.

(** [clearLines(board, L); dropLinesDown(board, L)] *)
Definition clearThenDrop (L : list nat) : M Board unit :=
  (clearLines L ;; modify (fun b => dropLinesDown b L))%monad.

(** The number of rows of [L] below row [r] on a board of [h] rows, each
    counted once. *)
Definition clearedBelow (L : list nat) (h r : nat) : nat :=
  length (filter (has L) (seq (S r) (h - S r))).

(** The number of rows of [L] on a board of [h] rows, each counted once. *)
Definition clearedCount (L : list nat) (h : nat) : nat :=
  length (filter (has L) (seq 0 h)).

(** The rows that are not in [L], in their order; [i] is the index of the
    first row of [rows]. *)
Fixpoint keptFrom (L : list nat) (i : nat) (rows : Board) : Board :=
  match rows with
  | [] => []
  | row :: rest =>
      if has L i then keptFrom L (S i) rest else row :: keptFrom L (S i) rest
  end.

(** The rows of [L] replaced by rows of zeros. *)
Fixpoint zeroed (L : list nat) (i : nat) (rows : Board) : Board :=
  match rows with
  | [] => []
  | row :: rest =>
      (if has L i then repeat 0 (length row) else row) :: zeroed L (S i) rest
  end.

(** A board of [h] rows of [w] cells that all satisfy [P]. *)
Definition wf_board (P : Z -> Prop) (w h : nat) (b : Board) : Prop :=
  length b = h /\ Forall (fun row => length row = w /\ Forall P row) b.

(** The invariant of the board: 20 rows of 10 cells, every cell in 0..7. *)
Definition board_ok (b : Board) : Prop :=
  wf_board (fun v => 0 <= v <= 7) BOARD_WIDTH BOARD_HEIGHT b.

(** The invariant of the board together with the condition on the type
    of the current piece under which the writes of [fixTetrominoToBoard]
    keep it. *)
Definition board_inv (g : Game) : Prop :=
  board_ok (board g) /\ piece_typed g.

(** [k] calls of [dropCurrentTetromino], with the same draw. *)
Fixpoint dropTimes (k : nat) (rnd : nat) (g : Game) : Game :=
  match k with
  | O => g
  | S k' => dropTimes k' rnd (exec (dropCurrentTetromino rnd) g)
  end.

(** The piece [d] rows lower. *)
Definition lowered (d : Z) (t : Tetromino) : Tetromino :=
  mkTetromino (type t) (shape t) (color t) (x t) (y t + d) (rotation t).

(** The invariant of the running game. *)
Definition game_inv (g : Game) : Prop :=
  board_ok (board g) /\ stats_ok g /\ piece_ok g.

(** A computation keeps [P] when the store satisfies [P] after it,
    whether it returned or threw. *)
Definition preserves {A} (P : Game -> Prop) (m : M Game A) : Prop :=
  forall g, P g -> P (exec m g).

(** [k] calls of [update], one every second from [t0] on, with the same
    draw of the random source. *)
Definition updates (k : nat) (t0 : Z) (rnd : nat) : list method :=
  map (fun i => Update (t0 + Z.of_nat i * 1000) rnd) (seq 0 k).

(** A game in which the host only calls [update]: the random source
    draws the I piece (index 0) and then the L piece (index 6) every
    time. *)
Definition stacking : list method :=
  [Update 0 0] ++ updates 109 1000 6.

(* ================================================================== *)
(** * checkCollision                                                  *)
(* ================================================================== *)

Lemma arr_get_Some {A} (l : list A) (i : Z) :
  0 <= i < len l -> exists a, arr_get l i = Some a /\ nth_error l (Z.to_nat i) = Some a.
Proof.
  intros Hi. unfold arr_get, len in *.
  destruct (Z.ltb_spec i 0); [lia|].
  destruct (nth_error l (Z.to_nat i)) eqn:E; [eauto|].
  apply nth_error_None in E. lia.
Qed.

Lemma grid_row_length (b : Board) (i : nat) (row : Row) :
  grid b -> nth_error b i = Some row -> len row = width b.
Proof.
  intros [_ HF] E.
  rewrite Forall_forall in HF. unfold len, width, len.
  f_equal. apply HF. eapply nth_error_In; eauto.
Qed.

Lemma collisionAt_cons (row0 : Row) (rest : Board) (X Y : Z) :
  collisionAt (row0 :: rest) X Y =
  if X <? 0 then Ret true
  else if (X >=? len row0) || (Y >=? len (row0 :: rest)) then Ret true
  else if Y >=? 0 then
    match arr_get (row0 :: rest) Y with
    | None => Throw
    | Some row => match arr_get row X with
                  | Some 0 => Ret false
                  | _ => Ret true
                  end
    end
  else Ret false.
Proof. reflexivity. Qed.

Lemma collisionAt_spec (b : Board) (X Y : Z) :
  grid b ->
  exists r, collisionAt b X Y = Ret r /\ (r = true <-> hits b X Y).
Proof.
  intros Hgrid.
  destruct b as [|row0 rest]; [destruct Hgrid; congruence|].
  rewrite collisionAt_cons.
  assert (Hw : width (row0 :: rest) = len row0) by reflexivity.
  remember (row0 :: rest) as b eqn:Eb.
  unfold hits, height. rewrite Hw.
  destruct (Z.ltb_spec X 0) as [HX|HX].
  { exists true. split; [reflexivity|]. tauto. }
  destruct (Z.geb_spec X (len row0)) as [HX2|HX2]; cbn [orb].
  { exists true. split; [reflexivity|]. split; [intros _|reflexivity].
    right; left. lia. }
  destruct (Z.geb_spec Y (len b)) as [HY|HY].
  { exists true. split; [reflexivity|]. split; [intros _|reflexivity].
    right; right; left. lia. }
  destruct (Z.geb_spec Y 0) as [HY0|HY0].
  - destruct (@arr_get_Some _ b Y) as [row [Eg En]]; [lia|].
    rewrite Eg.
    pose proof (grid_row_length b (Z.to_nat Y) row Hgrid En) as Hlen.
    rewrite Hw in Hlen.
    destruct (@arr_get_Some _ row X) as [v [Ev _]]; [lia|].
    rewrite Ev.
    assert (Hcell : cellAt b Y X = Some v) by (unfold cellAt; rewrite Eg; exact Ev).
    destruct (Z.eq_dec v 0) as [->|Hv].
    + exists false. split; [reflexivity|]. split; [discriminate|].
      intros [H|[H|[H|[_ [v' [H1 H2]]]]]]; try lia. congruence.
    + exists true. split.
      * destruct v; try reflexivity. congruence.
      * split; [intros _|reflexivity]. right; right; right. split; [lia|]. eauto.
  - exists false. split; [reflexivity|]. split; [discriminate|].
    intros [H|[H|[H|[H _]]]]; lia.
Qed.

Section Collision.

Variable b : Board.
Hypothesis Hgrid : grid b.

Lemma collisionCols_spec (x Y offsetX : Z) (cells : list Z) :
  forall col,
  exists r, collisionCols b cells col x Y offsetX = Ret r /\
    (r = true <->
     exists k v, nth_error cells k = Some v /\ v <> 0 /\
                 hits b (x + Z.of_nat (col + k) + offsetX) Y).
Proof.
  induction cells as [|v rest IH]; intros col; simpl.
  - exists false. split; [reflexivity|]. split; [discriminate|].
    intros [k [v [E _]]]. destruct k; discriminate.
  - destruct (IH (S col)) as [r [Er Hr]].
    assert (Hshift : (exists k v0, nth_error rest k = Some v0 /\ v0 <> 0 /\
                        hits b (x + Z.of_nat (S col + k) + offsetX) Y) ->
                     exists k v0, nth_error (v :: rest) k = Some v0 /\ v0 <> 0 /\
                        hits b (x + Z.of_nat (col + k) + offsetX) Y).
    { intros [k [v0 [E [Hv Hh]]]]. exists (S k), v0. simpl.
      replace (col + S k)%nat with (S col + k)%nat by lia. auto. }
    destruct (Z.eqb_spec v 0) as [->|Hv].
    + exists r. split; [exact Er|]. rewrite Hr. split; [exact Hshift|].
      intros [k [v0 [E [Hv0 Hh]]]]. destruct k as [|k]; simpl in E.
      * congruence.
      * exists k, v0. replace (S col + k)%nat with (col + S k)%nat by lia. auto.
    + destruct (collisionAt_spec b (x + Z.of_nat col + offsetX) Y Hgrid) as [r0 [E0 H0]].
      rewrite E0. destruct r0.
      * exists true. split; [reflexivity|]. split; [intros _|reflexivity].
        exists 0%nat, v. simpl. rewrite Nat.add_0_r. split; [reflexivity|].
        split; [exact Hv|]. apply H0. reflexivity.
      * exists r. split; [exact Er|]. rewrite Hr. split; [exact Hshift|].
        intros [k [v0 [E [Hv0 Hh]]]]. destruct k as [|k]; simpl in E.
        -- rewrite Nat.add_0_r in Hh. apply H0 in Hh. discriminate.
        -- exists k, v0. replace (S col + k)%nat with (col + S k)%nat by lia. auto.
Qed.

Lemma collisionRows_spec (x y offsetX offsetY : Z) (rows : Shape) :
  forall row,
  exists r, collisionRows b rows row x y offsetX offsetY = Ret r /\
    (r = true <->
     exists j c, filledAt rows j c /\
                 hits b (x + Z.of_nat c + offsetX) (y + Z.of_nat (row + j) + offsetY)).
Proof.
  induction rows as [|cells rest IH]; intros row; simpl.
  - exists false. split; [reflexivity|]. split; [discriminate|].
    intros [j [c [[cs [v [E _]]] _]]]. destruct j; discriminate.
  - destruct (IH (S row)) as [r [Er Hr]].
    destruct (collisionCols_spec x (y + Z.of_nat row + offsetY) offsetX cells 0)
      as [r0 [E0 H0]].
    rewrite E0. destruct r0.
    + exists true. split; [reflexivity|]. split; [intros _|reflexivity].
      destruct (proj1 H0 eq_refl) as [k [v [E [Hv Hh]]]].
      exists 0%nat, k. split.
      * exists cells, v. simpl. auto.
      * rewrite Nat.add_0_r. exact Hh.
    + exists r. split; [exact Er|]. rewrite Hr. split.
      * intros [j [c [[cs [v [E1 [E2 Hv]]]] Hh]]].
        exists (S j), c. split.
        -- exists cs, v. simpl. auto.
        -- replace (row + S j)%nat with (S row + j)%nat by lia. exact Hh.
      * intros [j [c [[cs [v [E1 [E2 Hv]]]] Hh]]].
        destruct j as [|j]; simpl in E1.
        -- injection E1 as <-. rewrite Nat.add_0_r in Hh.
           assert (false = true); [|discriminate].
           apply H0. exists c, v. simpl. auto.
        -- exists j, c. split.
           ++ exists cs, v. auto.
           ++ replace (S row + j)%nat with (row + S j)%nat by lia. exact Hh.
Qed.

End Collision.

(** C1. On every grid, [checkCollision] returns [true] exactly when some
    filled cell of the shape lands at a column outside [0, width), or at a
    row >= height, or, at a row >= 0, over a board cell that is not 0 (a
    cell at a row < 0 is never looked up in the board).  A null shape
    and an empty shape give [false] on every board. *)
Theorem checkCollision_spec (b : Board) (x y offsetX offsetY : Z) :
  checkCollision b None x y offsetX offsetY = Ret false /\
  checkCollision b (Some []) x y offsetX offsetY = Ret false /\
  (grid b ->
   forall s : Shape,
   exists r, checkCollision b (Some s) x y offsetX offsetY = Ret r /\
             (r = true <-> collides b s x y offsetX offsetY)).
Proof.
  split; [reflexivity|]. split; [reflexivity|].
  intros Hg s.
  destruct (collisionRows_spec b Hg x y offsetX offsetY s 0) as [r [Er Hr]].
  destruct s as [|cells rest].
  - exists false. split; [reflexivity|]. split; [discriminate|].
    intros [j [c [[cs [v [E _]]] _]]]. destruct j; discriminate.
  - exists r. split; [exact Er|]. exact Hr.
Qed.

(** Outside the grids: on a board with no row the read of
    [board[0].length] throws, unless the cell is left of column 0. *)
Lemma checkCollision_no_row :
  checkCollision [] (Some [[1]]) 0 0 0 0 = Throw /\
  checkCollision [] (Some [[1]]) (-1) 0 0 0 = Ret true.
Proof. split; reflexivity. Qed.

(** The I piece at its spawn position on the empty 10 x 20 board. *)
Lemma checkCollision_spec_witness :
  exists r,
    checkCollision (createEmptyBoard 10 20)
      (Some [[0;0;0;0]; [1;1;1;1]; [0;0;0;0]; [0;0;0;0]]) 4 0 0 0 = Ret r /\
    (r = true <->
     collides (createEmptyBoard 10 20)
       [[0;0;0;0]; [1;1;1;1]; [0;0;0;0]; [0;0;0;0]] 4 0 0 0).
Proof.
  apply (checkCollision_spec (createEmptyBoard 10 20) 4 0 0 0).
  split; [discriminate|]. simpl. repeat constructor.
Defined.

(* ================================================================== *)
(** * calculateScore                                                  *)
(* ================================================================== *)

(** C3. [calculateScore n l] is the table value of [n] (1: 100, 2: 300,
    3: 500, 4: 800) times [l] for [n] in 1..4 and [l >= 1], and 0 when
    [l <= 0], [n < 0], [n > 4] or [n = 0]; in particular
    [calculateScore 4 2 = 1600], [calculateScore 0 5 = 0] and
    [calculateScore 5 1 = 0]. *)
Theorem calculateScore_spec (n l : Z) :
  (1 <= l ->
   (n = 1 -> calculateScore n l = 100 * l) /\
   (n = 2 -> calculateScore n l = 300 * l) /\
   (n = 3 -> calculateScore n l = 500 * l) /\
   (n = 4 -> calculateScore n l = 800 * l)) /\
  (l <= 0 \/ n < 0 \/ n > 4 \/ n = 0 -> calculateScore n l = 0) /\
  calculateScore 4 2 = 1600 /\
  calculateScore 0 5 = 0 /\
  calculateScore 5 1 = 0.
Proof.
  unfold calculateScore.
  repeat split; try reflexivity.
  - intros ->. destruct (Z.leb_spec l 0); [lia|]. reflexivity.
  - intros ->. destruct (Z.leb_spec l 0); [lia|]. reflexivity.
  - intros ->. destruct (Z.leb_spec l 0); [lia|]. reflexivity.
  - intros ->. destruct (Z.leb_spec l 0); [lia|]. reflexivity.
  - intros H.
    destruct (Z.leb_spec l 0); [reflexivity|].
    destruct (Z.ltb_spec n 0); [reflexivity|].
    destruct (Z.gtb_spec n 4); [reflexivity|].
    assert (n = 0) as -> by lia. reflexivity.
Qed.

Lemma calculateScore_spec_witness :
  calculateScore 3 2 = 500 * 2 /\ calculateScore 7 2 = 0.
Proof.
  split.
  - apply (proj1 (calculateScore_spec 3 2)); [lia | reflexivity].
  - apply (proj1 (proj2 (calculateScore_spec 7 2))). lia.
Defined.

(* ================================================================== *)
(** * getDropInterval                                                 *)
(* ================================================================== *)

(** C4. At levels 3 and 4 [getDropInterval] returns 500: the test
    [level <= 5] comes before the interpolation between 800 and 500, which
    is never reached; the values 700 and 600 are not returned. *)
Theorem getDropInterval_level_3_4 :
  getDropInterval (at_level 3) = 500 /\ getDropInterval (at_level 3) <> 700 /\
  getDropInterval (at_level 4) = 500 /\ getDropInterval (at_level 4) <> 600.
Proof. repeat split; try reflexivity; discriminate. Qed.

(** The interval depends on the level only. *)
Lemma getDropInterval_level (g : Game) :
  getDropInterval g = getDropInterval (at_level (level g)).
Proof. reflexivity. Qed.

(** The rest of the curve is as the specification has it. *)
Lemma getDropInterval_curve (g : Game) :
  (level g <= 1 -> getDropInterval g = 1000) /\
  (level g = 2 -> getDropInterval g = 800) /\
  (3 <= level g <= 5 -> getDropInterval g = 500) /\
  (6 <= level g <= 9 -> getDropInterval g = 500 - (level g - 5) * 80) /\
  (10 <= level g -> getDropInterval g = 100).
Proof.
  unfold getDropInterval.
  repeat split; intros H;
    destruct (Z.leb_spec (level g) 1); try lia; try reflexivity;
    destruct (Z.eqb_spec (level g) 2); try lia; try reflexivity;
    destruct (Z.leb_spec (level g) 5); try lia; try reflexivity;
    destruct (Z.geb_spec (level g) 10); try lia; try reflexivity;
    destruct (Z.leb_spec (level g) 4); try lia; try reflexivity.
Qed.

Lemma getDropInterval_monotone (g1 g2 : Game) :
  level g1 <= level g2 -> getDropInterval g2 <= getDropInterval g1.
Proof.
  unfold getDropInterval. intros H.
  destruct (Z.leb_spec (level g1) 1), (Z.leb_spec (level g2) 1); try lia;
  destruct (Z.eqb_spec (level g1) 2), (Z.eqb_spec (level g2) 2); try lia;
  destruct (Z.leb_spec (level g1) 5), (Z.leb_spec (level g2) 5); try lia;
  destruct (Z.geb_spec (level g1) 10), (Z.geb_spec (level g2) 10); try lia;
  destruct (Z.leb_spec (level g1) 4), (Z.leb_spec (level g2) 4); try lia.
Qed.

(* ================================================================== *)
(** * togglePause and shouldDropTetromino                             *)
(* ================================================================== *)

(** C10. In every state, also when [gameOver] is set, [togglePause]
    negates [paused], returns the new value and writes no other field. *)
Theorem togglePause_spec (g : Game) :
  togglePause g =
  (Ret (negb (paused g)),
   mkGame (score g) (level g) (lines g) (gameOver g) (negb (paused g))
          (board g) (currentTetromino g) (lastDropTime g) (dropInterval g)).
Proof. reflexivity. Qed.

(** C9. [shouldDropTetromino] returns [false] and writes nothing when the
    game is paused or over, and when less than [dropInterval] has passed
    since [lastDropTime]; otherwise it returns [true] and writes
    [lastDropTime = currentTime] and nothing else. *)
Theorem shouldDropTetromino_spec (g : Game) (currentTime : Z) :
  (paused g = true \/ gameOver g = true ->
   shouldDropTetromino currentTime g = (Ret false, g)) /\
  (currentTime - lastDropTime g < dropInterval g ->
   shouldDropTetromino currentTime g = (Ret false, g)) /\
  (paused g = false -> gameOver g = false ->
   dropInterval g <= currentTime - lastDropTime g ->
   shouldDropTetromino currentTime g =
   (Ret true,
    mkGame (score g) (level g) (lines g) (gameOver g) (paused g)
           (board g) (currentTetromino g) currentTime (dropInterval g))).
Proof.
  unfold shouldDropTetromino, bind, get, ret, modify, set_lastDropTime.
  repeat split.
  - intros [H|H]; rewrite H; [reflexivity|].
    rewrite orb_true_r. reflexivity.
  - intros H. destruct (paused g || gameOver g); [reflexivity|].
    destruct (Z.ltb_spec (currentTime - lastDropTime g) (dropInterval g)); [reflexivity|lia].
  - intros Hp Ho H. rewrite Hp, Ho. cbn [orb].
    destruct (Z.ltb_spec (currentTime - lastDropTime g) (dropInterval g)); [lia|].
    cbn. rewrite ?Hp, ?Ho. reflexivity.
Qed.

Lemma shouldDropTetromino_spec_witness :
  shouldDropTetromino 1000 (set_dropInterval 500 initialState) =
  (Ret true, set_lastDropTime 1000 (set_dropInterval 500 initialState)) /\
  shouldDropTetromino 400 initialState = (Ret false, initialState) /\
  shouldDropTetromino 5000 (set_paused true initialState) =
  (Ret false, set_paused true initialState).
Proof.
  split; [|split].
  - apply (proj2 (proj2 (shouldDropTetromino_spec (set_dropInterval 500 initialState) 1000)));
      [reflexivity | reflexivity | simpl; lia].
  - apply (proj1 (proj2 (shouldDropTetromino_spec initialState 400))). simpl. lia.
  - apply (proj1 (shouldDropTetromino_spec (set_paused true initialState) 5000)).
    left. reflexivity.
Defined.

(* ================================================================== *)
(** * addScore                                                        *)
(* ================================================================== *)

Lemma addScore_accepted (g : Game) (p n : Z) :
  0 <= p -> 0 <= n ->
  addScore (VNumber p) (VNumber n) g =
  (Ret tt,
   let newLevel := (lines g + n) / 10 + 1 in
   if newLevel >? level g then
     mkGame (score g + p) newLevel (lines g + n) (gameOver g) (paused g)
            (board g) (currentTetromino g) (lastDropTime g)
            (getDropInterval (at_level newLevel))
   else
     mkGame (score g + p) (level g) (lines g + n) (gameOver g) (paused g)
            (board g) (currentTetromino g) (lastDropTime g) (dropInterval g)).
Proof.
  intros Hp Hn. unfold addScore.
  destruct (Z.ltb_spec p 0); [lia|].
  destruct (Z.ltb_spec n 0); [lia|].
  unfold bind, modify, get, ret, updateDropInterval. cbn.
  destruct ((lines g + n) / 10 + 1 >? level g); reflexivity.
Qed.

(** Without the invariant, the level is never lowered. *)
Lemma addScore_level (g : Game) (p n : Z) :
  0 <= p -> 0 <= n ->
  level (exec (addScore (VNumber p) (VNumber n)) g) =
  Z.max (level g) ((lines g + n) / 10 + 1).
Proof.
  intros Hp Hn. unfold exec. rewrite addScore_accepted by assumption. cbn.
  destruct (Z.gtb_spec ((lines g + n) / 10 + 1) (level g)); cbn; lia.
Qed.

(** A level that is ahead of the lines stays as it is. *)
Lemma addScore_level_ahead :
  level (exec (addScore (VNumber 0) (VNumber 0)) (at_level 5)) = 5.
Proof. reflexivity. Qed.

(** C7. A call with a negative or non-numeric argument writes no field.
    Otherwise, in a state of the data model (level = floor(lines/10) + 1),
    the score grows by [points], the lines by [linesCleared], the level is
    floor(lines/10) + 1 of the new lines, [dropInterval] is
    [getDropInterval] of the new state exactly when the level went up and
    is kept otherwise, and no other field is written. *)
Theorem addScore_spec (g : Game) (points linesCleared : value) :
  (rejected points \/ rejected linesCleared ->
   addScore points linesCleared g = (Ret tt, g)) /\
  (forall p n : Z,
   points = VNumber p -> linesCleared = VNumber n ->
   0 <= p -> 0 <= n -> level_inv g ->
   exists g',
     addScore points linesCleared g = (Ret tt, g') /\
     score g' = score g + p /\
     lines g' = lines g + n /\
     level g' = lines g' / 10 + 1 /\
     (level g' > level g -> dropInterval g' = getDropInterval g') /\
     (level g' <= level g -> dropInterval g' = dropInterval g) /\
     gameOver g' = gameOver g /\ paused g' = paused g /\
     board g' = board g /\ currentTetromino g' = currentTetromino g /\
     lastDropTime g' = lastDropTime g).
Proof.
  split.
  - unfold addScore, rejected.
    intros [H|H].
    + destruct points; try reflexivity.
      destruct (Z.ltb_spec n 0); [reflexivity|lia].
    + destruct points; try reflexivity.
      destruct (n <? 0); [reflexivity|].
      destruct linesCleared; try reflexivity.
      destruct (Z.ltb_spec n0 0); [reflexivity|lia].
  - intros p n -> -> Hp Hn Hinv. unfold level_inv in Hinv.
    rewrite addScore_accepted by assumption.
    eexists. split; [reflexivity|]. cbn zeta.
    assert (Hmono : lines g / 10 <= (lines g + n) / 10)
      by (apply Z.div_le_mono; lia).
    destruct (Z.gtb_spec ((lines g + n) / 10 + 1) (level g)) as [Hgt|Hle]; cbn.
    + repeat split; try reflexivity. lia.
    + repeat split; try reflexivity; lia.
Qed.

(** The tenth line: level 1 to 2, interval 1000 to 800. *)
Lemma addScore_spec_witness :
  exists g',
    addScore (VNumber 100) (VNumber 1) (set_lines 9 initialState) = (Ret tt, g') /\
    score g' = 100 /\ lines g' = 10 /\ level g' = 2 /\ dropInterval g' = 800.
Proof.
  destruct (proj2 (addScore_spec (set_lines 9 initialState) (VNumber 100) (VNumber 1))
              100 1 eq_refl eq_refl ltac:(lia) ltac:(lia) eq_refl)
    as [g' [E [Hs [Hl [Hv [Hd _]]]]]].
  exists g'. split; [exact E|].
  cbn in Hs, Hl. rewrite Hl in Hv. cbn in Hv.
  repeat split; try assumption.
  rewrite Hd; [|rewrite Hv; cbn; lia].
  unfold getDropInterval. rewrite Hv. reflexivity.
Defined.

(* ================================================================== *)
(** * spawnNewTetromino                                               *)
(* ================================================================== *)

(** On a board whose rows 0 and 1 are occupied, a cell of row 0 or 1 at a
    column that is not negative is in collision: it is past the right
    edge, or over an occupied cell. *)
Lemma collisionAt_top_rows (row0 row1 : Row) (rest : Board) (X Y : Z) :
  occupied row0 -> occupied row1 -> 0 <= X -> 0 <= Y < 2 ->
  collisionAt (row0 :: row1 :: rest) X Y = Ret true.
Proof.
  intros H0 H1 HX HY. rewrite collisionAt_cons.
  destruct (Z.ltb_spec X 0); [lia|].
  destruct (Z.geb_spec X (len row0)); [reflexivity|].
  destruct (Z.geb_spec Y (len (row0 :: row1 :: rest))); [reflexivity|].
  cbn [orb]. destruct (Z.geb_spec Y 0); [|lia].
  assert (Hrow : exists row, arr_get (row0 :: row1 :: rest) Y = Some row /\ occupied row).
  { assert (Y = 0 \/ Y = 1) as [->| ->] by lia;
      [exists row0 | exists row1]; split; (reflexivity || assumption). }
  destruct Hrow as [row [-> Hocc]].
  unfold arr_get. destruct (X <? 0); [reflexivity|].
  destruct (nth_error row (Z.to_nat X)) as [v|] eqn:E; [|reflexivity].
  apply nth_error_In in E. unfold occupied in Hocc.
  rewrite Forall_forall in Hocc. apply Hocc in E.
  destruct v; try reflexivity. congruence.
Qed.

(** Every draw gives a piece in rotation 0 at x = 4, y = 0, and on such a
    board the piece collides there. *)
Lemma spawn_collides (row0 row1 : Row) (rest : Board) (rnd : nat) :
  occupied row0 -> occupied row1 ->
  exists t, createTetromino (nth_error types rnd) = Ret t /\
            x t = 4 /\ y t = 0 /\ rotation t = 0 /\
            checkCollision (row0 :: row1 :: rest) (shape t) (x t) (y t) 0 0 = Ret true.
Proof.
  intros H0 H1.
  do 7 (destruct rnd as [|rnd];
        [eexists; split; [reflexivity|]; repeat (split; [reflexivity|]);
         cbn -[collisionAt]; rewrite collisionAt_top_rows by (assumption || lia);
         reflexivity|]).
  destruct rnd; (eexists; split; [reflexivity|]; repeat (split; [reflexivity|]);
         cbn -[collisionAt]; rewrite collisionAt_top_rows by (assumption || lia);
         reflexivity).
Qed.

(** C6. When rows 0 and 1 of the board are occupied, [spawnNewTetromino]
    finds, for every draw of the random source, the collision of the new
    piece at its spawn position (rotation 0, x = 4, y = 0), sets
    [gameOver], returns [false] and writes nothing else: the board and
    [currentTetromino] are as before. *)
Theorem spawnNewTetromino_top_occupied (g : Game) (rnd : nat)
    (row0 row1 : Row) (rest : Board) :
  board g = row0 :: row1 :: rest -> occupied row0 -> occupied row1 ->
  (exists t, createTetromino (nth_error types rnd) = Ret t /\
             x t = 4 /\ y t = 0 /\ rotation t = 0 /\
             checkCollision (board g) (shape t) 4 0 0 0 = Ret true) /\
  spawnNewTetromino rnd g =
  (Ret false,
   mkGame (score g) (level g) (lines g) true (paused g)
          (board g) (currentTetromino g) (lastDropTime g) (dropInterval g)).
Proof.
  intros Hb H0 H1.
  destruct (spawn_collides row0 row1 rest rnd H0 H1) as [t [Et [Hx [Hy [Hr Hc]]]]].
  rewrite <- Hb in Hc.
  split.
  - exists t. rewrite Hx, Hy in Hc. auto.
  - unfold spawnNewTetromino, bind, lift, get. rewrite Et, Hc. reflexivity.
Qed.

(** The test of the repository: rows 0 and 1 of a new board filled with 1,
    and the draw of the T piece. *)
Lemma spawnNewTetromino_top_occupied_witness :
  let g := set_board (repeat 1 10 :: repeat 1 10 :: repeat (repeat 0 10) 18)
                     initialState in
  gameOver (exec (spawnNewTetromino 2) g) = true /\
  board (exec (spawnNewTetromino 2) g) = board g /\
  currentTetromino (exec (spawnNewTetromino 2) g) = None.
Proof.
  intros g.
  destruct (spawnNewTetromino_top_occupied g 2 (repeat 1 10) (repeat 1 10)
              (repeat (repeat 0 10) 18) eq_refl) as [_ E].
  - unfold occupied. cbn. repeat constructor; discriminate.
  - unfold occupied. cbn. repeat constructor; discriminate.
  - unfold exec. rewrite E. repeat split.
Defined.

(* ================================================================== *)
(** * Array writes                                                    *)
(* ================================================================== *)

Lemma arr_set_length {A} (l : list A) (i : nat) (v : A) :
  (i < length l)%nat -> length (arr_set l i v) = length l.
Proof.
  revert i. induction l as [|h t IH]; intros [|i] Hi; simpl in *; try lia.
  rewrite IH by lia. reflexivity.
Qed.

Lemma arr_set_app {A} (l1 l2 : list A) (old v : A) :
  arr_set (l1 ++ old :: l2) (length l1) v = l1 ++ v :: l2.
Proof.
  induction l1 as [|h t IH]; simpl; [reflexivity|].
  rewrite IH. reflexivity.
Qed.

Lemma skipn_nth {A} (l : list A) (k : nat) (o : A) :
  nth_error l k = Some o -> skipn k l = o :: skipn (S k) l.
Proof.
  revert k. induction l as [|h t IH]; intros [|k] E; simpl in *; try discriminate.
  - congruence.
  - apply IH. assumption.
Qed.

Lemma firstn_nth {A} (l : list A) (k : nat) (o : A) :
  nth_error l k = Some o -> firstn (S k) l = firstn k l ++ [o].
Proof.
  revert k. induction l as [|h t IH]; intros [|k] E; simpl in *; try discriminate.
  - congruence.
  - f_equal. apply IH. assumption.
Qed.

Lemma firstn_length_nth {A} (l : list A) (k : nat) (o : A) :
  nth_error l k = Some o -> length (firstn k l) = k.
Proof.
  intros E. apply firstn_length_le. apply Nat.lt_le_incl.
  apply nth_error_Some. congruence.
Qed.

Lemma nth_error_arr_set {A} (l : list A) (i j : nat) (v : A) :
  (i < length l)%nat ->
  nth_error (arr_set l i v) j = if Nat.eqb j i then Some v else nth_error l j.
Proof.
  revert i j. induction l as [|h t IH]; intros [|i] [|j] Hi; simpl in *; try lia;
    try reflexivity.
  apply IH. lia.
Qed.

Lemma arr_set_twice {A} (l : list A) (i : nat) (v v' : A) :
  (i < length l)%nat -> arr_set (arr_set l i v) i v' = arr_set l i v'.
Proof.
  revert i. induction l as [|h t IH]; intros [|i] Hi; simpl in *; try lia;
    try reflexivity.
  rewrite IH by lia. reflexivity.
Qed.

(** Writing the cells of a row one after the other, from column 0 on:
    after [k] writes the first [k] cells are the new ones. *)
Lemma arr_set_next {A} (new old : list A) (k : nat) (v : A) :
  nth_error new k = Some v -> (k < length old)%nat ->
  arr_set (firstn k new ++ skipn k old) k v = firstn (S k) new ++ skipn (S k) old.
Proof.
  intros En Hk.
  destruct (nth_error old k) as [o|] eqn:Eo; [|apply nth_error_None in Eo; lia].
  rewrite (skipn_nth old k o Eo), (firstn_nth new k v En).
  pose proof (arr_set_app (firstn k new) (skipn (S k) old) o v) as H.
  rewrite (firstn_length_nth new k v En) in H. rewrite H.
  rewrite <- app_assoc. reflexivity.
Qed.

(* ================================================================== *)
(** * The row loops of clearLines and dropLinesDown                   *)
(* ================================================================== *)

Lemma setCell_row (b : Board) (r col : nat) (cells : Row) (v : Z) :
  (r < length b)%nat ->
  setCell (arr_set b r cells) r col v = arr_set b r (arr_set cells col v).
Proof.
  intros Hr. unfold setCell.
  rewrite nth_error_arr_set, Nat.eqb_refl by assumption.
  apply arr_set_twice. assumption.
Qed.

Lemma arr_set_same {A} (l : list A) (i : nat) (v : A) :
  nth_error l i = Some v -> arr_set l i v = l.
Proof.
  revert i. induction l as [|h t IH]; intros [|i] E; simpl in *; try discriminate.
  - congruence.
  - rewrite IH by assumption. reflexivity.
Qed.

Lemma arr_set_next_zero (cells : Row) (k : nat) :
  (k < length cells)%nat ->
  arr_set (repeat 0 k ++ skipn k cells) k 0 = repeat 0 (S k) ++ skipn (S k) cells.
Proof.
  intros Hk.
  destruct (nth_error cells k) as [o|] eqn:Eo; [|apply nth_error_None in Eo; lia].
  rewrite (skipn_nth cells k o Eo).
  pose proof (arr_set_app (repeat 0 k) (skipn (S k) cells) o 0) as H.
  rewrite repeat_length in H. rewrite H.
  change (repeat 0 (S k)) with (0 :: repeat 0 k).
  rewrite repeat_cons, <- app_assoc. reflexivity.
Qed.

(** The loop that zeroes row [r], after [k] of its iterations. *)
Lemma zero_loop (b : Board) (r : nat) (cells : Row) (k : nat) :
  nth_error b r = Some cells -> (k <= length cells)%nat ->
  fold_left (fun b col => setCell b r col 0) (seq 0 k) b =
  arr_set b r (repeat 0 k ++ skipn k cells).
Proof.
  intros E.
  assert (Hr : (r < length b)%nat) by (apply nth_error_Some; congruence).
  induction k as [|k IH]; intros Hk.
  - simpl. symmetry. apply arr_set_same. assumption.
  - rewrite seq_S, fold_left_app, IH by lia. simpl.
    rewrite setCell_row by assumption. f_equal.
    apply arr_set_next_zero. lia.
Qed.

Lemma zeroRow_spec (b : Board) (r : nat) (cells : Row) :
  nth_error b r = Some cells ->
  zeroRow b r = (Ret tt, arr_set b r (repeat 0 (length cells))).
Proof.
  intros E. unfold zeroRow. rewrite E.
  rewrite (zero_loop b r cells (length cells) E) by lia.
  rewrite skipn_all, app_nil_r. reflexivity.
Qed.

Lemma zeroRow_missing (b : Board) (r : nat) :
  nth_error b r = None -> zeroRow b r = (Throw, b).
Proof. intros E. unfold zeroRow. rewrite E. reflexivity. Qed.

(** The loop that copies row [readRow] over row [writeRow], two rows of
    the same length. *)
Lemma copy_loop (b : Board) (readRow writeRow : nat) (src dst : Row) (k : nat) :
  readRow <> writeRow ->
  nth_error b readRow = Some src -> nth_error b writeRow = Some dst ->
  length src = length dst -> (k <= length src)%nat ->
  fold_left (fun b col =>
               match nth_error b readRow with
               | Some src => setCell b writeRow col (nth col src 0)
               | None => b
               end) (seq 0 k) b =
  arr_set b writeRow (firstn k src ++ skipn k dst).
Proof.
  intros Hne Es Ed Hlen.
  assert (Hw : (writeRow < length b)%nat) by (apply nth_error_Some; congruence).
  induction k as [|k IH]; intros Hk.
  - simpl. symmetry. apply arr_set_same. assumption.
  - rewrite seq_S, fold_left_app, IH by lia. simpl.
    rewrite nth_error_arr_set by assumption.
    destruct (Nat.eqb_spec readRow writeRow) as [|_]; [contradiction|].
    rewrite Es. rewrite setCell_row by assumption. f_equal.
    apply arr_set_next; [|lia].
    apply nth_error_nth'. lia.
Qed.

Lemma copyRow_spec (b : Board) (readRow writeRow : nat) (src dst : Row) :
  readRow <> writeRow ->
  nth_error b readRow = Some src -> nth_error b writeRow = Some dst ->
  length src = length dst ->
  copyRow b readRow writeRow = arr_set b writeRow src.
Proof.
  intros Hne Es Ed Hlen. unfold copyRow. rewrite Es.
  rewrite (copy_loop b readRow writeRow src dst (length src)) by (assumption || lia).
  rewrite firstn_all, Hlen, skipn_all, app_nil_r. reflexivity.
Qed.

(* ================================================================== *)
(** * clearLines                                                      *)
(* ================================================================== *)

Lemma has_nil (i : nat) : has [] i = false.
Proof. reflexivity. Qed.

Lemma has_cons (l : nat) (L : list nat) (i : nat) :
  has (l :: L) i = Nat.eqb i l || has L i.
Proof. reflexivity. Qed.

Lemma has_In (L : list nat) (i : nat) : has L i = true <-> In i L.
Proof.
  unfold has. rewrite existsb_exists. split.
  - intros [x [Hin Hx]]. apply Nat.eqb_eq in Hx. subst. assumption.
  - intros Hin. exists i. split; [assumption|apply Nat.eqb_refl].
Qed.

Lemma has_not_In (L : list nat) (i : nat) : has L i = false <-> ~ In i L.
Proof.
  rewrite <- has_In. destruct (has L i); split; congruence.
Qed.

Lemma nth_error_zeroed (L : list nat) (rows : Board) :
  forall i j,
  nth_error (zeroed L i rows) j =
  option_map (fun row => if has L (i + j) then repeat 0 (length row) else row)
             (nth_error rows j).
Proof.
  induction rows as [|row rest IH]; intros i [|j]; simpl; try reflexivity.
  - rewrite Nat.add_0_r. reflexivity.
  - rewrite IH. replace (S i + j)%nat with (i + S j)%nat by lia. reflexivity.
Qed.

Lemma zeroed_length (L : list nat) (rows : Board) :
  forall i, length (zeroed L i rows) = length rows.
Proof. induction rows; intros i; simpl; [|rewrite IHrows]; reflexivity. Qed.

Lemma zeroed_width (L : list nat) (w : nat) (rows : Board) :
  rows_of_width w rows -> forall i, rows_of_width w (zeroed L i rows).
Proof.
  unfold rows_of_width.
  induction 1 as [|row rest Hrow _ IH]; intros i; simpl; constructor; auto.
  destruct (has L i); [rewrite repeat_length|]; assumption.
Qed.

Lemma keptFrom_zeroed (L : list nat) (rows : Board) :
  forall i, keptFrom L i (zeroed L i rows) = keptFrom L i rows.
Proof.
  induction rows as [|row rest IH]; intros i; simpl; [reflexivity|].
  rewrite IH. destruct (has L i); reflexivity.
Qed.

Lemma zeroed_nil (rows : Board) : forall i, zeroed [] i rows = rows.
Proof.
  induction rows as [|row rest IH]; intros i; simpl; [reflexivity|].
  rewrite IH. reflexivity.
Qed.

Lemma zeroed_cons (l : nat) (L : list nat) (b : Board) (cells : Row) :
  nth_error b l = Some cells ->
  zeroed L 0 (arr_set b l (repeat 0 (length cells))) = zeroed (l :: L) 0 b.
Proof.
  intros E.
  assert (Hl : (l < length b)%nat) by (apply nth_error_Some; congruence).
  apply nth_error_ext. intros j.
  rewrite !nth_error_zeroed, nth_error_arr_set by assumption.
  cbn [Nat.add]. rewrite has_cons.
  destruct (Nat.eqb_spec j l) as [->|Hne]; cbn [orb option_map].
  - rewrite E. cbn [option_map]. rewrite repeat_length.
    destruct (has L l); reflexivity.
  - reflexivity.
Qed.

Lemma clearLines_spec (L : list nat) :
  forall b, Forall (fun i => (i < length b)%nat) L ->
  clearLines L b = (Ret tt, zeroed L 0 b).
Proof.
  induction L as [|l L IH]; intros b HL.
  - cbn. rewrite zeroed_nil. reflexivity.
  - inversion HL as [|? ? Hl HL']; subst.
    destruct (nth_error b l) as [cells|] eqn:E; [|apply nth_error_None in E; lia].
    cbn [clearLines]. unfold bind. rewrite (zeroRow_spec b l cells E).
    rewrite IH.
    + rewrite (zeroed_cons l L b cells E). reflexivity.
    + rewrite arr_set_length by assumption. assumption.
Qed.

(* ================================================================== *)
(** * dropLinesDown                                                   *)
(* ================================================================== *)

Lemma keptFrom_app (L : list nat) (A B : Board) :
  forall i, keptFrom L i (A ++ B) = keptFrom L i A ++ keptFrom L (i + length A) B.
Proof.
  induction A as [|a A IH]; intros i; simpl.
  - rewrite Nat.add_0_r. reflexivity.
  - rewrite IH. replace (S i + length A)%nat with (i + S (length A))%nat by lia.
    destruct (has L i); reflexivity.
Qed.

Lemma keptFrom_count (L : list nat) (rows : Board) :
  forall i,
  (length (keptFrom L i rows) + length (filter (has L) (seq i (length rows))) =
   length rows)%nat.
Proof.
  induction rows as [|row rest IH]; intros i; simpl; [reflexivity|].
  specialize (IH (S i)). destruct (has L i); simpl; lia.
Qed.

Lemma keptFrom_width (L : list nat) (w : nat) (rows : Board) :
  rows_of_width w rows -> forall i, rows_of_width w (keptFrom L i rows).
Proof.
  unfold rows_of_width.
  induction 1 as [|row rest Hrow _ IH]; intros i; simpl; [constructor|].
  destruct (has L i); [apply IH|constructor; auto].
Qed.

Section DropLoop.

Variable L : list nat.
Variable w : nat.

(** The invariant of the loop of [dropLinesDown].  With [n] rows still to
    read, the board is [A ++ Mid ++ K]: [A] are these [n] rows, untouched;
    [K] are the rows kept so far, in place; [Mid] are the rows between,
    whose content no longer matters; [writeRow] is the last row of [Mid].
    The loop leaves the kept rows of [A] in front of [K]. *)
Lemma dropLoop_inv :
  forall (n : nat) (A Mid K : Board) (writeRow : Z),
  length A = n ->
  Z.of_nat (length A + length Mid) = writeRow + 1 ->
  rows_of_width w A -> rows_of_width w Mid ->
  exists Mid',
    dropLoop L n (A ++ Mid ++ K) writeRow =
      (Mid' ++ keptFrom L 0 A ++ K, Z.of_nat (length Mid') - 1) /\
    (length Mid' + length (keptFrom L 0 A) = length A + length Mid)%nat /\
    rows_of_width w Mid'.
Proof.
  induction n as [|n IH]; intros A Mid K writeRow HA Hw HwA HwM.
  - destruct A; [|discriminate]. simpl in *.
    exists Mid. split; [|split; [lia|assumption]].
    f_equal. lia.
  - destruct (exists_last (l := A)) as [A' [a EA]].
    { intros ->. discriminate. }
    subst A. rewrite length_app in HA, Hw. simpl in HA, Hw.
    assert (HA' : length A' = n) by lia.
    apply Forall_app in HwA. destruct HwA as [HwA' Hwa].
    apply Forall_inv in Hwa. rename Hwa into Ha.
    rewrite keptFrom_app. cbn [keptFrom Nat.add]. rewrite HA'.
    cbn [dropLoop].
    destruct (has L n) eqn:Ehas.
    + (* the row is cleared: it joins the rows between *)
      destruct (IH A' (a :: Mid) K writeRow HA') as [Mid' [E [Hlen HwM']]].
      * simpl. lia.
      * assumption.
      * constructor; assumption.
      * exists Mid'. rewrite <- app_assoc. cbn [app]. cbn [app] in E. rewrite E.
        rewrite app_nil_r. split; [reflexivity|]. split; [|assumption].
        simpl in Hlen. rewrite length_app. simpl. lia.
    + destruct (Z.eqb_spec writeRow (Z.of_nat n)) as [Heq|Hneq].
      * (* the row is kept and already in place *)
        assert (Mid = []) by (destruct Mid; [reflexivity|simpl in Hw; lia]).
        subst Mid.
        destruct (IH A' [] (a :: K) (writeRow - 1) HA') as [Mid' [E [Hlen HwM']]].
        -- simpl. lia.
        -- assumption.
        -- constructor.
        -- exists Mid'. rewrite <- !app_assoc. cbn [app]. cbn [app] in E. rewrite E.
           split; [reflexivity|]. split; [|assumption].
           simpl in Hlen. rewrite !length_app. simpl. lia.
      * (* the row is kept and copied down to [writeRow] *)
        destruct (exists_last (l := Mid)) as [Mid0 [m EM]].
        { intros ->. simpl in Hw. lia. }
        subst Mid. rewrite length_app in Hw. simpl in Hw.
        apply Forall_app in HwM. destruct HwM as [HwM0 Hwm].
        apply Forall_inv in Hwm. rename Hwm into Hm.
        assert (Ewr : Z.to_nat writeRow = length (A' ++ a :: Mid0)).
        { rewrite length_app. simpl. lia. }
        assert (Eboard : (A' ++ [a]) ++ (Mid0 ++ [m]) ++ K =
                         (A' ++ a :: Mid0) ++ m :: K).
        { rewrite <- !app_assoc. reflexivity. }
        rewrite Eboard, Ewr.
        rewrite (copyRow_spec _ _ _ a m).
        -- rewrite arr_set_app.
           destruct (IH A' (a :: Mid0) (a :: K) (writeRow - 1) HA')
             as [Mid' [E [Hlen HwM']]].
           ++ simpl. lia.
           ++ assumption.
           ++ constructor; assumption.
           ++ exists Mid'. rewrite <- app_assoc. cbn [app]. cbn [app] in E. rewrite E.
              rewrite <- !app_assoc. cbn [app].
              split; [reflexivity|]. split; [|assumption].
              simpl in Hlen. rewrite !length_app. simpl. lia.
        -- rewrite length_app. simpl. lia.
        -- rewrite nth_error_app1 by (rewrite length_app; simpl; lia).
           rewrite nth_error_app2 by lia.
           rewrite HA', Nat.sub_diag. reflexivity.
        -- rewrite nth_error_app2 by lia. rewrite Nat.sub_diag. reflexivity.
        -- congruence.
Qed.

(** The last loop zeroes the rows down to [writeRow]. *)
Lemma fill_loop (Mid K : Board) (k : nat) :
  rows_of_width w Mid -> (k <= length Mid)%nat ->
  fold_left (fun b row => snd (zeroRow b row)) (seq 0 k) (Mid ++ K) =
  repeat (repeat 0 w) k ++ skipn k Mid ++ K.
Proof.
  intros HwM. induction k as [|k IH]; intros Hk; [reflexivity|].
  rewrite seq_S, fold_left_app, IH by lia. cbn [fold_left Nat.add].
  destruct (nth_error Mid k) as [m|] eqn:Em; [|apply nth_error_None in Em; lia].
  rewrite (skipn_nth Mid k m Em).
  assert (Hm : length m = w).
  { unfold rows_of_width in HwM. rewrite Forall_forall in HwM.
    apply HwM. eapply nth_error_In; eauto. }
  rewrite (zeroRow_spec _ k m).
  - cbn [snd app].
    pose proof (arr_set_app (repeat (repeat 0 w) k) (skipn (S k) Mid ++ K) m
                            (repeat 0 (length m))) as H.
    rewrite repeat_length in H. etransitivity; [exact H|]. rewrite Hm.
    change (repeat (repeat 0 w) (S k)) with (repeat 0 w :: repeat (repeat 0 w) k).
    rewrite repeat_cons, <- app_assoc. reflexivity.
  - rewrite nth_error_app2 by (rewrite repeat_length; lia).
    rewrite repeat_length, Nat.sub_diag. reflexivity.
Qed.

Lemma fillTop_spec (Mid K : Board) :
  rows_of_width w Mid ->
  fillTop (Mid ++ K) (Z.of_nat (length Mid) - 1) =
  repeat (repeat 0 w) (length Mid) ++ K.
Proof.
  intros HwM. unfold fillTop.
  replace (Z.to_nat (Z.of_nat (length Mid) - 1 + 1)) with (length Mid) by lia.
  rewrite fill_loop by (assumption || lia).
  rewrite skipn_all. reflexivity.
Qed.

(** On a board of rows of the same length, [dropLinesDown] leaves the rows
    that are not in [L], in their order, under as many rows of zeros as
    there are rows of [L] on the board. *)
Lemma dropLinesDown_spec (b : Board) :
  L <> [] -> rows_of_width w b ->
  dropLinesDown b L =
  repeat (repeat 0 w) (clearedCount L (length b)) ++ keptFrom L 0 b.
Proof.
  intros HL Hw. unfold dropLinesDown.
  destruct L as [|l L'] eqn:EL; [congruence|]. rewrite <- EL.
  destruct (dropLoop_inv (length b) b [] [] (len b - 1) eq_refl) as [Mid' [E [Hlen HwM]]].
  - unfold len. simpl. lia.
  - assumption.
  - constructor.
  - simpl in E. rewrite app_nil_r in E, E. rewrite E.
    rewrite fillTop_spec by assumption.
    f_equal. f_equal. unfold clearedCount.
    pose proof (keptFrom_count L b 0). simpl in Hlen. lia.
Qed.

End DropLoop.

(* ================================================================== *)
(** * clearLines followed by dropLinesDown                            *)
(* ================================================================== *)

Lemma keptFrom_nil (rows : Board) : forall i, keptFrom [] i rows = rows.
Proof.
  induction rows as [|row rest IH]; intros i; simpl; [reflexivity|].
  rewrite IH. reflexivity.
Qed.

Lemma clearThenDrop_spec (L : list nat) (w : nat) (b : Board) :
  rows_of_width w b -> Forall (fun i => (i < length b)%nat) L ->
  clearThenDrop L b =
  (Ret tt, repeat (repeat 0 w) (clearedCount L (length b)) ++ keptFrom L 0 b).
Proof.
  intros Hw HL. unfold clearThenDrop, bind, modify.
  rewrite clearLines_spec by assumption.
  destruct L as [|l L'] eqn:EL.
  - cbn [dropLinesDown]. rewrite zeroed_nil, keptFrom_nil.
    unfold clearedCount.
    replace (filter (has []) (seq 0 (length b))) with (@nil nat); [reflexivity|].
    symmetry. induction (seq 0 (length b)); [reflexivity|assumption].
  - rewrite <- EL. rewrite (dropLinesDown_spec L w).
    + rewrite zeroed_length, keptFrom_zeroed. reflexivity.
    + congruence.
    + apply zeroed_width. assumption.
Qed.

Lemma clearedCount_split (L : list nat) (h r : nat) :
  (r < h)%nat -> has L r = false ->
  clearedCount L h =
  (length (filter (has L) (seq 0 r)) + clearedBelow L h r)%nat.
Proof.
  intros Hr Hhas. unfold clearedCount, clearedBelow.
  replace h with (r + S (h - S r))%nat at 1 by lia.
  rewrite seq_app, filter_app, length_app. cbn [seq Nat.add filter].
  rewrite Hhas. reflexivity.
Qed.

Lemma clearedBelow_step (L : list nat) (h r1 r2 : nat) :
  (r1 < r2 < h)%nat -> has L r2 = false ->
  (clearedBelow L h r1 + S r1 <= clearedBelow L h r2 + r2)%nat.
Proof.
  intros Hr Hhas. unfold clearedBelow.
  replace (h - S r1)%nat with ((r2 - S r1) + S (h - S r2))%nat by lia.
  rewrite seq_app, filter_app, length_app.
  replace (S r1 + (r2 - S r1))%nat with r2 by lia.
  cbn [seq filter]. rewrite Hhas.
  pose proof (filter_length_le (has L) (seq (S r1) (r2 - S r1))) as Hle.
  rewrite length_seq in Hle. lia.
Qed.

Lemma clearedCount_NoDup (L : list nat) (h : nat) :
  NoDup L -> Forall (fun i => (i < h)%nat) L -> clearedCount L h = length L.
Proof.
  intros Hnd HL. unfold clearedCount.
  apply Permutation_length. apply NoDup_Permutation.
  - apply NoDup_filter. apply seq_NoDup.
  - assumption.
  - intros i. rewrite filter_In, in_seq, has_In.
    rewrite Forall_forall in HL. split.
    + tauto.
    + intros Hin. specialize (HL i Hin). split; [lia|assumption].
Qed.

Lemma kept_row_position (L : list nat) (w : nat) (b : Board) (r : nat) (row : Row) :
  nth_error b r = Some row -> ~ In r L ->
  nth_error (repeat (repeat 0 w) (clearedCount L (length b)) ++ keptFrom L 0 b)
            (r + clearedBelow L (length b) r) = Some row.
Proof.
  intros E Hnot. apply has_not_In in Hnot.
  assert (Hr : (r < length b)%nat) by (apply nth_error_Some; congruence).
  rewrite (clearedCount_split L (length b) r Hr Hnot).
  rewrite <- (firstn_skipn_middle r b E) at 2.
  rewrite keptFrom_app, (firstn_length_nth b r row E). cbn [keptFrom Nat.add].
  rewrite Hnot.
  pose proof (keptFrom_count L (firstn r b) 0) as Hc.
  rewrite (firstn_length_nth b r row E) in Hc.
  rewrite app_assoc, nth_error_app2.
  - rewrite length_app, repeat_length.
    match goal with |- nth_error _ ?k = _ => replace k with 0%nat by lia end.
    reflexivity.
  - rewrite length_app, repeat_length. lia.
Qed.

(** C2 (amended). On a board of rows of the same length and for row
    indices [L] of the board, [clearLines] followed by [dropLinesDown]
    keeps the dimensions of the board; every row that is not in [L] keeps
    its cells and moves down by the number of rows of [L] below it, so the
    order of these rows is kept; the top rows, as many as there are
    distinct rows in [L], are all zero (that is [length L] rows when no row
    is listed twice); and [dropLinesDown] with no row changes nothing. *)
Theorem clearLines_dropLinesDown (b : Board) (L : list nat) (w : nat) :
  rows_of_width w b -> Forall (fun i => (i < length b)%nat) L ->
  exists b',
    clearThenDrop L b = (Ret tt, b') /\
    length b' = length b /\ rows_of_width w b' /\
    (forall r row, nth_error b r = Some row -> ~ In r L ->
       nth_error b' (r + clearedBelow L (length b) r) = Some row) /\
    (forall r1 r2, (r1 < r2 < length b)%nat -> ~ In r1 L -> ~ In r2 L ->
       (r1 + clearedBelow L (length b) r1 < r2 + clearedBelow L (length b) r2)%nat) /\
    (forall i, (i < clearedCount L (length b))%nat ->
       nth_error b' i = Some (repeat 0 w)) /\
    (NoDup L -> clearedCount L (length b) = length L) /\
    dropLinesDown b [] = b.
Proof.
  intros Hw HL. eexists. split; [apply clearThenDrop_spec; eassumption|].
  split; [|split; [|split; [|split; [|split; [|split]]]]].
  - rewrite length_app, repeat_length. unfold clearedCount.
    pose proof (keptFrom_count L b 0). unfold Board, Row in *. lia.
  - apply Forall_app. split.
    + apply Forall_forall. intros row Hin. apply repeat_spec in Hin.
      subst. apply repeat_length.
    + apply keptFrom_width. assumption.
  - intros r row E Hnot. apply kept_row_position; assumption.
  - intros r1 r2 Hr H1 H2. apply has_not_In in H2.
    pose proof (clearedBelow_step L (length b) r1 r2 Hr H2). lia.
  - intros i Hi. rewrite nth_error_app1 by (rewrite repeat_length; assumption).
    apply nth_error_repeat. assumption.
  - intros Hnd. apply clearedCount_NoDup; assumption.
  - reflexivity.
Qed.

(** Rows 17 and 19 of a board of 20 rows whose row [i] holds [i + 1] in
    every cell. *)
Lemma clearLines_dropLinesDown_witness :
  let b := map (fun i => repeat (Z.of_nat i + 1) 10) (seq 0 20) in
  exists b',
    clearThenDrop [17; 19]%nat b = (Ret tt, b') /\
    length b' = 20%nat /\
    nth_error b' 19 = Some (repeat 19 10) /\
    nth_error b' 18 = Some (repeat 17 10) /\
    nth_error b' 2 = Some (repeat 1 10) /\
    nth_error b' 0 = Some (repeat 0 10) /\
    nth_error b' 1 = Some (repeat 0 10).
Proof.
  intros b.
  destruct (clearLines_dropLinesDown b [17; 19]%nat 10)
    as [b' [E [Hlen [_ [Hrow [_ [Hzero _]]]]]]].
  - unfold rows_of_width, b. cbn. repeat constructor.
  - cbn. repeat constructor.
  - exists b'. split; [exact E|]. split; [exact Hlen|].
    split; [|split; [|split; [|split]]].
    + apply (Hrow 18%nat); [reflexivity|].
      cbn. intros [H|[H|[]]]; discriminate.
    + apply (Hrow 16%nat); [reflexivity|].
      cbn. intros [H|[H|[]]]; discriminate.
    + apply (Hrow 0%nat); [reflexivity|].
      cbn. intros [H|[H|[]]]; discriminate.
    + apply (Hzero 0%nat). cbn. lia.
    + apply (Hzero 1%nat). cbn. lia.
Defined.

(** C2 as stated fails when a row is listed twice: the set of the rows
    has one element, one row is vacated, and the second row from the top
    holds the row that moved down. *)
Lemma clearLines_dropLinesDown_counterexample :
  let b := [[5]; [7]] in
  let L := [1; 1]%nat in
  rows_of_width 1 b /\ Forall (fun i => (i < length b)%nat) L /\
  clearThenDrop L b = (Ret tt, [[0]; [5]]) /\
  ~ (forall b', clearThenDrop L b = (Ret tt, b') ->
     forall i, (i < length L)%nat -> nth_error b' i = Some (repeat 0 1)).
Proof.
  cbn zeta. split; [repeat constructor|]. split; [repeat constructor|].
  split; [reflexivity|].
  intros H. specialize (H [[0]; [5]] eq_refl 1%nat ltac:(simpl; lia)).
  discriminate.
Qed.

(* ================================================================== *)
(** * Invariants of the methods                                       *)
(* ================================================================== *)

Section Preserves.

Variable P : Game -> Prop.

Lemma preserves_ret {A} (a : A) : preserves P (ret a).
Proof. intros g H. exact H. Qed.

Lemma preserves_throw {A} : preserves P (@throw Game A).
Proof. intros g H. exact H. Qed.

Lemma preserves_lift {A} (o : outcome A) : preserves P (lift o).
Proof. intros g H. exact H. Qed.

Lemma preserves_get : preserves P get.
Proof. intros g H. exact H. Qed.

Lemma preserves_modify (f : Game -> Game) :
  (forall g, P g -> P (f g)) -> preserves P (modify f).
Proof. intros Hf g H. apply Hf. exact H. Qed.

Lemma preserves_bind {A B} (m : M Game A) (k : A -> M Game B) :
  preserves P m -> (forall a, preserves P (k a)) -> preserves P (bind m k).
Proof.
  intros Hm Hk g H. unfold exec, bind.
  specialize (Hm g H). unfold exec in Hm.
  destruct (m g) as [[a|] g']; simpl in *.
  - apply Hk. exact Hm.
  - exact Hm.
Qed.

Lemma preserves_try_catch {A} (body handler : M Game A) :
  preserves P body -> preserves P handler -> preserves P (try_catch body handler).
Proof.
  intros Hb Hh g H. unfold exec, try_catch.
  specialize (Hb g H). unfold exec in Hb.
  destruct (body g) as [[a|] g']; simpl in *.
  - exact Hb.
  - apply Hh. exact Hb.
Qed.

Lemma preserves_on_board {A} (m : M Board A) :
  (forall g, P g -> P (set_board (snd (m (board g))) g)) ->
  preserves P (on_board m).
Proof.
  intros Hm g H. unfold exec, on_board.
  specialize (Hm g H). destruct (m (board g)) as [o b]. exact Hm.
Qed.

(** What [P] has to allow for the methods of the class to keep it. *)
Hypothesis P_initial : P initialState.
Hypothesis P_score : forall v g, P g -> P (set_score v g).
Hypothesis P_gameOver : forall v g, P g -> P (set_gameOver v g).
Hypothesis P_paused : forall v g, P g -> P (set_paused v g).
Hypothesis P_currentTetromino : forall v g, P g -> P (set_currentTetromino v g).
Hypothesis P_lastDropTime : forall v g, P g -> P (set_lastDropTime v g).
Hypothesis P_dropInterval : forall v g, P g -> P (set_dropInterval v g).
Hypothesis P_lines_level :
  forall n g, 0 <= n -> P g ->
  P (let g' := set_lines (lines g + n) g in
     if lines g' / 10 + 1 >? level g' then set_level (lines g' / 10 + 1) g' else g').
Hypothesis P_validate :
  forall g, P g ->
  P (let g1 := if level g <? 1 then set_level 1 g else g in
     if lines g1 <? 0 then set_lines 0 g1 else g1).
Hypothesis P_stamp :
  forall rows x y ty g, P g ->
  P (set_board (stampRows (board g) rows 0 x y (getTetrominoColorValue ty)) g).
Hypothesis P_clearLines :
  forall L g, P g -> P (set_board (snd (clearLines L (board g))) g).
Hypothesis P_dropLinesDown :
  forall L g, P g -> P (set_board (dropLinesDown (board g) L) g).

Lemma preserves_updateDropInterval : preserves P updateDropInterval.
Proof. apply preserves_modify. intros g H. apply P_dropInterval. exact H. Qed.

Lemma preserves_addScore (points linesCleared : value) :
  preserves P (addScore points linesCleared).
Proof.
  intros g H. unfold addScore.
  destruct points as [p| | | |]; try exact H.
  destruct (p <? 0); [exact H|].
  destruct linesCleared as [n| | | |]; try exact H.
  destruct (Z.ltb_spec n 0) as [|Hn]; [exact H|].
  unfold exec, bind, modify, get, ret, updateDropInterval. cbn.
  pose proof (P_lines_level n (set_score (score g + p) g) Hn (P_score _ _ H)) as H'.
  cbn in H'.
  destruct ((lines g + n) / 10 + 1 >? level g); cbn.
  - apply (P_dropInterval _ _ H').
  - exact H'.
Qed.

Lemma preserves_setGameOver (v : bool) : preserves P (setGameOver v).
Proof. apply preserves_modify. intros g H. apply P_gameOver. exact H. Qed.

Lemma preserves_togglePause : preserves P togglePause.
Proof. intros g H. apply (P_paused (negb (paused g)) g H). Qed.

Lemma preserves_shouldDropTetromino (t : Z) : preserves P (shouldDropTetromino t).
Proof.
  intros g H. unfold exec, shouldDropTetromino, bind, get. cbv beta iota.
  destruct (paused g || gameOver g); [exact H|].
  destruct (t - lastDropTime g <? dropInterval g); [exact H|].
  apply (P_lastDropTime t g H).
Qed.

Lemma preserves_spawnNewTetromino (rnd : nat) : preserves P (spawnNewTetromino rnd).
Proof.
  unfold spawnNewTetromino.
  apply preserves_bind; [apply preserves_lift|]. intros t.
  apply preserves_bind; [apply preserves_get|]. intros g.
  apply preserves_bind; [apply preserves_lift|]. intros [|].
  - apply preserves_bind; [apply preserves_setGameOver|]. intros _.
    apply preserves_ret.
  - apply preserves_bind; [|intros _; apply preserves_ret].
    apply preserves_modify. intros g' H. apply P_currentTetromino. exact H.
Qed.

Lemma preserves_processLineClearing : preserves P processLineClearing.
Proof.
  unfold processLineClearing.
  apply preserves_bind; [apply preserves_get|]. intros g.
  destruct (len (checkFullLines (board g)) >? 0); [|apply preserves_ret].
  apply preserves_bind.
  { apply preserves_on_board. intros g' H. apply P_clearLines. exact H. }
  intros _. apply preserves_bind.
  { apply preserves_on_board. intros g' H. apply P_dropLinesDown. exact H. }
  intros _. apply preserves_bind; [apply preserves_get|]. intros g'.
  apply preserves_addScore.
Qed.

Lemma preserves_fixTetrominoToBoard (rnd : nat) :
  preserves P (fixTetrominoToBoard rnd).
Proof.
  unfold fixTetrominoToBoard.
  apply preserves_bind; [apply preserves_get|]. intros g.
  destruct (currentTetromino g) as [t|]; [|apply preserves_ret].
  destruct (shape t) as [rows|]; [|apply preserves_throw].
  apply preserves_bind.
  { apply preserves_on_board. intros g' H. apply P_stamp. exact H. }
  intros _. apply preserves_bind; [apply preserves_processLineClearing|].
  intros _. apply preserves_bind.
  { apply preserves_modify. intros g' H. apply P_currentTetromino. exact H. }
  intros _. apply preserves_bind; [apply preserves_spawnNewTetromino|].
  intros _. apply preserves_ret.
Qed.

Lemma preserves_dropCurrentTetromino (rnd : nat) :
  preserves P (dropCurrentTetromino rnd).
Proof.
  unfold dropCurrentTetromino.
  apply preserves_bind; [apply preserves_get|]. intros g.
  destruct (currentTetromino g) as [t|]; [|apply preserves_ret].
  apply preserves_bind; [apply preserves_lift|]. intros [|]; cbn [negb].
  - apply preserves_fixTetrominoToBoard.
  - apply preserves_modify. intros g' H. apply P_currentTetromino. exact H.
Qed.

Lemma preserves_validateAndFixGameState : preserves P validateAndFixGameState.
Proof.
  intros g H. unfold exec, validateAndFixGameState, bind, modify. cbn.
  pose proof (P_validate g H) as H1. cbn in H1.
  destruct (level g <? 1); cbn in *.
  - destruct (score g <? 0); cbn.
    + destruct (lines g <? 0); cbn in *.
      * apply (P_score 0 _ ) in H1. exact H1.
      * apply (P_score 0 _ ) in H1. exact H1.
    + exact H1.
  - destruct (score g <? 0); cbn.
    + destruct (lines g <? 0); cbn in *.
      * apply (P_score 0 _ ) in H1. exact H1.
      * apply (P_score 0 _ ) in H1. exact H1.
    + exact H1.
Qed.

Lemma preserves_update (t : Z) (rnd : nat) : preserves P (update t rnd).
Proof.
  unfold update. apply preserves_try_catch.
  - apply preserves_bind; [apply preserves_validateAndFixGameState|]. intros _.
    apply preserves_bind; [apply preserves_get|]. intros g.
    destruct (paused g || gameOver g); [apply preserves_ret|].
    destruct (currentTetromino g).
    + apply preserves_bind; [apply preserves_shouldDropTetromino|].
      intros [|]; [apply preserves_dropCurrentTetromino|apply preserves_ret].
    + apply preserves_bind; [apply preserves_spawnNewTetromino|].
      intros _. apply preserves_ret.
  - apply preserves_modify. intros g H. apply P_paused. exact H.
Qed.

Lemma preserves_render : preserves P render.
Proof.
  intros g H. unfold exec, render, bind, get. cbv beta iota.
  destruct (paused g); exact H.
Qed.

(** Every method of the class keeps [P]. *)
Lemma call_preserves (m : method) (g : Game) : P g -> P (call m g).
Proof.
  intros H. destruct m; cbn [call].
  - exact P_initial.
  - apply preserves_addScore. exact H.
  - apply preserves_setGameOver. exact H.
  - apply preserves_togglePause. exact H.
  - exact P_initial.
  - apply preserves_updateDropInterval. exact H.
  - apply preserves_shouldDropTetromino. exact H.
  - apply preserves_spawnNewTetromino. exact H.
  - apply preserves_fixTetrominoToBoard. exact H.
  - apply preserves_processLineClearing. exact H.
  - apply preserves_update. exact H.
  - apply preserves_dropCurrentTetromino. exact H.
  - apply preserves_validateAndFixGameState. exact H.
  - apply preserves_render. exact H.
Qed.

End Preserves.

(* ================================================================== *)
(** * The level follows the lines                                     *)
(* ================================================================== *)

(** Every method keeps the invariant [level = floor(lines / 10) + 1]. *)
Lemma level_inv_preserved (m : method) (g : Game) :
  level_inv g -> level_inv (call m g).
Proof.
  apply call_preserves; unfold level_inv; try (intros; assumption);
    try reflexivity.
  - intros n g0 Hn H. cbn.
    assert (lines g0 / 10 <= (lines g0 + n) / 10) by (apply Z.div_le_mono; lia).
    destruct (Z.gtb_spec ((lines g0 + n) / 10 + 1) (level g0)); cbn; lia.
  - intros g0 H. cbn.
    assert (Hlv : level g0 < 1 <-> lines g0 < 0).
    { rewrite H. split; intros H1.
      - destruct (Z.ltb_spec (lines g0) 0); [assumption|].
        assert (0 <= lines g0 / 10) by (apply Z.div_pos; lia). lia.
      - assert (lines g0 / 10 < 0) by (apply Z.div_lt_upper_bound; lia). lia. }
    destruct (Z.ltb_spec (level g0) 1); cbn;
      destruct (Z.ltb_spec (lines g0) 0); cbn; try lia; try reflexivity.
Qed.

(** So the invariant holds in every state the host can reach. *)
Lemma reachable_level_inv (g : Game) : reachable g -> level_inv g.
Proof.
  induction 1 as [|m g Hg IH Hm]; [reflexivity|].
  apply level_inv_preserved. exact IH.
Qed.

(* ================================================================== *)
(** * Well-formed boards                                              *)
(* ================================================================== *)

Lemma Forall_arr_set {A} (Q : A -> Prop) (l : list A) (i : nat) (v : A) :
  Forall Q l -> Q v -> Forall Q (arr_set l i v).
Proof.
  intros Hl Hv. revert i.
  induction Hl as [|h t Hh Ht IH]; intros [|i]; simpl; auto.
Qed.

Lemma keptFrom_Forall (Q : Row -> Prop) (L : list nat) (rows : Board) :
  Forall Q rows -> forall i, Forall Q (keptFrom L i rows).
Proof.
  induction 1 as [|row rest Hrow _ IH]; intros i; simpl; [constructor|].
  destruct (has L i); [apply IH|constructor; auto].
Qed.

Section WellFormed.

Variable P : Z -> Prop.
Variables w h : nat.

Lemma wf_rows_of_width (b : Board) : wf_board P w h b -> rows_of_width w b.
Proof.
  intros [_ HF]. unfold rows_of_width.
  eapply Forall_impl; [|exact HF]. intros row [H _]. exact H.
Qed.

Lemma wf_arr_set (b : Board) (r : nat) (row : Row) :
  wf_board P w h b -> (r < length b)%nat -> length row = w -> Forall P row ->
  wf_board P w h (arr_set b r row).
Proof.
  intros [Hlen HF] Hr Hrow HP. split.
  - rewrite arr_set_length by assumption. assumption.
  - apply Forall_arr_set; auto.
Qed.

Lemma wf_setCell (b : Board) (r col : nat) (v : Z) :
  wf_board P w h b -> (col < w)%nat -> P v -> wf_board P w h (setCell b r col v).
Proof.
  intros Hwf Hcol Hv. unfold setCell.
  destruct (nth_error b r) as [cells|] eqn:E; [|assumption].
  assert (Hcells : length cells = w /\ Forall P cells).
  { destruct Hwf as [_ HF]. rewrite Forall_forall in HF.
    apply HF. eapply nth_error_In; eauto. }
  destruct Hcells as [Hl HP].
  apply wf_arr_set; try assumption.
  - apply nth_error_Some. congruence.
  - rewrite arr_set_length; [assumption|lia].
  - apply Forall_arr_set; assumption.
Qed.

(** The guard of [fixTetrominoToBoard] keeps the write inside the board. *)
Lemma wf_stampCell (b : Board) (X Y v : Z) :
  wf_board P w h b -> P v -> wf_board P w h (stampCell b X Y v).
Proof.
  intros Hwf Hv. unfold stampCell.
  destruct (Z.geb_spec Y 0); [|assumption].
  destruct (Z.ltb_spec Y (len b)); [|assumption].
  destruct (Z.geb_spec X 0); [|assumption].
  destruct (Z.ltb_spec X (len (hd [] b))); [|assumption].
  cbn [andb]. apply wf_setCell; try assumption.
  destruct b as [|row0 rest]; [unfold len in *; simpl in *; lia|].
  destruct Hwf as [_ HF]. apply Forall_inv in HF. destruct HF as [Hl _].
  unfold len in *. simpl in *. lia.
Qed.

Lemma wf_stampCols (cells : list Z) (x Y v : Z) :
  P v -> forall col b, wf_board P w h b -> wf_board P w h (stampCols b cells col x Y v).
Proof.
  intros Hv. induction cells as [|c rest IH]; intros col b Hwf; simpl; [assumption|].
  apply IH. destruct (c =? 0); [assumption|]. apply wf_stampCell; assumption.
Qed.

Lemma wf_stampRows (rows : Shape) (x y v : Z) :
  P v -> forall row b, wf_board P w h b -> wf_board P w h (stampRows b rows row x y v).
Proof.
  intros Hv. induction rows as [|cells rest IH]; intros row b Hwf; simpl; [assumption|].
  apply IH. apply wf_stampCols; assumption.
Qed.

Hypothesis P_zero : P 0.

Lemma Forall_zeros (n : nat) : Forall P (repeat 0 n).
Proof. apply Forall_forall. intros v Hin. apply repeat_spec in Hin. subst. exact P_zero. Qed.

Lemma wf_zeroRow (b : Board) (r : nat) :
  wf_board P w h b -> wf_board P w h (snd (zeroRow b r)).
Proof.
  intros Hwf.
  destruct (nth_error b r) as [cells|] eqn:E.
  - rewrite (zeroRow_spec b r cells E). cbn [snd].
    assert (Hcells : length cells = w).
    { destruct Hwf as [_ HF]. rewrite Forall_forall in HF.
      apply HF. eapply nth_error_In; eauto. }
    apply wf_arr_set; try assumption.
    + apply nth_error_Some. congruence.
    + rewrite repeat_length. assumption.
    + apply Forall_zeros.
  - rewrite (zeroRow_missing b r E). assumption.
Qed.

(** [clearLines] keeps the board well formed for every list of indices,
    also when an index is not a row of the board and the call throws. *)
Lemma wf_clearLines (L : list nat) :
  forall b, wf_board P w h b -> wf_board P w h (snd (clearLines L b)).
Proof.
  induction L as [|l L IH]; intros b Hwf; [assumption|].
  cbn [clearLines]. unfold bind.
  pose proof (wf_zeroRow b l Hwf) as H1.
  destruct (zeroRow b l) as [[[]|] b1]; cbn [snd] in *.
  - apply IH. assumption.
  - assumption.
Qed.

Lemma wf_dropLinesDown (L : list nat) (b : Board) :
  wf_board P w h b -> wf_board P w h (dropLinesDown b L).
Proof.
  intros Hwf. destruct L as [|l L'] eqn:EL; [assumption|]. rewrite <- EL.
  rewrite (dropLinesDown_spec L w) by (congruence || eapply wf_rows_of_width; eauto).
  destruct Hwf as [Hlen HF]. split.
  - rewrite length_app, repeat_length. unfold clearedCount.
    pose proof (keptFrom_count L b 0). unfold Board, Row in *. lia.
  - apply Forall_app. split.
    + apply Forall_forall. intros row Hin. apply repeat_spec in Hin. subst.
      split; [apply repeat_length|apply Forall_zeros].
    + apply keptFrom_Forall. assumption.
Qed.

End WellFormed.

Lemma wf_board_weaken (P Q : Z -> Prop) (w h : nat) (b : Board) :
  (forall v, P v -> Q v) -> wf_board P w h b -> wf_board Q w h b.
Proof.
  intros HPQ [Hlen HF]. split; [assumption|].
  eapply Forall_impl; [|exact HF]. intros row [Hl HP]. split; [assumption|].
  eapply Forall_impl; [|exact HP]. exact HPQ.
Qed.

(** Every cell of a board occurs in it. *)
Lemma wf_board_cells (w h : nat) (b : Board) :
  length b = h -> rows_of_width w b ->
  wf_board (fun v => In v (concat b)) w h b.
Proof.
  intros Hlen Hw. split; [assumption|].
  apply Forall_forall. intros row Hin. split.
  - unfold rows_of_width in Hw. rewrite Forall_forall in Hw. auto.
  - apply Forall_forall. intros v Hv. apply in_concat. eauto.
Qed.

(** The colour value of a type is in 1..7, on the types for which
    [getTetrominoColorValue] is the source's function: those that are no
    key inherited from [Object.prototype]. *)
Lemma getTetrominoColorValue_range (ty : string) :
  inherited ty = false -> 1 <= getTetrominoColorValue ty <= 7.
Proof.
  intros _. unfold getTetrominoColorValue, colorMap, lookup.
  repeat (destruct (String.eqb _ ty); [cbn; lia|]). lia.
Qed.

(** The type of a piece that [spawnNewTetromino] draws is no inherited
    key. *)
Lemma createTetromino_draw_type (rnd : nat) (t : Tetromino) :
  createTetromino (nth_error types rnd) = Ret t -> inherited (type t) = false.
Proof.
  do 7 (destruct rnd as [|rnd]; [intros H; injection H as <-; reflexivity|]).
  destruct rnd; intros H; injection H as <-; reflexivity.
Qed.

Lemma initial_board_ok : board_ok (board initialState).
Proof.
  split; [reflexivity|]. cbn. repeat constructor; lia.
Qed.

(** Every draw of [spawnNewTetromino] gives a piece: the seven types are
    own keys of the catalogue, and a draw outside them reads [undefined]. *)
Lemma createTetromino_draw (rnd : nat) :
  exists t, createTetromino (nth_error types rnd) = Ret t.
Proof.
  do 7 (destruct rnd as [|rnd]; [eexists; reflexivity|]).
  destruct rnd; eexists; reflexivity.
Qed.

Lemma spawnNewTetromino_cases (g : Game) (rnd : nat) :
  exists t,
    createTetromino (nth_error types rnd) = Ret t /\
    match checkCollision (board g) (shape t) (x t) (y t) 0 0 with
    | Ret true => spawnNewTetromino rnd g = (Ret false, set_gameOver true g)
    | Ret false =>
        spawnNewTetromino rnd g = (Ret true, set_currentTetromino (Some t) g)
    | Throw => spawnNewTetromino rnd g = (Throw, g)
    end.
Proof.
  destruct (createTetromino_draw rnd) as [t Et].
  exists t. split; [exact Et|].
  unfold spawnNewTetromino, bind, lift, get. rewrite Et.
  destruct (checkCollision (board g) (shape t) (x t) (y t) 0 0) as [[|]|];
    reflexivity.
Qed.

(** A state that differs in neither the board nor the piece. *)
Lemma board_inv_frame (g g' : Game) :
  board g' = board g -> currentTetromino g' = currentTetromino g ->
  board_inv g -> board_inv g'.
Proof.
  intros Hb Hc [H1 H2]. split.
  - rewrite Hb. exact H1.
  - intros t Ht. apply H2. rewrite <- Hc. exact Ht.
Qed.

Lemma board_inv_board (b : Board) (g : Game) :
  board_ok b -> board_inv g -> board_inv (set_board b g).
Proof. intros Hb [_ H]. split; [exact Hb|exact H]. Qed.

Lemma board_inv_piece (v : option Tetromino) (g : Game) :
  (forall t, v = Some t -> inherited (type t) = false) ->
  board_inv g -> board_inv (set_currentTetromino v g).
Proof. intros Hv [H _]. split; [exact H|exact Hv]. Qed.

Lemma board_inv_initial : board_inv initialState.
Proof. split; [apply initial_board_ok|]. intros t H. discriminate H. Qed.

Lemma board_inv_addScore (points linesCleared : value) :
  preserves board_inv (addScore points linesCleared).
Proof.
  apply preserves_addScore.
  - intros v g. apply board_inv_frame; reflexivity.
  - intros v g. apply board_inv_frame; reflexivity.
  - intros n g _. cbn.
    destruct ((lines g + n) / 10 + 1 >? level g); apply board_inv_frame; reflexivity.
Qed.

Lemma board_inv_processLineClearing : preserves board_inv processLineClearing.
Proof.
  apply preserves_processLineClearing.
  - intros v g. apply board_inv_frame; reflexivity.
  - intros v g. apply board_inv_frame; reflexivity.
  - intros n g _. cbn.
    destruct ((lines g + n) / 10 + 1 >? level g); apply board_inv_frame; reflexivity.
  - intros L g H. apply board_inv_board; [|exact H].
    apply wf_clearLines; [lia|apply H].
  - intros L g H. apply board_inv_board; [|exact H].
    apply wf_dropLinesDown; [lia|apply H].
Qed.

Lemma board_inv_spawnNewTetromino (rnd : nat) :
  preserves board_inv (spawnNewTetromino rnd).
Proof.
  intros g H. destruct (spawnNewTetromino_cases g rnd) as [t [Et Hc]].
  unfold exec.
  destruct (checkCollision (board g) (shape t) (x t) (y t) 0 0) as [[|]|];
    rewrite Hc; cbn [snd].
  - revert H. apply board_inv_frame; reflexivity.
  - apply board_inv_piece; [|exact H].
    intros t' Ht. injection Ht as <-. exact (createTetromino_draw_type rnd t Et).
  - exact H.
Qed.

(** The writes of [fixTetrominoToBoard] are where the type of the piece
    matters: the value written is the colour value of that type. *)
Lemma board_inv_fixTetrominoToBoard (rnd : nat) :
  preserves board_inv (fixTetrominoToBoard rnd).
Proof.
  intros g H. unfold exec, fixTetrominoToBoard, bind at 1, get.
  destruct (currentTetromino g) as [t|] eqn:Ec; [|exact H].
  destruct (shape t) as [rows|]; [|exact H].
  set (g1 := set_board (stampRows (board g) rows 0 (x t) (y t)
                                  (getTetrominoColorValue (type t))) g).
  assert (H1 : board_inv g1).
  { apply board_inv_board; [|exact H].
    apply wf_stampRows; [|apply H].
    pose proof (getTetrominoColorValue_range (type t) (proj2 H t Ec)). lia. }
  change (board_inv (exec (processLineClearing ;;
                           modify (set_currentTetromino None) ;;
                           _ <- spawnNewTetromino rnd ;; ret tt) g1)).
  revert H1. apply preserves_bind; [apply board_inv_processLineClearing|].
  intros _. apply preserves_bind.
  { apply preserves_modify. intros g' H'. apply board_inv_piece; [|exact H'].
    intros t' Ht. discriminate Ht. }
  intros _. apply preserves_bind; [apply board_inv_spawnNewTetromino|].
  intros _. apply preserves_ret.
Qed.

Lemma board_inv_dropCurrentTetromino (rnd : nat) :
  preserves board_inv (dropCurrentTetromino rnd).
Proof.
  intros g H. unfold exec, dropCurrentTetromino, bind at 1, get.
  destruct (currentTetromino g) as [t|] eqn:Ec; [|exact H].
  unfold bind, lift.
  destruct (checkCollision (board g) (shape t) (x t) (y t + 1) 0 0) as [[|]|];
    cbn [negb].
  - apply (board_inv_fixTetrominoToBoard rnd g H).
  - apply board_inv_piece; [|exact H].
    intros t' Ht. injection Ht as <-. exact (proj2 H t Ec).
  - exact H.
Qed.

Lemma board_inv_update (t : Z) (rnd : nat) : preserves board_inv (update t rnd).
Proof.
  unfold update. apply preserves_try_catch.
  - apply preserves_bind.
    { apply preserves_validateAndFixGameState.
      - intros v g. apply board_inv_frame; reflexivity.
      - intros g. cbn. destruct (level g <? 1); cbn; destruct (lines g <? 0);
          apply board_inv_frame; reflexivity. }
    intros _. apply preserves_bind; [apply preserves_get|]. intros g.
    destruct (paused g || gameOver g); [apply preserves_ret|].
    destruct (currentTetromino g).
    + apply preserves_bind.
      { apply preserves_shouldDropTetromino.
        intros v g'. apply board_inv_frame; reflexivity. }
      intros [|]; [apply board_inv_dropCurrentTetromino|apply preserves_ret].
    + apply preserves_bind; [apply board_inv_spawnNewTetromino|].
      intros _. apply preserves_ret.
  - apply preserves_modify. intros g. apply board_inv_frame; reflexivity.
Qed.

(** C8. Every method of the class keeps the board at 20 rows of 10
    cells with values in 0..7, from every state whose current piece, when
    there is one, has a type that is no key inherited from
    [Object.prototype], and it keeps this condition on the piece.  For
    such a type, which the seven types are, the value
    [fixTetrominoToBoard] writes is in 1..7.  Its writes keep the
    dimensions: after them every cell holds the value written or a value
    the board had; after [clearLines] and after [dropLinesDown] every cell
    holds 0 or a value the board had. *)
Theorem board_invariant :
  (forall (m : method) (g : Game),
     board_ok (board g) -> piece_typed g ->
     board_ok (board (call m g)) /\ piece_typed (call m g)) /\
  (forall ty : string,
     inherited ty = false -> 1 <= getTetrominoColorValue ty <= 7) /\
  (forall (b : Board) (rows : Shape) (x y v : Z),
     board_ok b ->
     wf_board (fun c => c = v \/ In c (concat b)) BOARD_WIDTH BOARD_HEIGHT
              (stampRows b rows 0 x y v)) /\
  (forall (b : Board) (L : list nat),
     board_ok b ->
     wf_board (fun v => v = 0 \/ In v (concat b)) BOARD_WIDTH BOARD_HEIGHT
              (exec (clearLines L) b) /\
     wf_board (fun v => v = 0 \/ In v (concat b)) BOARD_WIDTH BOARD_HEIGHT
              (dropLinesDown b L)).
Proof.
  assert (Hcells : forall (b : Board) (c : Z), board_ok b ->
            wf_board (fun v => v = c \/ In v (concat b)) BOARD_WIDTH BOARD_HEIGHT b).
  { intros b c Hok.
    apply (wf_board_weaken (fun v => In v (concat b))); [auto|].
    apply wf_board_cells; [apply Hok|]. eapply wf_rows_of_width; exact Hok. }
  split; [|split; [|split]].
  - intros m g Hb Ht. change (board_inv (call m g)).
    assert (H : board_inv g) by (split; assumption).
    destruct m; cbn [call].
    + apply board_inv_initial.
    + apply board_inv_addScore. exact H.
    + revert H. apply board_inv_frame; reflexivity.
    + revert H. apply board_inv_frame; reflexivity.
    + apply board_inv_initial.
    + revert H. apply board_inv_frame; reflexivity.
    + revert H. apply preserves_shouldDropTetromino.
      intros v g'. apply board_inv_frame; reflexivity.
    + apply board_inv_spawnNewTetromino. exact H.
    + apply board_inv_fixTetrominoToBoard. exact H.
    + apply board_inv_processLineClearing. exact H.
    + apply board_inv_update. exact H.
    + apply board_inv_dropCurrentTetromino. exact H.
    + revert H. apply preserves_validateAndFixGameState.
      * intros v g'. apply board_inv_frame; reflexivity.
      * intros g'. cbn. destruct (level g' <? 1); cbn; destruct (lines g' <? 0);
          apply board_inv_frame; reflexivity.
    + revert H. apply preserves_render.
  - apply getTetrominoColorValue_range.
  - intros b rows x y v Hok. apply wf_stampRows; [left; reflexivity|].
    apply Hcells. exact Hok.
  - intros b L Hok. split.
    + apply wf_clearLines; [left; reflexivity|]. apply Hcells. exact Hok.
    + apply wf_dropLinesDown; [left; reflexivity|]. apply Hcells. exact Hok.
Qed.

(** A new game, and the board after a piece was locked at the bottom. *)
Lemma board_invariant_witness :
  board_ok (board (call (Update 0 3) initialState)) /\
  board_ok (board (call (FixTetrominoToBoard 1)
                        (set_currentTetromino
                           (Some (mkTetromino "T" (Some [[0;1;0]; [1;1;1]; [0;0;0]])
                                              "purple" 4 18 0))
                           initialState))) /\
  1 <= getTetrominoColorValue "T" <= 7.
Proof.
  split; [|split].
  - apply (proj1 board_invariant).
    + apply initial_board_ok.
    + intros t H. discriminate H.
  - apply (proj1 board_invariant).
    + apply initial_board_ok.
    + intros t H. injection H as <-. reflexivity.
  - apply (proj1 (proj2 board_invariant)). reflexivity.
Defined.

(* ================================================================== *)
(** * The game after game over                                        *)
(* ================================================================== *)

Lemma validate_frame (g : Game) :
  exists g',
    validateAndFixGameState g = (Ret tt, g') /\
    gameOver g' = gameOver g /\ paused g' = paused g /\
    board g' = board g /\ currentTetromino g' = currentTetromino g.
Proof.
  unfold validateAndFixGameState, bind, modify. cbn.
  eexists. split; [reflexivity|].
  destruct (level g <? 1); cbn; destruct (score g <? 0); cbn;
    destruct (lines g <? 0); cbn; repeat split.
Qed.

Lemma update_stopped (g : Game) (t : Z) (rnd : nat) :
  paused g || gameOver g = true ->
  update t rnd g = (Ret tt, exec validateAndFixGameState g).
Proof.
  intros Hstop. unfold update, try_catch, bind at 1, exec.
  destruct (validate_frame g) as [g' [E [Ho [Hp _]]]].
  rewrite E. cbn [snd]. unfold bind, get.
  rewrite Ho, Hp, Hstop. reflexivity.
Qed.



(** C5 (amended). Once [gameOver] is set, [update], [render] and
    [togglePause] write neither the board nor the current tetromino, and
    no exposed method but [reset] writes the board or clears [gameOver].
    [spawnNewTetromino] does not look at [gameOver]: it installs the new
    piece as the current tetromino when the piece does not collide at the
    spawn position, and leaves the current tetromino as it is otherwise. *)
Theorem gameOver_frame (g : Game) :
  gameOver g = true ->
  (forall (t : Z) (rnd : nat),
     board (call (Update t rnd) g) = board g /\
     currentTetromino (call (Update t rnd) g) = currentTetromino g /\
     gameOver (call (Update t rnd) g) = true) /\
  (board (call Render g) = board g /\
   currentTetromino (call Render g) = currentTetromino g /\
   gameOver (call Render g) = true) /\
  (board (call TogglePause g) = board g /\
   currentTetromino (call TogglePause g) = currentTetromino g /\
   gameOver (call TogglePause g) = true) /\
  (forall rnd : nat,
     board (call (SpawnNewTetromino rnd) g) = board g /\
     gameOver (call (SpawnNewTetromino rnd) g) = true /\
     exists t,
       createTetromino (nth_error types rnd) = Ret t /\
       (checkCollision (board g) (shape t) (x t) (y t) 0 0 = Ret false ->
        currentTetromino (call (SpawnNewTetromino rnd) g) = Some t) /\
       (checkCollision (board g) (shape t) (x t) (y t) 0 0 <> Ret false ->
        currentTetromino (call (SpawnNewTetromino rnd) g) = currentTetromino g)).
Proof.
  intros Hover. split; [|split; [|split]].
  - intros t rnd. cbn [call].
    assert (E : exec (update t rnd) g = exec validateAndFixGameState g).
    { unfold exec at 1.
      rewrite update_stopped by (rewrite Hover; apply orb_true_r). reflexivity. }
    rewrite E. unfold exec.
    destruct (validate_frame g) as [g' [E' [Ho [_ [Hb Hc]]]]].
    rewrite E'. cbn [snd]. rewrite Ho. auto.
  - cbn [call]. unfold exec, render, bind, get. cbv beta iota.
    destruct (paused g); cbn; auto.
  - cbn. auto.
  - intros rnd. cbn [call]. unfold exec.
    destruct (spawnNewTetromino_cases g rnd) as [t [Et Hc]].
    destruct (checkCollision (board g) (shape t) (x t) (y t) 0 0) as [[|]|] eqn:Ec;
      rewrite Hc; cbn [snd].
    + split; [reflexivity|]. split; [reflexivity|].
      exists t. split; [exact Et|]. rewrite Ec.
      split; [intros H; discriminate H|intros _; reflexivity].
    + split; [reflexivity|]. split; [exact Hover|].
      exists t. split; [exact Et|]. rewrite Ec.
      split; [intros _; reflexivity|intros H; congruence].
    + split; [reflexivity|]. split; [exact Hover|].
      exists t. split; [exact Et|]. rewrite Ec.
      split; [intros H; discriminate H|intros _; reflexivity].
Qed.

Lemma reachable_run (ms : list method) :
  forall g, reachable g -> forallb exposed ms = true -> reachable (run ms g).
Proof.
  induction ms as [|m ms IH]; intros g Hg Hms; [exact Hg|].
  cbn in Hms. apply andb_true_iff in Hms. destruct Hms as [Hm Hms].
  cbn [run]. apply IH; [|exact Hms]. apply reachable_call; assumption.
Qed.

(** The game over of the game [stacking], and the O piece (index 1)
    spawned after it. *)
Lemma gameOver_frame_witness :
  let g := run stacking initialState in
  board (call (Update 200000 0) g) = board g /\
  currentTetromino (call (Update 200000 0) g) = None /\
  exists t,
    createTetromino (Some "O") = Ret t /\
    currentTetromino (call (SpawnNewTetromino 1) g) = Some t.
Proof.
  intros g.
  assert (Hover : gameOver g = true) by (vm_compute; reflexivity).
  destruct (gameOver_frame g Hover) as [Hu [_ [_ Hs]]].
  destruct (Hu 200000 0%nat) as [Hb [Hc _]].
  destruct (Hs 1%nat) as [_ [_ [t [Et [Hfree _]]]]].
  split; [exact Hb|]. split; [rewrite Hc; vm_compute; reflexivity|].
  exists t. split; [exact Et|]. apply Hfree.
  vm_compute in Et. injection Et as <-. vm_compute. reflexivity.
Defined.

(** C5 as stated fails for [spawnNewTetromino].  The game [stacking] is
    over: an L piece lies on row 1 and the last L piece drawn collided.
    The host can reach this state by calls of [update] alone, and a call
    of [spawnNewTetromino] that draws the O piece then installs it. *)
Lemma gameOver_terminal_counterexample :
  let g := run stacking initialState in
  reachable g /\ gameOver g = true /\ currentTetromino g = None /\
  exposed (SpawnNewTetromino 1) = true /\
  currentTetromino (call (SpawnNewTetromino 1) g) =
    Some (mkTetromino "O" (Some [[1; 1]; [1; 1]]) "yellow" 4 0 0) /\
  currentTetromino (call (SpawnNewTetromino 1) g) <> currentTetromino g.
Proof.
  intros g.
  assert (Hg : currentTetromino g = None) by (vm_compute; reflexivity).
  assert (Hs : currentTetromino (call (SpawnNewTetromino 1) g) =
               Some (mkTetromino "O" (Some [[1; 1]; [1; 1]]) "yellow" 4 0 0))
    by (vm_compute; reflexivity).
  split.
  { apply reachable_run; [apply reachable_new|]. vm_compute. reflexivity. }
  split; [vm_compute; reflexivity|].
  split; [exact Hg|].
  split; [reflexivity|].
  split; [exact Hs|].
  rewrite Hs, Hg. discriminate.
Qed.

(* ================================================================== *)
(** * checkFullLines and createEmptyBoard                             *)
(* ================================================================== *)

Lemma isFull_occupied (cells : Row) : isFull cells = true <-> occupied cells.
Proof.
  unfold occupied. induction cells as [|v rest IH]; simpl.
  - split; [constructor|reflexivity].
  - destruct (Z.eqb_spec v 0) as [->|Hv].
    + split; [discriminate|]. intros H. apply Forall_inv in H. congruence.
    + rewrite IH. split.
      * intros H. constructor; assumption.
      * intros H. inversion H. assumption.
Qed.

Lemma fullLinesFrom_In (rows : Board) :
  forall i0 i,
  In i (fullLinesFrom rows i0) <->
  (i0 <= i)%nat /\ exists row, nth_error rows (i - i0) = Some row /\ occupied row.
Proof.
  induction rows as [|cells rest IH]; intros i0 i; simpl.
  - split; [contradiction|]. intros [_ [row [E _]]].
    destruct (i - i0)%nat; discriminate.
  - assert (Hrest : In i (fullLinesFrom rest (S i0)) <->
                    (i0 < i)%nat /\ exists row,
                      nth_error (cells :: rest) (i - i0) = Some row /\ occupied row).
    { rewrite IH. split.
      - intros [Hle [row [E Ho]]]. split; [lia|]. exists row.
        replace (i - i0)%nat with (S (i - S i0)) by lia. auto.
      - intros [Hlt [row [E Ho]]]. split; [lia|]. exists row.
        replace (i - i0)%nat with (S (i - S i0)) in E by lia. auto. }
    destruct (isFull cells) eqn:Efull.
    + simpl. rewrite Hrest. split.
      * intros [<-|[Hlt H]]; [|split; [lia|exact H]].
        split; [lia|]. exists cells. rewrite Nat.sub_diag. split; [reflexivity|].
        apply isFull_occupied. assumption.
      * intros [Hle H]. destruct (Nat.eq_dec i0 i); [left; assumption|].
        right. split; [lia|exact H].
    + rewrite Hrest. split.
      * intros [Hlt H]. split; [lia|exact H].
      * intros [Hle [row [E Ho]]]. split; [|eauto].
        destruct (Nat.eq_dec i0 i) as [->|]; [|lia].
        rewrite Nat.sub_diag in E. simpl in E. injection E as <-.
        apply isFull_occupied in Ho. congruence.
Qed.

Lemma fullLinesFrom_sorted (rows : Board) :
  forall i0, StronglySorted lt (fullLinesFrom rows i0).
Proof.
  induction rows as [|cells rest IH]; intros i0; simpl; [constructor|].
  destruct (isFull cells); [|apply IH].
  constructor; [apply IH|].
  apply Forall_forall. intros i Hin. apply fullLinesFrom_In in Hin. lia.
Qed.

Lemma checkFullLines_valid (b : Board) :
  Forall (fun i => (i < length b)%nat) (checkFullLines b).
Proof.
  apply Forall_forall. intros i Hin. apply fullLinesFrom_In in Hin.
  destruct Hin as [_ [row [E _]]]. rewrite Nat.sub_0_r in E.
  apply nth_error_Some. congruence.
Qed.

(** X1. [checkFullLines] returns, in ascending order and once each, the
    indices of the rows of the board that hold no zero. *)
Theorem checkFullLines_spec (b : Board) :
  (forall i, In i (checkFullLines b) <->
             exists row, nth_error b i = Some row /\ occupied row) /\
  StronglySorted lt (checkFullLines b) /\
  NoDup (checkFullLines b) /\
  Forall (fun i => (i < length b)%nat) (checkFullLines b).
Proof.
  split; [|split; [|split]].
  - intros i. unfold checkFullLines. rewrite fullLinesFrom_In, Nat.sub_0_r.
    split; [intros [_ H]; exact H|intros H; split; [lia|exact H]].
  - apply fullLinesFrom_sorted.
  - pose proof (fullLinesFrom_sorted b 0) as Hs. unfold checkFullLines.
    induction Hs as [|i l Hs IH Hall]; constructor; [|assumption].
    intros Hin. rewrite Forall_forall in Hall. specialize (Hall i Hin). lia.
  - apply checkFullLines_valid.
Qed.

Lemma fullLinesFrom_zero_rows (w n : nat) :
  (0 < w)%nat -> forall i0, fullLinesFrom (repeat (repeat 0 w) n) i0 = [].
Proof.
  intros Hw. induction n as [|n IH]; intros i0; simpl; [reflexivity|].
  destruct w; [lia|]. simpl. apply IH.
Qed.

Lemma fullLinesFrom_empty_rows (n : nat) :
  forall i0, fullLinesFrom (repeat [] n) i0 = seq i0 n.
Proof.
  induction n as [|n IH]; intros i0; simpl; [reflexivity|].
  rewrite IH. reflexivity.
Qed.

(** X2. [createEmptyBoard(width, height)] has [height] rows of [width]
    zeros.  It has no full line when [width > 0]; with [width = 0] every
    row counts as full, since a row with no cell holds no zero. *)
Theorem createEmptyBoard_spec (w h : nat) :
  wf_board (fun v => v = 0) w h (createEmptyBoard w h) /\
  ((0 < w)%nat -> checkFullLines (createEmptyBoard w h) = []) /\
  checkFullLines (createEmptyBoard 0 h) = seq 0 h.
Proof.
  unfold createEmptyBoard. split; [|split].
  - split; [apply repeat_length|].
    apply Forall_forall. intros row Hin. apply repeat_spec in Hin. subst.
    split; [apply repeat_length|].
    apply Forall_forall. intros v Hv. apply repeat_spec in Hv. assumption.
  - intros Hw. apply fullLinesFrom_zero_rows. assumption.
  - apply fullLinesFrom_empty_rows.
Qed.

Lemma createEmptyBoard_spec_witness :
  checkFullLines (createEmptyBoard 10 20) = [].
Proof.
  apply (proj1 (proj2 (createEmptyBoard_spec 10 20))). lia.
Defined.

(* ================================================================== *)
(** * clearLines and dropLinesDown on their own                       *)
(* ================================================================== *)

Lemma clearLines_app (L1 L2 : list nat) (b : Board) :
  clearLines (L1 ++ L2) b =
  match clearLines L1 b with
  | (Ret _, b1) => clearLines L2 b1
  | (Throw, b1) => (Throw, b1)
  end.
Proof.
  revert b. induction L1 as [|l L1 IH]; intros b; [reflexivity|].
  cbn [app clearLines]. unfold bind.
  destruct (zeroRow b l) as [[[]|] b1]; [apply IH|reflexivity].
Qed.

(** X3. [clearLines] zeroes the listed rows and leaves the others, when
    every index is a row of the board.  At the first index that is not,
    it throws: the rows listed before it are zeroed already, the rows
    listed after it are not touched. *)
Theorem clearLines_behaviour (b : Board) (L1 : list nat) :
  Forall (fun i => (i < length b)%nat) L1 ->
  clearLines L1 b = (Ret tt, zeroed L1 0 b) /\
  (forall i row, nth_error b i = Some row ->
     nth_error (zeroed L1 0 b) i =
     Some (if has L1 i then repeat 0 (length row) else row)) /\
  (forall bad L2, (length b <= bad)%nat ->
     clearLines (L1 ++ bad :: L2) b = (Throw, zeroed L1 0 b)).
Proof.
  intros HL. split; [apply clearLines_spec; assumption|]. split.
  - intros i row E. rewrite nth_error_zeroed, E. reflexivity.
  - intros bad L2 Hbad. rewrite clearLines_app, clearLines_spec by assumption.
    cbn [clearLines]. unfold bind.
    rewrite zeroRow_missing; [reflexivity|].
    apply nth_error_None. rewrite zeroed_length. assumption.
Qed.

Lemma clearLines_behaviour_witness :
  clearLines [1; 5; 0]%nat [[1; 2]; [3; 4]] = (Throw, [[1; 2]; [0; 0]]).
Proof.
  apply (proj2 (proj2 (clearLines_behaviour [[1; 2]; [3; 4]] [1%nat]
                         ltac:(repeat constructor))) 5%nat [0%nat]).
  simpl. lia.
Defined.

Lemma filter_has_nil (l : list nat) : filter (has []) l = [].
Proof. induction l; [reflexivity|assumption]. Qed.

(** X4. On a board of rows of the same length [dropLinesDown] removes the
    listed rows, whatever they hold, and puts as many rows of zeros on
    top; an index that is not a row of the board is ignored.  So a call
    of [clearLines] before it changes nothing in the result. *)
Theorem dropLinesDown_alone (b : Board) (L : list nat) (w : nat) :
  rows_of_width w b ->
  dropLinesDown b L =
    repeat (repeat 0 w) (clearedCount L (length b)) ++ keptFrom L 0 b /\
  (Forall (fun i => (i < length b)%nat) L ->
   clearThenDrop L b = (Ret tt, dropLinesDown b L)).
Proof.
  intros Hw.
  assert (E : dropLinesDown b L =
              repeat (repeat 0 w) (clearedCount L (length b)) ++ keptFrom L 0 b).
  { destruct L as [|l L'] eqn:EL.
    - cbn [dropLinesDown]. unfold clearedCount.
      rewrite filter_has_nil, keptFrom_nil. reflexivity.
    - rewrite <- EL. apply dropLinesDown_spec; [congruence|assumption]. }
  split; [exact E|].
  intros HL. rewrite E. apply clearThenDrop_spec; assumption.
Qed.

Lemma dropLinesDown_alone_witness :
  dropLinesDown [[1; 1]; [2; 0]; [3; 3]] [2; 7]%nat = [[0; 0]; [1; 1]; [2; 0]].
Proof.
  apply (proj1 (dropLinesDown_alone [[1; 1]; [2; 0]; [3; 3]] [2; 7]%nat 2
                  ltac:(repeat constructor))).
Defined.

(* ================================================================== *)
(** * More on checkCollision                                          *)
(* ================================================================== *)

Lemma collisionCols_offset (b : Board) (cells : list Z) (x Y offsetX : Z) :
  forall col,
  collisionCols b cells col x Y offsetX = collisionCols b cells col (x + offsetX) Y 0.
Proof.
  induction cells as [|v rest IH]; intros col; simpl; [reflexivity|].
  rewrite IH.
  replace (x + offsetX + Z.of_nat col + 0) with (x + Z.of_nat col + offsetX) by lia.
  reflexivity.
Qed.

Lemma collisionRows_offset (b : Board) (rows : Shape) (x y offsetX offsetY : Z) :
  forall row,
  collisionRows b rows row x y offsetX offsetY =
  collisionRows b rows row (x + offsetX) (y + offsetY) 0 0.
Proof.
  induction rows as [|cells rest IH]; intros row; simpl; [reflexivity|].
  rewrite IH, collisionCols_offset.
  replace (y + offsetY + Z.of_nat row + 0) with (y + Z.of_nat row + offsetY) by lia.
  replace (x + offsetX + 0) with (x + offsetX) by lia.
  reflexivity.
Qed.

(** X5. The offsets of [checkCollision] are added to the position: a
    test with offsets is the test at the shifted position. *)
Theorem checkCollision_offsets (b : Board) (s : option Shape)
    (x y offsetX offsetY : Z) :
  checkCollision b s x y offsetX offsetY =
  checkCollision b s (x + offsetX) (y + offsetY) 0 0.
Proof.
  destruct s as [[|cells rest]|]; try reflexivity.
  unfold checkCollision. apply collisionRows_offset.
Qed.

Lemma collisionAt_returns (row0 : Row) (rest : Board) (X Y : Z) :
  exists r, collisionAt (row0 :: rest) X Y = Ret r.
Proof.
  rewrite collisionAt_cons.
  destruct (X <? 0); [eauto|].
  destruct ((X >=? len row0) || (Y >=? len (row0 :: rest))) eqn:E; [eauto|].
  apply orb_false_iff in E. destruct E as [_ E].
  destruct (Z.geb_spec Y 0); [|eauto].
  destruct (Z.geb_spec Y (len (row0 :: rest))); [discriminate|].
  destruct (arr_get_Some (row0 :: rest) Y) as [row [-> _]]; [lia|].
  destruct (arr_get row X) as [[| |]|]; eauto.
Qed.

Lemma collisionCols_returns (row0 : Row) (rest : Board) (cells : list Z)
    (x Y offsetX : Z) :
  forall col, exists r, collisionCols (row0 :: rest) cells col x Y offsetX = Ret r.
Proof.
  induction cells as [|v tl IH]; intros col; simpl; [eauto|].
  destruct (v =? 0); [apply IH|].
  destruct (collisionAt_returns row0 rest (x + Z.of_nat col + offsetX) Y) as [[|] ->];
    [eauto|apply IH].
Qed.

Lemma collisionRows_returns (row0 : Row) (rest : Board) (rows : Shape)
    (x y offsetX offsetY : Z) :
  forall row,
  exists r, collisionRows (row0 :: rest) rows row x y offsetX offsetY = Ret r.
Proof.
  induction rows as [|cells tl IH]; intros row; simpl; [eauto|].
  destruct (collisionCols_returns row0 rest cells x (y + Z.of_nat row + offsetY)
              offsetX 0) as [[|] ->]; [eauto|apply IH].
Qed.

Lemma checkCollision_returns (b : Board) (s : option Shape) (x y offsetX offsetY : Z) :
  b <> [] -> exists r, checkCollision b s x y offsetX offsetY = Ret r.
Proof.
  intros Hb. destruct b as [|row0 rest]; [congruence|].
  destruct s as [[|cells tl]|]; try (eexists; reflexivity).
  apply collisionRows_returns.
Qed.

Lemma collisionCols_no_row (cells : list Z) (x Y offsetX : Z) :
  forall col,
  (forall k v, nth_error cells k = Some v -> v <> 0 ->
               0 <= x + Z.of_nat (col + k) + offsetX) ->
  collisionCols [] cells col x Y offsetX =
  if forallb (fun v => v =? 0) cells then Ret false else Throw.
Proof.
  induction cells as [|v tl IH]; intros col H; simpl; [reflexivity|].
  destruct (Z.eqb_spec v 0) as [->|Hv]; simpl.
  - apply IH. intros k v' E Hv'.
    replace (S col + k)%nat with (col + S k)%nat by lia. apply (H (S k) v'); assumption.
  - specialize (H 0%nat v eq_refl Hv). rewrite Nat.add_0_r in H.
    unfold collisionAt. destruct (Z.ltb_spec (x + Z.of_nat col + offsetX) 0); [lia|].
    reflexivity.
Qed.

Lemma collisionRows_no_row (rows : Shape) (x y offsetX offsetY : Z) :
  forall row,
  (forall r c, filledAt rows r c -> 0 <= x + Z.of_nat c + offsetX) ->
  collisionRows [] rows row x y offsetX offsetY =
  if forallb (forallb (fun v => v =? 0)) rows then Ret false else Throw.
Proof.
  induction rows as [|cells tl IH]; intros row H; simpl; [reflexivity|].
  rewrite collisionCols_no_row.
  - destruct (forallb (fun v => v =? 0) cells); simpl; [|reflexivity].
    apply IH. intros r c [cs [v [E1 [E2 Hv]]]]. apply (H (S r) c).
    exists cs, v. auto.
  - intros k v E Hv. apply (H 0%nat k). exists cells, v. auto.
Qed.

Lemma forallb_zero_filled (rows : Shape) :
  forallb (forallb (fun v => v =? 0)) rows = false <-> exists r c, filledAt rows r c.
Proof.
  split.
  - intros H. induction rows as [|cells tl IH]; simpl in H; [discriminate|].
    destruct (forallb (fun v => v =? 0) cells) eqn:E; simpl in H.
    + destruct (IH H) as [r [c [cs [v [E1 H1]]]]].
      exists (S r), c, cs, v. auto.
    + clear IH H. exists 0%nat.
      induction cells as [|v cs IHc]; simpl in E; [discriminate|].
      destruct (Z.eqb_spec v 0) as [->|Hv]; simpl in E.
      * destruct (IHc E) as [c [cs' [v' [E1 [E2 Hv']]]]].
        simpl in E1. injection E1 as <-.
        exists (S c), (0 :: cs), v'. simpl. auto.
      * exists 0%nat, (v :: cs), v. simpl. auto.
  - intros [r [c [cs [v [E1 [E2 Hv]]]]]].
    destruct (forallb (forallb (fun v => v =? 0)) rows) eqn:E; [|reflexivity].
    rewrite forallb_forall in E.
    specialize (E cs (nth_error_In _ _ E1)). rewrite forallb_forall in E.
    specialize (E v (nth_error_In _ _ E2)). apply Z.eqb_eq in E. congruence.
Qed.

(** X6. [checkCollision] throws only on a board with no row: on a board
    with at least one row, whatever the lengths of its rows, it returns.
    On the board with no row it throws for every shape that has a filled
    cell and whose filled cells are at columns that are not negative. *)
Theorem checkCollision_throws (b : Board) (s : Shape) (x y offsetX offsetY : Z) :
  (b <> [] -> exists r, checkCollision b (Some s) x y offsetX offsetY = Ret r) /\
  ((exists r c, filledAt s r c) ->
   (forall r c, filledAt s r c -> 0 <= x + Z.of_nat c + offsetX) ->
   checkCollision [] (Some s) x y offsetX offsetY = Throw).
Proof.
  split; [apply checkCollision_returns|].
  intros Hex Hcols. apply forallb_zero_filled in Hex.
  destruct s as [|cells tl]; [discriminate|].
  unfold checkCollision. rewrite collisionRows_no_row by assumption.
  rewrite Hex. reflexivity.
Qed.

Lemma checkCollision_throws_witness :
  (exists r, checkCollision [[]; [1]] (Some [[1; 1]]) 0 1 0 0 = Ret r) /\
  checkCollision [] (Some [[0; 7]]) 3 0 0 0 = Throw.
Proof.
  split.
  - apply (proj1 (checkCollision_throws [[]; [1]] [[1; 1]] 0 1 0 0)).
    discriminate.
  - apply (proj2 (checkCollision_throws [] [[0; 7]] 3 0 0 0)).
    + exists 0%nat, 1%nat, [0; 7], 7. repeat split; discriminate.
    + intros r c _. lia.
Defined.

(* ================================================================== *)
(** * processLineClearing                                             *)
(* ================================================================== *)

Lemma calculateScore_nonneg (n l : Z) : 0 <= calculateScore n l.
Proof.
  unfold calculateScore.
  destruct (Z.leb_spec l 0); [cbn; lia|].
  destruct (Z.ltb_spec n 0); [cbn; lia|].
  destruct (Z.gtb_spec n 4); [cbn; lia|]. cbn [orb].
  assert (n = 0 \/ n = 1 \/ n = 2 \/ n = 3 \/ n = 4) as [->|[->|[->|[->| ->]]]] by lia;
    cbn [baseScores]; lia.
Qed.

(** The state after [processLineClearing], in one equation. *)
Lemma processLineClearing_eq (g : Game) :
  processLineClearing g =
  let L := checkFullLines (board g) in
  if len L >? 0 then
    addScore (VNumber (calculateScore (len L) (level g))) (VNumber (len L))
             (set_board (dropLinesDown (zeroed L 0 (board g)) L) g)
  else (Ret tt, g).
Proof.
  unfold processLineClearing, bind at 1, get. cbv zeta.
  destruct (len (checkFullLines (board g)) >? 0); [|reflexivity].
  unfold bind at 1, on_board.
  rewrite (clearLines_spec _ _ (checkFullLines_valid (board g))).
  cbn. reflexivity.
Qed.

Lemma has_checkFullLines (b : Board) (i : nat) (row : Row) :
  nth_error b i = Some row -> has (checkFullLines b) i = isFull row.
Proof.
  intros E. destruct (isFull row) eqn:Ef.
  - apply has_In. apply fullLinesFrom_In. split; [lia|].
    exists row. rewrite Nat.sub_0_r. split; [assumption|].
    apply isFull_occupied. assumption.
  - apply has_not_In. intros Hin. apply fullLinesFrom_In in Hin.
    destruct Hin as [_ [row' [E' Ho]]]. rewrite Nat.sub_0_r in E'.
    apply isFull_occupied in Ho. congruence.
Qed.

Lemma keptFrom_not_full (L : list nat) (rows : Board) :
  forall i,
  (forall j row, nth_error rows j = Some row -> has L (i + j) = isFull row) ->
  Forall (fun row => isFull row = false) (keptFrom L i rows).
Proof.
  induction rows as [|row rest IH]; intros i H; simpl; [constructor|].
  assert (Hrest : Forall (fun row => isFull row = false) (keptFrom L (S i) rest)).
  { apply IH. intros j r E. replace (S i + j)%nat with (i + S j)%nat by lia.
    apply H. exact E. }
  pose proof (H 0%nat row eq_refl) as H0. rewrite Nat.add_0_r in H0.
  destruct (has L i); [assumption|]. constructor; auto.
Qed.

Lemma fullLinesFrom_none (rows : Board) :
  Forall (fun row => isFull row = false) rows ->
  forall i0, fullLinesFrom rows i0 = [].
Proof.
  induction 1 as [|row rest Hrow _ IH]; intros i0; simpl; [reflexivity|].
  rewrite Hrow. apply IH.
Qed.

Lemma countRow_zeros (n : nat) : countRow (repeat 0 n) = 0.
Proof. induction n as [|n IH]; simpl; [reflexivity|]. rewrite IH. reflexivity. Qed.

Lemma countFilledBlocks_app (b1 b2 : Board) :
  countFilledBlocks (b1 ++ b2) = countFilledBlocks b1 + countFilledBlocks b2.
Proof. induction b1 as [|r b1 IH]; simpl; [reflexivity|]. rewrite IH. lia. Qed.

Lemma countFilledBlocks_zeros (w n : nat) :
  countFilledBlocks (repeat (repeat 0 w) n) = 0.
Proof.
  induction n as [|n IH]; simpl; [reflexivity|].
  rewrite IH, countRow_zeros. reflexivity.
Qed.

Lemma countRow_full (row : Row) : isFull row = true -> countRow row = len row.
Proof.
  unfold len. induction row as [|v rest IH]; simpl; [reflexivity|].
  destruct (v =? 0); [discriminate|]. intros H. rewrite (IH H). lia.
Qed.

Lemma checkFullLines_nodup (b : Board) : NoDup (checkFullLines b).
Proof.
  pose proof (fullLinesFrom_sorted b 0) as Hs. unfold checkFullLines.
  induction Hs as [|i l Hs IH Hall]; constructor; [|assumption].
  intros Hin. rewrite Forall_forall in Hall. specialize (Hall i Hin). lia.
Qed.

Lemma dropLinesDown_any (b : Board) (L : list nat) (w : nat) :
  rows_of_width w b ->
  dropLinesDown b L =
  repeat (repeat 0 w) (clearedCount L (length b)) ++ keptFrom L 0 b.
Proof.
  intros Hw. destruct L as [|l L'] eqn:EL.
  - cbn [dropLinesDown]. unfold clearedCount.
    rewrite filter_has_nil, keptFrom_nil. reflexivity.
  - rewrite <- EL. apply dropLinesDown_spec; [congruence|assumption].
Qed.

(** The blocks of a board: those of the rows that stay, and one per cell
    of each full row. *)
Lemma countFilledBlocks_kept (w : nat) (rows : Board) :
  rows_of_width w rows ->
  forall i0,
  countFilledBlocks rows =
  countFilledBlocks (keptFrom (fullLinesFrom rows i0) i0 rows)
  + len (fullLinesFrom rows i0) * Z.of_nat w.
Proof.
  assert (Hshift : forall (rest : Board) L i0 i,
            (i < S i0)%nat ->
            keptFrom (i :: L) (S i0) rest = keptFrom L (S i0) rest).
  { induction rest as [|r rest IH]; intros L i0 i Hi; cbn [keptFrom]; [reflexivity|].
    rewrite IH by lia. rewrite has_cons.
    destruct (Nat.eqb_spec (S i0) i); [lia|]. reflexivity. }
  induction 1 as [|row rest Hrow _ IH]; intros i0;
    cbn [keptFrom fullLinesFrom countFilledBlocks]; [reflexivity|].
  destruct (isFull row) eqn:Ef.
  - cbn [keptFrom]. rewrite has_cons, Nat.eqb_refl. cbn [orb].
    rewrite Hshift by lia. rewrite (IH (S i0)), (countRow_full row Ef).
    unfold len. simpl length. rewrite Hrow. lia.
  - assert (Hnot : has (fullLinesFrom rest (S i0)) i0 = false).
    { apply has_not_In. intros Hin. apply fullLinesFrom_In in Hin. lia. }
    rewrite Hnot. cbn [countFilledBlocks]. rewrite (IH (S i0)). lia.
Qed.

(** X7. On a board of rows of the same length, with at least one
    column, [processLineClearing] returns, keeps the dimensions of the
    board, leaves no full line, puts one row of zeros on top for each
    full line and removes one block per cell of each full line. *)
Theorem processLineClearing_board (g : Game) (w : nat) :
  rows_of_width w (board g) -> (0 < w)%nat ->
  exists g',
    processLineClearing g = (Ret tt, g') /\
    board g' = repeat (repeat 0 w) (length (checkFullLines (board g)))
               ++ keptFrom (checkFullLines (board g)) 0 (board g) /\
    length (board g') = length (board g) /\
    rows_of_width w (board g') /\
    checkFullLines (board g') = [] /\
    countFilledBlocks (board g') =
      countFilledBlocks (board g) - len (checkFullLines (board g)) * Z.of_nat w.
Proof.
  intros Hw Hpos.
  set (L := checkFullLines (board g)).
  assert (Hboard : dropLinesDown (zeroed L 0 (board g)) L =
                   repeat (repeat 0 w) (length L) ++ keptFrom L 0 (board g)).
  { rewrite (dropLinesDown_any _ L w) by (apply zeroed_width; assumption).
    rewrite zeroed_length, keptFrom_zeroed. do 2 f_equal.
    apply clearedCount_NoDup; [|apply checkFullLines_valid].
    apply (checkFullLines_nodup (board g)). }
  assert (Hkeep : Forall (fun row => isFull row = false) (keptFrom L 0 (board g))).
  { apply keptFrom_not_full. intros j row E. apply has_checkFullLines. exact E. }
  assert (Hres :
    let b' := repeat (repeat 0 w) (length L) ++ keptFrom L 0 (board g) in
    length b' = length (board g) /\ rows_of_width w b' /\
    checkFullLines b' = [] /\
    countFilledBlocks b' = countFilledBlocks (board g) - len L * Z.of_nat w).
  { cbv zeta. split; [|split; [|split]].
    - rewrite length_app, repeat_length.
      pose proof (keptFrom_count L (board g) 0) as Hc.
      rewrite <- (clearedCount_NoDup L (length (board g))
                    (checkFullLines_nodup (board g)) (checkFullLines_valid (board g))).
      unfold clearedCount. unfold Board, Row in *. lia.
    - apply Forall_app. split.
      + apply Forall_forall. intros row Hin. apply repeat_spec in Hin. subst.
        apply repeat_length.
      + apply keptFrom_width. assumption.
    - apply fullLinesFrom_none. apply Forall_app. split; [|assumption].
      apply Forall_forall. intros row Hin. apply repeat_spec in Hin. subst.
      destruct w; [lia|]. reflexivity.
    - rewrite countFilledBlocks_app, countFilledBlocks_zeros.
      rewrite (countFilledBlocks_kept w (board g) Hw 0). fold (checkFullLines (board g)).
      fold L. lia. }
  cbv zeta in Hres. destruct Hres as [H1 [H2 [H3 H4]]].
  rewrite processLineClearing_eq. cbv zeta. fold L.
  destruct (Z.gtb_spec (len L) 0) as [Hn|Hn].
  - rewrite addScore_accepted by (try apply calculateScore_nonneg; unfold len; lia).
    eexists. split; [reflexivity|]. cbv zeta.
    destruct (_ >? _); cbn [board set_board]; rewrite Hboard; auto 10.
  - assert (HL : L = []) by (destruct L; [reflexivity|unfold len in Hn; simpl in Hn; lia]).
    rewrite HL in *. cbn [length repeat app] in *.
    exists g. split; [reflexivity|].
    rewrite keptFrom_nil in *. auto 10.
Qed.

Lemma processLineClearing_board_witness :
  let g := set_board (repeat (repeat 0 10) 18 ++ [[0;0;0;0;3;0;0;0;0;0]; repeat 1 10])
                     initialState in
  exists g',
    processLineClearing g = (Ret tt, g') /\
    checkFullLines (board g') = [] /\
    countFilledBlocks (board g') = 1.
Proof.
  intros g.
  destruct (processLineClearing_board g 10) as [g' [E [_ [_ [_ [Hnone Hcount]]]]]].
  - unfold rows_of_width. cbn. repeat constructor.
  - lia.
  - exists g'. split; [exact E|]. split; [exact Hnone|].
    rewrite Hcount. reflexivity.
Defined.

(** X8. [processLineClearing] adds [calculateScore(n, level)] to the
    score and [n] to the lines, for the number [n] of full lines, and
    writes no flag, piece or clock.  When lines were cleared the level
    is the larger of the old level and floor(lines/10) + 1.  More than
    four full lines add to the lines and nothing to the score. *)
Theorem processLineClearing_score (g : Game) :
  let n := len (checkFullLines (board g)) in
  let g' := exec processLineClearing g in
  score g' = score g + calculateScore n (level g) /\
  lines g' = lines g + n /\
  (0 < n -> level g' = Z.max (level g) ((lines g + n) / 10 + 1)) /\
  (4 < n -> score g' = score g) /\
  gameOver g' = gameOver g /\ paused g' = paused g /\
  currentTetromino g' = currentTetromino g /\ lastDropTime g' = lastDropTime g.
Proof.
  cbv zeta. unfold exec. rewrite processLineClearing_eq. cbv zeta.
  set (n := len (checkFullLines (board g))).
  assert (Hn0 : 0 <= n) by (unfold n, len; lia).
  destruct (Z.gtb_spec n 0) as [Hn|Hn].
  - rewrite addScore_accepted by (try apply calculateScore_nonneg; lia).
    cbn [snd]. cbv zeta. cbn [lines level set_board score].
    assert (H4 : 4 < n -> calculateScore n (level g) = 0).
    { intros H. unfold calculateScore.
      destruct (Z.gtb_spec n 4); [|lia]. rewrite orb_true_r. reflexivity. }
    destruct (Z.gtb_spec ((lines g + n) / 10 + 1) (level g)); cbn;
      repeat split; try reflexivity; try lia;
      intros H; rewrite (H4 H); lia.
  - assert (n = 0) as -> by lia. cbn [snd].
    assert (calculateScore 0 (level g) = 0).
    { unfold calculateScore. destruct (level g <=? 0); reflexivity. }
    repeat split; try reflexivity; try lia.
Qed.

(* ================================================================== *)
(** * The catalogue: createTetromino, moveTetromino, rotateTetromino  *)
(* ================================================================== *)

Lemma lookup_types (s : string) :
  In s types <-> exists e, lookup TETROMINOS s = Some e.
Proof.
  split.
  - intros H. repeat (destruct H as [<-|H]; [eexists; reflexivity|]). contradiction.
  - intros [e H]. unfold TETROMINOS, lookup in H. unfold types.
    repeat (match type of H with
            | (if String.eqb ?k s then _ else _) = _ =>
                destruct (String.eqb_spec k s) as [<-|_]; [simpl; tauto|]
            end).
    discriminate.
Qed.

(** A key inherited from [Object.prototype] is no own key of the
    catalogue. *)
Lemma inherited_not_own (s : string) :
  inherited s = true -> lookup TETROMINOS s = None.
Proof.
  unfold inherited, objectPrototypeKeys. cbn [existsb]. intros H.
  repeat (apply orb_true_iff in H; destruct H as [H|H];
          [apply String.eqb_eq in H; subst s; reflexivity|]).
  discriminate H.
Qed.

(** X9. [createTetromino] gives the piece of the requested type when the
    type is one of the seven, and the I piece for [undefined] and for
    every other string that is no key of [Object.prototype]; the piece is
    in rotation 0 with the shape and the colour of the catalogue, at
    x = 4, y = 0.  For a key inherited from [Object.prototype], such as
    'constructor', it throws: the default does not replace it. *)
Theorem createTetromino_spec (ty : option string) :
  (forall s, ty = Some s -> inherited s = true -> createTetromino ty = Throw) /\
  ((forall s, ty = Some s -> inherited s = false) ->
   exists t e,
     createTetromino ty = Ret t /\
     type t = match ty with
              | Some s => if in_dec string_dec s types then s else "I"
              | None => "I"
              end /\
     lookup TETROMINOS (type t) = Some e /\
     shape t = nth_error (shapes e) 0 /\ (exists rows, shape t = Some rows) /\
     color t = entry_color e /\
     x t = 4 /\ y t = 0 /\ rotation t = 0 /\ catalogued t).
Proof.
  split.
  { intros s -> Hinh.
    assert (Hr : read TETROMINOS s = Inherited).
    { unfold read. rewrite (inherited_not_own s Hinh), Hinh. reflexivity. }
    unfold createTetromino. cbv zeta. rewrite Hr. cbv iota. rewrite Hr.
    reflexivity. }
  intros Hok.
  assert (HI : exists t e,
            createTetromino None = Ret t /\ type t = "I" /\
            lookup TETROMINOS (type t) = Some e /\
            shape t = nth_error (shapes e) 0 /\ (exists rows, shape t = Some rows) /\
            color t = entry_color e /\ x t = 4 /\ y t = 0 /\ rotation t = 0 /\
            catalogued t).
  { do 2 eexists. split; [reflexivity|]. cbn.
    repeat (split; [try reflexivity; eauto|]).
    eexists. cbn. split; [reflexivity|]. split; [lia|reflexivity]. }
  destruct ty as [s|]; [|exact HI].
  destruct (in_dec string_dec s types) as [Hin|Hnot].
  - repeat (destruct Hin as [<-|Hin];
      [do 2 eexists; split; [reflexivity|]; cbn;
       repeat (split; [try reflexivity; eauto|]);
       eexists; cbn; split; [reflexivity|]; split; [lia|reflexivity]|]).
    contradiction.
  - assert (Hnone : lookup TETROMINOS s = None).
    { destruct (lookup TETROMINOS s) eqn:E; [|reflexivity].
      exfalso. apply Hnot. apply lookup_types. eauto. }
    assert (Hr : read TETROMINOS s = Missing).
    { unfold read. rewrite Hnone, (Hok s eq_refl). reflexivity. }
    destruct HI as [t [e HI]]. exists t, e.
    unfold createTetromino in *. cbv zeta in *. rewrite Hr. exact HI.
Qed.

Lemma createTetromino_spec_witness :
  createTetromino (Some "constructor") = Throw /\
  exists t, createTetromino (Some "X") = Ret t /\ type t = "I" /\
            x t = 4 /\ y t = 0 /\ rotation t = 0.
Proof.
  split.
  - apply (proj1 (createTetromino_spec (Some "constructor")) "constructor");
      reflexivity.
  - destruct (proj2 (createTetromino_spec (Some "X")))
      as [t [e [Et [Hty [_ [_ [_ [_ [Hx [Hy [Hr _]]]]]]]]]]].
    + intros s H. injection H as <-. reflexivity.
    + exists t. split; [exact Et|].
      destruct (in_dec string_dec "X" types) as [Hin|_].
      * exfalso. cbn in Hin.
        repeat (destruct Hin as [Hin|Hin]; [discriminate Hin|]). exact Hin.
      * repeat split; assumption.
Defined.

(** X10. [moveTetromino] moves a copy of the piece by one cell: left and
    right undo each other, 'down' adds 1 to y, any other direction gives
    the piece back, and the type, shape, colour and rotation are never
    changed. *)
Theorem moveTetromino_spec (t : Tetromino) (direction : string) :
  moveTetromino (moveTetromino t "left") "right" = t /\
  moveTetromino (moveTetromino t "right") "left" = t /\
  x (moveTetromino t "down") = x t /\ y (moveTetromino t "down") = y t + 1 /\
  x (moveTetromino t "left") = x t - 1 /\ y (moveTetromino t "left") = y t /\
  x (moveTetromino t "right") = x t + 1 /\ y (moveTetromino t "right") = y t /\
  (direction <> "left" -> direction <> "right" -> direction <> "down" ->
   moveTetromino t direction = t) /\
  type (moveTetromino t direction) = type t /\
  shape (moveTetromino t direction) = shape t /\
  color (moveTetromino t direction) = color t /\
  rotation (moveTetromino t direction) = rotation t.
Proof.
  destruct t as [ty sh co tx ty' ro].
  repeat split; try reflexivity.
  - cbn. f_equal. lia.
  - cbn. f_equal. lia.
  - intros H1 H2 H3. unfold moveTetromino.
    destruct (String.eqb_spec direction "left"); [contradiction|].
    destruct (String.eqb_spec direction "right"); [contradiction|].
    destruct (String.eqb_spec direction "down"); [contradiction|]. reflexivity.
  - unfold moveTetromino.
    destruct (direction =? "left")%string, (direction =? "right")%string,
      (direction =? "down")%string; reflexivity.
  - unfold moveTetromino.
    destruct (direction =? "left")%string, (direction =? "right")%string,
      (direction =? "down")%string; reflexivity.
  - unfold moveTetromino.
    destruct (direction =? "left")%string, (direction =? "right")%string,
      (direction =? "down")%string; reflexivity.
  - unfold moveTetromino.
    destruct (direction =? "left")%string, (direction =? "right")%string,
      (direction =? "down")%string; reflexivity.
Qed.

Lemma moveTetromino_spec_witness :
  moveTetromino (mkTetromino "T" None "purple" 4 0 0) "up" =
  mkTetromino "T" None "purple" 4 0 0.
Proof.
  apply (proj1 (proj2 (proj2 (proj2 (proj2 (proj2 (proj2 (proj2
           (proj2 (moveTetromino_spec (mkTetromino "T" None "purple" 4 0 0) "up"))))))))));
    discriminate.
Defined.

Lemma catalogue_four_shapes (s : string) (e : Entry) :
  lookup TETROMINOS s = Some e ->
  exists s0 s1 s2 s3, shapes e = [s0; s1; s2; s3].
Proof.
  intros H. assert (Hin : In s types) by (apply lookup_types; eauto).
  repeat (destruct Hin as [<-|Hin];
          [cbn in H; injection H as <-; do 4 eexists; reflexivity|]).
  contradiction.
Qed.

Lemma rotateTetromino_eq (ty : string) (e : Entry) (sh : option Shape)
    (co : string) (tx ty' ro : Z) (d : string) :
  lookup TETROMINOS ty = Some e ->
  rotateTetromino (mkTetromino ty sh co tx ty' ro) d =
  Ret (mkTetromino ty
         (arr_get (shapes e)
            (if String.eqb d "right" then Z.rem (ro + 1) 4
             else if String.eqb d "left" then Z.rem (ro + 3) 4 else ro))
         co tx ty'
         (if String.eqb d "right" then Z.rem (ro + 1) 4
          else if String.eqb d "left" then Z.rem (ro + 3) 4 else ro)).
Proof.
  intros H. unfold rotateTetromino. cbn [type rotation color x y].
  rewrite H. reflexivity.
Qed.

(** X11. For a piece of the catalogue [rotateTetromino] gives the piece
    of the catalogue in the next rotation (the one before for 'left'), at
    the same place; a left turn undoes a right turn and four right turns
    give the piece back.  For a type that is not in the catalogue it
    throws, and a rotation below -1 can give a piece with no shape. *)
Theorem rotateTetromino_spec (t : Tetromino) :
  (catalogued t ->
   exists t1,
     rotateTetromino t "right" = Ret t1 /\
     catalogued t1 /\ (exists rows, shape t1 = Some rows) /\
     rotation t1 = (rotation t + 1) mod 4 /\
     type t1 = type t /\ color t1 = color t /\ x t1 = x t /\ y t1 = y t /\
     rotateTetromino t1 "left" = Ret t /\
     rotateTimes 4 "right" t = Ret t) /\
  (forall direction,
     lookup TETROMINOS (type t) = None -> rotateTetromino t direction = Throw) /\
  (forall t1, rotation t < -1 -> (rotation t + 1) mod 4 <> 0 ->
     rotateTetromino t "right" = Ret t1 -> shape t1 = None).
Proof.
  split; [|split].
  - intros [e [He [Hr Hs]]].
    destruct t as [ty sh co tx ty' ro]. cbn [type rotation shape] in *. subst sh.
    destruct (catalogue_four_shapes ty e He) as [s0 [s1 [s2 [s3 Hsh]]]].
    eexists. split; [apply (rotateTetromino_eq _ e); exact He|].
    cbn [String.eqb Ascii.eqb Bool.eqb type rotation shape color x y].
    assert (Hcat : forall r, 0 <= r <= 3 ->
              catalogued (mkTetromino ty (arr_get (shapes e) r) co tx ty' r)).
    { intros r Hr'. exists e. auto. }
    assert (ro = 0 \/ ro = 1 \/ ro = 2 \/ ro = 3) as [->|[->|[->| ->]]] by lia;
      (split; [apply Hcat; cbn; lia|];
       split; [rewrite Hsh; eexists; reflexivity|];
       split; [reflexivity|];
       do 4 (split; [reflexivity|]);
       split; [rewrite (rotateTetromino_eq _ e) by exact He; reflexivity|];
       cbn [rotateTimes];
       rewrite (rotateTetromino_eq _ e) by exact He;
       cbn [String.eqb Ascii.eqb Bool.eqb];
       rewrite (rotateTetromino_eq _ e) by exact He;
       cbn [String.eqb Ascii.eqb Bool.eqb];
       rewrite (rotateTetromino_eq _ e) by exact He;
       cbn [String.eqb Ascii.eqb Bool.eqb];
       rewrite (rotateTetromino_eq _ e) by exact He;
       reflexivity).
  - intros direction H. unfold rotateTetromino. rewrite H. reflexivity.
  - intros t1 Hneg Hmod E. unfold rotateTetromino in E.
    destruct (lookup TETROMINOS (type t)); [|discriminate E].
    injection E as <-. cbn [shape String.eqb Ascii.eqb Bool.eqb].
    unfold arr_get.
    assert (Hrem : Z.rem (rotation t + 1) 4 < 0).
    { assert (Ha : rotation t + 1 <= 0) by lia. assert (Hb : 4 <> 0) by lia.
      pose proof (Z.rem_nonpos (rotation t + 1) 4 Hb Ha).
      assert (Z.rem (rotation t + 1) 4 <> 0); [|lia].
      intros H0. apply Hmod. apply Z.rem_divide in H0; [|lia].
      apply Z.mod_divide; [lia|assumption]. }
    destruct (Z.ltb_spec (Z.rem (rotation t + 1) 4) 0); [reflexivity|lia].
Qed.

Lemma rotateTetromino_spec_witness :
  exists t1,
    rotateTetromino (mkTetromino "S" (Some [[0;0;0]; [0;1;1]; [1;1;0]]) "green" 3 7 2)
                    "right" = Ret t1 /\
    rotation t1 = 3 /\
    shape (mkTetromino "L" None "orange" 0 0 (-3)) = None.
Proof.
  destruct (proj1 (rotateTetromino_spec
                     (mkTetromino "S" (Some [[0;0;0]; [0;1;1]; [1;1;0]]) "green" 3 7 2)))
    as [t1 [E [_ [_ [Hr _]]]]].
  - eexists. cbn. split; [reflexivity|]. split; [lia|reflexivity].
  - exists t1. split; [exact E|]. split; [exact Hr|reflexivity].
Defined.

(* ================================================================== *)
(** * The score, the level and the clock                              *)
(* ================================================================== *)

(** X12. [calculateScore] is never negative, it is the score at level 1
    times the level, and it grows with the number of lines and with the
    level. *)
Theorem calculateScore_monotone (n n' l l' : Z) :
  0 <= calculateScore n l /\
  (1 <= l -> calculateScore n l = calculateScore n 1 * l) /\
  (0 <= n <= n' -> n' <= 4 -> 1 <= l <= l' ->
   calculateScore n l <= calculateScore n' l').
Proof.
  split; [apply calculateScore_nonneg|]. split.
  - intros Hl. unfold calculateScore.
    destruct (Z.leb_spec l 0); [lia|]. cbn [orb Z.leb Z.compare].
    destruct (n <? 0); [reflexivity|]. destruct (n >? 4); [reflexivity|].
    cbn [orb]. lia.
  - intros Hn Hn' Hl. unfold calculateScore.
    destruct (Z.leb_spec l 0); [lia|]. destruct (Z.leb_spec l' 0); [lia|].
    destruct (Z.ltb_spec n 0); [lia|]. destruct (Z.ltb_spec n' 0); [lia|].
    destruct (Z.gtb_spec n 4); [lia|]. destruct (Z.gtb_spec n' 4); [lia|].
    cbn [orb].
    assert (n = 0 \/ n = 1 \/ n = 2 \/ n = 3 \/ n = 4) as [->|[->|[->|[->| ->]]]] by lia;
    assert (n' = 0 \/ n' = 1 \/ n' = 2 \/ n' = 3 \/ n' = 4) as [->|[->|[->|[->| ->]]]] by lia;
      cbn [baseScores]; try lia; nia.
Qed.

Lemma calculateScore_monotone_witness :
  calculateScore 2 3 <= calculateScore 4 5.
Proof.
  apply (proj2 (proj2 (calculateScore_monotone 2 4 3 5))); lia.
Defined.

(** X13. [getDropInterval] is between 100 and 1000 milliseconds at every
    level and never grows when the level grows. *)
Theorem getDropInterval_bounds (g1 g2 : Game) :
  100 <= getDropInterval g1 <= 1000 /\
  (level g1 <= level g2 -> getDropInterval g2 <= getDropInterval g1).
Proof.
  split; [|apply getDropInterval_monotone].
  unfold getDropInterval.
  destruct (Z.leb_spec (level g1) 1); [lia|].
  destruct (Z.eqb_spec (level g1) 2); [lia|].
  destruct (Z.leb_spec (level g1) 5); [lia|].
  destruct (Z.geb_spec (level g1) 10); [lia|].
  destruct (Z.leb_spec (level g1) 4); lia.
Qed.

Lemma getDropInterval_bounds_witness :
  getDropInterval (at_level 7) <= getDropInterval (at_level 6).
Proof.
  apply (proj2 (getDropInterval_bounds (at_level 6) (at_level 7))). cbn. lia.
Defined.

(** X14. [validateAndFixGameState] raises the level to 1, the score to 0
    and the lines to 0 when they are below, each on its own (the level is
    not recomputed from the lines), and writes nothing else; a second
    call changes nothing, and a state with level >= 1, score >= 0 and
    lines >= 0 is left as it is. *)
Theorem validateAndFixGameState_spec (g : Game) :
  validateAndFixGameState g =
  (Ret tt,
   mkGame (Z.max 0 (score g)) (Z.max 1 (level g)) (Z.max 0 (lines g))
          (gameOver g) (paused g) (board g) (currentTetromino g)
          (lastDropTime g) (dropInterval g)) /\
  exec validateAndFixGameState (exec validateAndFixGameState g) =
    exec validateAndFixGameState g /\
  (1 <= level g -> 0 <= score g -> 0 <= lines g ->
   exec validateAndFixGameState g = g).
Proof.
  assert (E : forall g0, validateAndFixGameState g0 =
    (Ret tt,
     mkGame (Z.max 0 (score g0)) (Z.max 1 (level g0)) (Z.max 0 (lines g0))
            (gameOver g0) (paused g0) (board g0) (currentTetromino g0)
            (lastDropTime g0) (dropInterval g0))).
  { intros g0. unfold validateAndFixGameState, bind, modify. cbn.
    destruct (Z.ltb_spec (level g0) 1); cbn;
      destruct (Z.ltb_spec (score g0) 0); cbn;
      destruct (Z.ltb_spec (lines g0) 0); cbn;
      (f_equal; destruct g0; unfold set_lines, set_score, set_level;
       cbn in *; f_equal; lia). }
  split; [apply E|]. split.
  - unfold exec. rewrite !E. cbn. f_equal; lia.
  - intros Hl Hs Hn. unfold exec. rewrite E. cbn.
    destruct g; cbn in *. f_equal; lia.
Qed.

Lemma validateAndFixGameState_spec_witness :
  exec validateAndFixGameState (set_lines 12 (at_level 2)) = set_lines 12 (at_level 2).
Proof.
  apply (proj2 (proj2 (validateAndFixGameState_spec (set_lines 12 (at_level 2)))));
    cbn; lia.
Defined.

Lemma shouldDropTetromino_eq (g : Game) (t : Z) :
  shouldDropTetromino t g =
  if paused g || gameOver g then (Ret false, g)
  else if t - lastDropTime g <? dropInterval g then (Ret false, g)
  else (Ret true, set_lastDropTime t g).
Proof.
  unfold shouldDropTetromino, bind, get. cbv beta iota.
  destruct (paused g || gameOver g); [reflexivity|].
  destruct (t - lastDropTime g <? dropInterval g); reflexivity.
Qed.

(** X15. When [dropInterval] is positive, a second call of
    [shouldDropTetromino] with the same time returns [false] and writes
    nothing: one time gives at most one drop. *)
Theorem shouldDropTetromino_once (g : Game) (currentTime : Z) :
  0 < dropInterval g ->
  let g1 := exec (shouldDropTetromino currentTime) g in
  shouldDropTetromino currentTime g1 = (Ret false, g1).
Proof.
  intros Hd. cbv zeta. unfold exec. rewrite (shouldDropTetromino_eq g).
  destruct (paused g || gameOver g) eqn:Estop.
  - cbn [snd]. rewrite shouldDropTetromino_eq, Estop. reflexivity.
  - destruct (Z.ltb_spec (currentTime - lastDropTime g) (dropInterval g)) as [Hlt|Hge];
      cbn [snd]; rewrite shouldDropTetromino_eq.
    + rewrite Estop.
      destruct (Z.ltb_spec (currentTime - lastDropTime g) (dropInterval g)); [|lia].
      reflexivity.
    + cbn [paused gameOver lastDropTime dropInterval set_lastDropTime].
      rewrite Estop.
      destruct (Z.ltb_spec (currentTime - currentTime) (dropInterval g)); [|lia].
      reflexivity.
Qed.

Lemma shouldDropTetromino_once_witness :
  shouldDropTetromino 1000 (exec (shouldDropTetromino 1000) initialState) =
  (Ret false, set_lastDropTime 1000 initialState).
Proof.
  apply (shouldDropTetromino_once initialState 1000). cbn. lia.
Defined.

(** X16. Two calls of [togglePause] give the state back, and the second
    returns the value [paused] had. *)
Theorem togglePause_twice (g : Game) :
  exec togglePause (exec togglePause g) = g /\
  fst (togglePause (exec togglePause g)) = Ret (paused g).
Proof.
  destruct g. cbn. rewrite negb_involutive. split; reflexivity.
Qed.

(* ================================================================== *)
(** * Starting again                                                  *)
(* ================================================================== *)

Lemma spawn_new_game (rnd : nat) :
  exists t,
    createTetromino (nth_error types rnd) = Ret t /\
    spawnNewTetromino rnd initialState =
    (Ret true, set_currentTetromino (Some t) initialState).
Proof.
  do 7 (destruct rnd as [|rnd]; [eexists; split; reflexivity|]).
  destruct rnd; eexists; split; reflexivity.
Qed.

(** X17. [reset] followed by [spawnNewTetromino], the restart of the
    application, gives from every state and for every draw the new game
    with the drawn piece at its spawn position: the board is empty, the
    score and the lines are 0, the level is 1, and the game is neither
    over nor paused. *)
Theorem restart_spec (g : Game) (rnd : nat) :
  exists t,
    createTetromino (nth_error types rnd) = Ret t /\
    restart rnd g =
    (Ret tt,
     mkGame 0 1 0 false false (createEmptyBoard BOARD_WIDTH BOARD_HEIGHT)
            (Some t) 0 1000) /\
    exec reset g = initialState.
Proof.
  destruct (spawn_new_game rnd) as [t [Et Es]].
  exists t. split; [exact Et|]. split; [|reflexivity].
  unfold restart, reset, initializeGameState, bind, put. rewrite Es. reflexivity.
Qed.

(* ================================================================== *)
(** * Locking a piece: the cells that are written                     *)
(* ================================================================== *)

(** The cell at row [r] and column [c], by natural numbers. *)
Lemma cellAt_nat (b : Board) (r c : nat) :
  cellAt b (Z.of_nat r) (Z.of_nat c) =
  match nth_error b r with
  | Some row => nth_error row c
  | None => None
  end.
Proof.
  unfold cellAt, arr_get.
  destruct (Z.ltb_spec (Z.of_nat r) 0); [lia|].
  destruct (Z.ltb_spec (Z.of_nat c) 0); [lia|].
  rewrite !Nat2Z.id. reflexivity.
Qed.

Lemma cellAt_setCell (b : Board) (r c : nat) (v : Z) (row : Row) (R C : nat) :
  nth_error b r = Some row -> (c < length row)%nat ->
  cellAt (setCell b r c v) (Z.of_nat R) (Z.of_nat C) =
  if Nat.eqb R r && Nat.eqb C c then Some v
  else cellAt b (Z.of_nat R) (Z.of_nat C).
Proof.
  intros E Hc. rewrite !cellAt_nat. unfold setCell. rewrite E.
  assert (Hr : (r < length b)%nat) by (apply nth_error_Some; congruence).
  rewrite nth_error_arr_set by assumption.
  destruct (Nat.eqb_spec R r) as [->|Hne]; cbn [andb]; [|reflexivity].
  rewrite nth_error_arr_set by assumption. rewrite E.
  destruct (Nat.eqb C c); reflexivity.
Qed.

Section Stamp.

Variables w h : nat.
Variable v : Z.

Lemma cellAt_stampCell (b : Board) (X Y : Z) (R C : nat) :
  wf_board (fun _ => True) w h b -> (R < h)%nat -> (C < w)%nat ->
  cellAt (stampCell b X Y v) (Z.of_nat R) (Z.of_nat C) =
  if (Y =? Z.of_nat R) && (X =? Z.of_nat C) then Some v
  else cellAt b (Z.of_nat R) (Z.of_nat C).
Proof.
  intros [Hlen HF] HR HC. unfold stampCell.
  assert (Hhd : forall row rest, b = row :: rest -> length row = w).
  { intros row rest ->. apply Forall_inv in HF. tauto. }
  destruct (Z.geb_spec Y 0) as [HY0|HY0]; cbn [andb].
  2:{ destruct (Z.eqb_spec Y (Z.of_nat R)); [lia|reflexivity]. }
  destruct (Z.ltb_spec Y (len b)) as [HY1|HY1]; cbn [andb].
  2:{ destruct (Z.eqb_spec Y (Z.of_nat R)); [unfold len in *; lia|reflexivity]. }
  destruct (Z.geb_spec X 0) as [HX0|HX0]; cbn [andb].
  2:{ destruct (Z.eqb_spec X (Z.of_nat C)); [lia|]. rewrite andb_false_r. reflexivity. }
  destruct b as [|row0 rest]; [unfold len in *; simpl in *; lia|].
  pose proof (Hhd row0 rest eq_refl) as Hw0. cbn [hd].
  destruct (Z.ltb_spec X (len row0)) as [HX1|HX1].
  2:{ destruct (Z.eqb_spec X (Z.of_nat C)); [unfold len in *; lia|].
      rewrite andb_false_r. reflexivity. }
  destruct (nth_error (row0 :: rest) (Z.to_nat Y)) as [row|] eqn:Erow.
  2:{ apply nth_error_None in Erow. unfold len in *. lia. }
  assert (Hrow : length row = w).
  { rewrite Forall_forall in HF. apply (HF row). eapply nth_error_In; eauto. }
  rewrite (cellAt_setCell _ _ _ _ row) by (assumption || unfold len in *; lia).
  destruct (Z.eqb_spec Y (Z.of_nat R)) as [->|HneY].
  - rewrite Nat2Z.id, Nat.eqb_refl. cbn [andb].
    destruct (Z.eqb_spec X (Z.of_nat C)) as [->|HneX].
    + rewrite Nat2Z.id, Nat.eqb_refl. reflexivity.
    + destruct (Nat.eqb_spec C (Z.to_nat X)); [lia|reflexivity].
  - destruct (Nat.eqb_spec R (Z.to_nat Y)); [lia|reflexivity].
Qed.

Lemma cellAt_stampCols (cells : list Z) (x Y : Z) (R C : nat) :
  (R < h)%nat -> (C < w)%nat ->
  forall col b, wf_board (fun _ => True) w h b ->
  cellAt (stampCols b cells col x Y v) (Z.of_nat R) (Z.of_nat C) =
  if (Y =? Z.of_nat R) && coversCols cells col x (Z.of_nat C) then Some v
  else cellAt b (Z.of_nat R) (Z.of_nat C).
Proof.
  intros HR HC. induction cells as [|u rest IH]; intros col b Hb;
    cbn [stampCols coversCols].
  - rewrite andb_false_r. reflexivity.
  - destruct (Z.eqb_spec u 0) as [->|Hu]; cbn [negb andb orb].
    + apply IH. assumption.
    + rewrite IH by (apply wf_stampCell; [assumption|exact I]).
      rewrite cellAt_stampCell by assumption.
      destruct (Y =? Z.of_nat R); cbn [andb]; [|reflexivity].
      destruct (x + Z.of_nat col =? Z.of_nat C); cbn [orb];
        destruct (coversCols rest (S col) x (Z.of_nat C)); reflexivity.
Qed.

Lemma cellAt_stampRows (rows : Shape) (x y : Z) (R C : nat) :
  (R < h)%nat -> (C < w)%nat ->
  forall row b, wf_board (fun _ => True) w h b ->
  cellAt (stampRows b rows row x y v) (Z.of_nat R) (Z.of_nat C) =
  if coversRows rows row x y (Z.of_nat R) (Z.of_nat C) then Some v
  else cellAt b (Z.of_nat R) (Z.of_nat C).
Proof.
  intros HR HC. induction rows as [|cells rest IH]; intros row b Hb;
    cbn [stampRows coversRows]; [reflexivity|].
  rewrite IH by (apply wf_stampCols; [exact I|assumption]).
  rewrite cellAt_stampCols by assumption.
  destruct ((y + Z.of_nat row =? Z.of_nat R) && coversCols cells 0 x (Z.of_nat C));
    cbn [orb]; [|reflexivity].
  destruct (coversRows rest (S row) x y (Z.of_nat R) (Z.of_nat C)); reflexivity.
Qed.

End Stamp.

Lemma coversCols_spec (cells : list Z) (x C : Z) :
  forall col,
  coversCols cells col x C = true <->
  exists k u, nth_error cells k = Some u /\ u <> 0 /\ x + Z.of_nat (col + k) = C.
Proof.
  induction cells as [|u rest IH]; intros col; cbn [coversCols].
  - split; [discriminate|]. intros [k [u [E _]]]. destruct k; discriminate.
  - rewrite orb_true_iff, andb_true_iff, negb_true_iff, Z.eqb_neq, Z.eqb_eq, IH.
    split.
    + intros [[Hu Hx]|[k [u' [E [Hu' Hx]]]]].
      * exists 0%nat, u. rewrite Nat.add_0_r. auto.
      * exists (S k), u'. replace (col + S k)%nat with (S col + k)%nat by lia. auto.
    + intros [[|k] [u' [E [Hu' Hx]]]]; cbn in E.
      * injection E as <-. rewrite Nat.add_0_r in Hx. left. auto.
      * right. exists k, u'. replace (S col + k)%nat with (col + S k)%nat by lia. auto.
Qed.

Lemma coversRows_spec (rows : Shape) (x y R C : Z) :
  forall row,
  coversRows rows row x y R C = true <->
  exists r c, filledAt rows r c /\ y + Z.of_nat (row + r) = R /\ x + Z.of_nat c = C.
Proof.
  induction rows as [|cells rest IH]; intros row; cbn [coversRows].
  - split; [discriminate|]. intros [r [c [[cs [u [E _]]] _]]]. destruct r; discriminate.
  - rewrite orb_true_iff, andb_true_iff, Z.eqb_eq, coversCols_spec, IH. split.
    + intros [[Hy [k [u [E [Hu Hx]]]]]|[r [c [[cs [u [E1 [E2 Hu]]]] [Hy Hx]]]]].
      * exists 0%nat, k. rewrite Nat.add_0_r. split; [|auto].
        exists cells, u. auto.
      * exists (S r), c. split; [exists cs, u; auto|].
        replace (row + S r)%nat with (S row + r)%nat by lia. auto.
    + intros [[|r] [c [[cs [u [E1 [E2 Hu]]]] [Hy Hx]]]]; cbn in E1.
      * injection E1 as <-. rewrite Nat.add_0_r in Hy. left. split; [assumption|].
        exists c, u. auto.
      * right. exists r, c. split; [exists cs, u; auto|].
        replace (S row + r)%nat with (row + S r)%nat by lia. auto.
Qed.

(** X18. The writes of [fixTetrominoToBoard] on a board of [h] rows of
    [w] cells: the cells under a filled cell of the piece hold the colour
    value, every other cell of the board is as before, and the board
    keeps its dimensions (a filled cell outside the board is skipped). *)
Theorem stampRows_spec (b : Board) (w h : nat) (s : Shape) (x y v : Z) :
  length b = h -> rows_of_width w b ->
  length (stampRows b s 0 x y v) = h /\
  rows_of_width w (stampRows b s 0 x y v) /\
  (forall R C : nat, (R < h)%nat -> (C < w)%nat ->
     cellAt (stampRows b s 0 x y v) (Z.of_nat R) (Z.of_nat C) =
     if covers s x y (Z.of_nat R) (Z.of_nat C) then Some v
     else cellAt b (Z.of_nat R) (Z.of_nat C)) /\
  (forall R C : Z,
     covers s x y R C = true <->
     exists r c, filledAt s r c /\ y + Z.of_nat r = R /\ x + Z.of_nat c = C).
Proof.
  intros Hlen Hw.
  assert (Hdims : wf_board (fun _ => True) w h b).
  { split; [assumption|]. eapply Forall_impl; [|exact Hw].
    intros row Hr. split; [exact Hr|]. apply Forall_forall. auto. }
  pose proof (wf_stampRows (fun _ => True) w h s x y v I 0 b Hdims) as Hd'.
  split; [apply Hd'|].
  split; [apply (wf_rows_of_width (fun _ => True) w h); exact Hd'|]. split.
  - intros R C HR HC. apply (cellAt_stampRows w h); assumption.
  - intros R C. unfold covers. rewrite coversRows_spec. reflexivity.
Qed.

Lemma stampRows_spec_witness :
  cellAt (stampRows (createEmptyBoard 10 20) [[0;1;0]; [1;1;1]; [0;0;0]] 0 4 18 3)
         19 6 = Some 3 /\
  cellAt (stampRows (createEmptyBoard 10 20) [[0;1;0]; [1;1;1]; [0;0;0]] 0 4 18 3)
         18 6 = Some 0.
Proof.
  destruct (stampRows_spec (createEmptyBoard 10 20) 10 20
              [[0;1;0]; [1;1;1]; [0;0;0]] 4 18 3 eq_refl) as [_ [_ [H _]]].
  - unfold rows_of_width. cbn. repeat constructor.
  - split.
    + apply (H 19%nat 6%nat); lia.
    + apply (H 18%nat 6%nat); lia.
Defined.

(* ================================================================== *)
(** * The invariant of the running game                               *)
(* ================================================================== *)

Lemma createTetromino_fields (ty : option string) (t : Tetromino) :
  createTetromino ty = Ret t ->
  x t = 4 /\ y t = 0 /\ rotation t = 0 /\ exists rows, shape t = Some rows.
Proof.
  unfold createTetromino. cbv zeta.
  set (ty' := match ty with
              | Some t0 => match read TETROMINOS t0 with
                           | Missing => "I"
                           | _ => t0
                           end
              | None => "I"
              end).
  destruct (read TETROMINOS ty') as [e| |] eqn:Er; try discriminate.
  assert (E : lookup TETROMINOS ty' = Some e).
  { unfold read in Er. destruct (lookup TETROMINOS ty') as [e'|].
    - injection Er as ->. reflexivity.
    - destruct (inherited ty'); discriminate Er. }
  intros H. injection H as <-. cbn [x y rotation shape].
  repeat split.
  destruct (catalogue_four_shapes ty' e E) as [s0 [s1 [s2 [s3 Hs]]]].
  rewrite Hs. eexists. reflexivity.
Qed.

Lemma board_ok_nonempty (b : Board) : board_ok b -> b <> [].
Proof. intros [Hlen _] ->. discriminate. Qed.

Lemma stats_ok_frame (g g' : Game) :
  score g' = score g -> level g' = level g -> lines g' = lines g ->
  dropInterval g' = dropInterval g -> stats_ok g -> stats_ok g'.
Proof.
  unfold stats_ok, getDropInterval. intros -> -> -> ->. auto.
Qed.

Lemma piece_ok_frame (g g' : Game) :
  board g' = board g -> currentTetromino g' = currentTetromino g ->
  piece_ok g -> piece_ok g'.
Proof. unfold piece_ok. intros -> ->. auto. Qed.

Lemma game_inv_frame (g g' : Game) :
  board g' = board g -> currentTetromino g' = currentTetromino g ->
  score g' = score g -> level g' = level g -> lines g' = lines g ->
  dropInterval g' = dropInterval g -> game_inv g -> game_inv g'.
Proof.
  intros Hb Hc Hs Hl Hn Hd [H1 [H2 H3]]. split; [|split].
  - rewrite Hb. assumption.
  - eapply stats_ok_frame; eauto.
  - eapply piece_ok_frame; eauto.
Qed.

Lemma game_inv_initial : game_inv initialState.
Proof.
  split; [apply initial_board_ok|]. split.
  - unfold stats_ok. cbn. repeat split; lia.
  - intros t H. discriminate.
Qed.

Lemma stats_ok_addScore (g : Game) (p n : Z) :
  0 <= p -> 0 <= n -> stats_ok g ->
  exists g',
    addScore (VNumber p) (VNumber n) g = (Ret tt, g') /\ stats_ok g' /\
    board g' = board g /\ currentTetromino g' = currentTetromino g /\
    paused g' = paused g /\ gameOver g' = gameOver g.
Proof.
  intros Hp Hn [Hs [Hl [Hlv Hd]]].
  rewrite addScore_accepted by assumption. eexists. split; [reflexivity|].
  cbv zeta.
  assert (Hmono : lines g / 10 <= (lines g + n) / 10) by (apply Z.div_le_mono; lia).
  destruct (Z.gtb_spec ((lines g + n) / 10 + 1) (level g)); cbn.
  - repeat split; cbn; try reflexivity; lia.
  - repeat split; cbn; try reflexivity; try lia.
    rewrite Hd. reflexivity.
Qed.

Lemma board_ok_zero : (fun v : Z => 0 <= v <= 7) 0.
Proof. cbv beta. lia. Qed.

(** [processLineClearing] on a game with a well-formed board. *)
Lemma processLineClearing_inv (g : Game) :
  board_ok (board g) -> stats_ok g ->
  exists g',
    processLineClearing g = (Ret tt, g') /\
    board_ok (board g') /\ stats_ok g' /\
    currentTetromino g' = currentTetromino g /\
    paused g' = paused g /\ gameOver g' = gameOver g.
Proof.
  intros Hb Hs. rewrite processLineClearing_eq. cbv zeta.
  set (L := checkFullLines (board g)).
  destruct (len L >? 0).
  - assert (Hb' : board_ok (dropLinesDown (zeroed L 0 (board g)) L)).
    { apply wf_dropLinesDown; [apply board_ok_zero|].
      pose proof (wf_clearLines _ BOARD_WIDTH BOARD_HEIGHT board_ok_zero L
                    (board g) Hb) as H.
      rewrite (clearLines_spec L (board g) (checkFullLines_valid (board g))) in H.
      exact H. }
    destruct (stats_ok_addScore
                (set_board (dropLinesDown (zeroed L 0 (board g)) L) g)
                (calculateScore (len L) (level g)) (len L))
      as [g' [E [Hs' [Hbd [Hc [Hp Ho]]]]]].
    + apply calculateScore_nonneg.
    + unfold len. lia.
    + eapply stats_ok_frame; [..|exact Hs]; reflexivity.
    + exists g'. split; [exact E|]. rewrite Hbd. cbn in *. auto.
  - exists g. auto 10.
Qed.

Lemma spawnNewTetromino_inv (g : Game) (rnd : nat) :
  game_inv g ->
  exists r g',
    spawnNewTetromino rnd g = (Ret r, g') /\ game_inv g' /\ paused g' = paused g.
Proof.
  intros [Hb [Hs Hp]].
  destruct (spawnNewTetromino_cases g rnd) as [t [Et Hc]].
  destruct (checkCollision_returns (board g) (shape t) (x t) (y t) 0 0
              (board_ok_nonempty _ Hb)) as [[|] Er]; rewrite Er in Hc.
  - do 2 eexists. split; [exact Hc|]. split; [|reflexivity].
    apply (game_inv_frame g); try reflexivity. split; auto.
  - do 2 eexists. split; [exact Hc|]. split; [|reflexivity].
    split; [exact Hb|]. split.
    + eapply stats_ok_frame; [..|exact Hs]; reflexivity.
    + intros t' H. cbn in H. injection H as <-. split; [|exact Er].
      destruct (createTetromino_fields _ _ Et) as [_ [Hy [Hr _]]].
      exists rnd, t. repeat split; try assumption. lia.
Qed.

Lemma fixTetrominoToBoard_inv (g : Game) (rnd : nat) :
  board_ok (board g) -> stats_ok g -> piece_typed g ->
  (forall t, currentTetromino g = Some t -> shape t <> None) ->
  exists g',
    fixTetrominoToBoard rnd g = (Ret tt, g') /\ game_inv g' /\ paused g' = paused g.
Proof.
  intros Hb Hs Hty Hsh. unfold fixTetrominoToBoard, bind at 1, get.
  destruct (currentTetromino g) as [t|] eqn:Ec.
  - destruct (shape t) as [rows|] eqn:Esh; [|exfalso; apply (Hsh t eq_refl Esh)].
    unfold bind at 1, on_board, modify. cbv beta iota zeta.
    set (g1 := set_board _ g).
    assert (Hb1 : board_ok (board g1)).
    { unfold g1. cbn. apply wf_stampRows; [|exact Hb].
      pose proof (getTetrominoColorValue_range (type t) (Hty t Ec)). lia. }
    destruct (processLineClearing_inv g1 Hb1) as [g2 [E2 [Hb2 [Hs2 [_ [Hp2 _]]]]]].
    { eapply stats_ok_frame; [..|exact Hs]; reflexivity. }
    unfold bind at 1. rewrite E2. unfold bind at 1, modify.
    destruct (spawnNewTetromino_inv (set_currentTetromino None g2) rnd)
      as [r [g3 [E3 [H3 Hp3]]]].
    { split; [exact Hb2|]. split.
      - eapply stats_ok_frame; [..|exact Hs2]; reflexivity.
      - intros t' H. discriminate. }
    unfold bind. rewrite E3. exists g3. split; [reflexivity|]. split; [exact H3|].
    rewrite Hp3. cbn. rewrite Hp2. reflexivity.
  - exists g. split; [reflexivity|]. split; [|reflexivity].
    split; [exact Hb|]. split; [exact Hs|].
    intros t H. congruence.
Qed.

Lemma spawned_shape (t : Tetromino) : spawned t -> shape t <> None.
Proof.
  intros [rnd [t0 [E [_ [Hs _]]]]].
  destruct (createTetromino_fields _ _ E) as [_ [_ [_ [rows Hr]]]]. congruence.
Qed.

Lemma dropCurrentTetromino_inv (g : Game) (rnd : nat) :
  game_inv g ->
  exists g',
    dropCurrentTetromino rnd g = (Ret tt, g') /\ game_inv g' /\ paused g' = paused g.
Proof.
  intros [Hb [Hs Hp]]. unfold dropCurrentTetromino, bind at 1, get.
  destruct (currentTetromino g) as [t|] eqn:Ec.
  - destruct (Hp t Ec) as [Hsp Hfree].
    destruct (checkCollision_returns (board g) (shape t) (x t) (y t + 1) 0 0
                (board_ok_nonempty _ Hb)) as [[|] Er];
      unfold bind, lift; rewrite Er; cbn [negb].
    + apply fixTetrominoToBoard_inv; try assumption.
      * intros t' H. rewrite Ec in H. injection H as <-.
        destruct Hsp as [r [t0 [E [H1 _]]]]. rewrite H1.
        exact (createTetromino_draw_type r t0 E).
      * intros t' H. rewrite Ec in H. injection H as <-. apply spawned_shape.
        exact Hsp.
    + eexists. split; [reflexivity|]. split; [|reflexivity].
      split; [exact Hb|]. split.
      * eapply stats_ok_frame; [..|exact Hs]; reflexivity.
      * intros t' H. cbn in H. injection H as <-. cbn. split; [|exact Er].
        destruct Hsp as [r [t0 [E [H1 [H2 [H3 [H4 H5]]]]]]].
        exists r, t0. cbn. repeat split; try assumption. lia.
  - exists g. split; [reflexivity|]. split; [|reflexivity]. split; auto.
Qed.

Lemma validate_stats_ok (g : Game) :
  stats_ok g -> validateAndFixGameState g = (Ret tt, g).
Proof.
  intros [Hs [Hl [Hlv _]]].
  assert (1 <= level g).
  { assert (0 <= lines g / 10) by (apply Z.div_pos; lia). lia. }
  unfold validateAndFixGameState, bind, modify. cbn.
  destruct (Z.ltb_spec (level g) 1); [lia|].
  destruct (Z.ltb_spec (score g) 0); [lia|].
  destruct (Z.ltb_spec (lines g) 0); [lia|]. reflexivity.
Qed.

Lemma update_inv (g : Game) (t : Z) (rnd : nat) :
  game_inv g ->
  exists g',
    update t rnd g = (Ret tt, g') /\ game_inv g' /\ paused g' = paused g.
Proof.
  intros Hinv. pose proof Hinv as [Hb [Hs Hp]].
  unfold update, try_catch, bind at 1.
  rewrite (validate_stats_ok g Hs). unfold bind at 1, get.
  destruct (paused g || gameOver g).
  - exists g. auto.
  - destruct (currentTetromino g) as [c|] eqn:Ec.
    + unfold bind at 1. rewrite shouldDropTetromino_eq.
      destruct (paused g || gameOver g); [(exists g; split; [reflexivity|auto])|].
      destruct (t - lastDropTime g <? dropInterval g); [(exists g; split; [reflexivity|auto])|].
      destruct (dropCurrentTetromino_inv (set_lastDropTime t g) rnd)
        as [g' [E [H1 H2]]].
      { apply (game_inv_frame g); try reflexivity. exact Hinv. }
      rewrite E. exists g'. auto.
    + destruct (spawnNewTetromino_inv g rnd Hinv) as [r [g' [E [H1 H2]]]].
      unfold bind. rewrite E. exists g'. auto.
Qed.

Lemma render_frame (g : Game) : exists calls, render g = (Ret calls, g).
Proof.
  unfold render, bind, get. cbv beta iota.
  destruct (paused g); eexists; reflexivity.
Qed.

Lemma moveTo_inv (newX : Tetromino -> Z) (g : Game) :
  game_inv g ->
  exists g', moveTo newX g = (Ret tt, g') /\ game_inv g' /\ paused g' = paused g.
Proof.
  intros Hinv. pose proof Hinv as [Hb [Hs Hp]].
  unfold moveTo, bind at 1, get.
  destruct (currentTetromino g) as [t|] eqn:Ec; [|(exists g; split; [reflexivity|auto])].
  destruct (paused g) eqn:Epa; cbn [negb]; [(exists g; split; [reflexivity|auto])|].
  destruct (checkCollision_returns (board g) (shape t) (newX t) (y t) 0 0
              (board_ok_nonempty _ Hb)) as [[|] Er];
    unfold bind, lift; rewrite Er; cbn [negb]; [(exists g; split; [reflexivity|auto])|].
  eexists. split; [reflexivity|]. split; [|exact Epa].
  split; [exact Hb|]. split.
  - eapply stats_ok_frame; [..|exact Hs]; reflexivity.
  - intros t' H. cbn in H. injection H as <-. cbn. split; [|exact Er].
    destruct (Hp t Ec) as [[r [t0 H0]] _]. exists r, t0. exact H0.
Qed.

Lemma togglePause_inv (g : Game) :
  game_inv g -> exists g', appTogglePause g = (Ret tt, g') /\ game_inv g'.
Proof.
  intros Hinv. eexists. split; [reflexivity|].
  apply (game_inv_frame g); try reflexivity. exact Hinv.
Qed.

Lemma restart_inv (g : Game) (rnd : nat) :
  exists g', restart rnd g = (Ret tt, g') /\ game_inv g'.
Proof.
  destruct (spawnNewTetromino_inv initialState rnd game_inv_initial)
    as [r [g' [E [H _]]]].
  exists g'. split; [|exact H].
  unfold restart, reset, initializeGameState, bind, put. rewrite E. reflexivity.
Qed.

Lemma handle_inv (e : event) (g : Game) :
  game_inv g -> exists g', handle e g = (Ret tt, g') /\ game_inv g'.
Proof.
  intros Hinv. destruct e as [code rnd| |rnd| |t rnd]; cbn [handle].
  - assert (Hsame : exists g', ret tt g = (Ret tt, g') /\ game_inv g')
      by (exists g; split; [reflexivity|assumption]).
    assert (Hmove : forall newX, exists g', moveTo newX g = (Ret tt, g') /\ game_inv g').
    { intros newX. destruct (moveTo_inv newX g Hinv) as [g' [E [H _]]]. eauto. }
    unfold handleKeyDown, bind at 1, get.
    destruct (gameOver g); [exact Hsame|].
    destruct (String.eqb code "ArrowLeft"); [apply Hmove|].
    destruct (String.eqb code "ArrowRight"); [apply Hmove|].
    destruct (String.eqb code "ArrowDown").
    { unfold softDrop, bind at 1, get.
      destruct (currentTetromino g); [|exact Hsame].
      destruct (paused g); cbn [negb]; [exact Hsame|].
      destruct (dropCurrentTetromino_inv g rnd Hinv) as [g' [E [H _]]]. eauto. }
    destruct (String.eqb code "ArrowUp"); [exact Hsame|].
    destruct (String.eqb code "KeyX"); [exact Hsame|].
    destruct (String.eqb code "KeyZ"); [exact Hsame|].
    destruct (String.eqb code "Space"); [exact Hsame|].
    destruct (String.eqb code "KeyP"); [apply togglePause_inv; assumption|].
    destruct (String.eqb code "KeyR"); [apply restart_inv|].
    exact Hsame.
  - apply togglePause_inv. assumption.
  - apply restart_inv.
  - unfold onBlur, bind at 1, get.
    destruct (paused g); cbn [negb]; [(exists g; split; [reflexivity|auto])|].
    apply togglePause_inv. assumption.
  - unfold gameLoop, bind at 1.
    destruct (update_inv g t rnd Hinv) as [g' [E [H _]]]. rewrite E.
    destruct (render_frame g') as [calls Er]. unfold bind. rewrite Er.
    exists g'. auto.
Qed.

Lemma app_reachable_inv (g : Game) : app_reachable g -> game_inv g.
Proof.
  induction 1 as [rnd|e g Hg IH].
  - destruct (spawnNewTetromino_inv initialState rnd game_inv_initial)
      as [r [g' [E [H _]]]].
    unfold exec. rewrite E. exact H.
  - destruct (handle_inv e g IH) as [g' [E H]]. unfold exec. rewrite E. exact H.
Qed.

Lemma board_ok_grid (b : Board) : board_ok b -> grid b /\ width b = 10 /\ height b = 20.
Proof.
  intros [Hlen HF]. destruct b as [|row0 rest]; [discriminate|].
  assert (Hr0 : length row0 = BOARD_WIDTH) by (apply Forall_inv in HF; tauto).
  split; [|split].
  - split; [discriminate|]. cbn [hd]. rewrite Hr0.
    eapply Forall_impl; [|exact HF]. intros row [H _]. exact H.
  - unfold width, len. cbn [hd]. rewrite Hr0. reflexivity.
  - unfold height, len. rewrite Hlen. reflexivity.
Qed.

Lemma reachable_inv (g : Game) : reachable g -> game_inv g.
Proof.
  induction 1 as [|m g Hg IH Hm]; [apply game_inv_initial|].
  destruct m; try discriminate Hm; cbn [call]; unfold exec.
  - apply (game_inv_frame g); try reflexivity. exact IH.
  - apply game_inv_initial.
  - destruct (spawnNewTetromino_inv g rnd IH) as [r [g' [E [H _]]]].
    rewrite E. exact H.
  - destruct (update_inv g currentTime rnd IH) as [g' [E [H _]]].
    rewrite E. exact H.
  - destruct (render_frame g) as [calls E]. rewrite E. exact IH.
Qed.

Lemma piece_cells_free (g : Game) (t : Tetromino) (rows : Shape) :
  game_inv g -> currentTetromino g = Some t -> shape t = Some rows ->
  forall r c, filledAt rows r c ->
    0 <= x t + Z.of_nat c < 10 /\ 0 <= y t + Z.of_nat r < 20 /\
    cellAt (board g) (y t + Z.of_nat r) (x t + Z.of_nat c) = Some 0.
Proof.
  intros [Hb [_ Hp]] Ec Esh.
  destruct (Hp t Ec) as [Hsp Hfree].
  destruct (board_ok_grid _ Hb) as [Hgrid [Hw Hh]].
  rewrite Esh in Hfree.
  destruct (collisionRows_spec (board g) Hgrid (x t) (y t) 0 0 rows 0)
    as [res [Eres Hres]].
  assert (Hres' : res = false).
  { destruct rows as [|cells rest]; cbn [checkCollision] in Hfree.
    - cbn in Eres. congruence.
    - congruence. }
  subst res. intros r c Hfilled.
  assert (Hno : ~ hits (board g) (x t + Z.of_nat c) (y t + Z.of_nat r)).
  { intros Hhit. assert (false = true); [|discriminate].
    apply Hres. exists r, c. split; [exact Hfilled|].
    cbn [Nat.add]. replace (x t + Z.of_nat c + 0) with (x t + Z.of_nat c) by lia.
    replace (y t + Z.of_nat r + 0) with (y t + Z.of_nat r) by lia. exact Hhit. }
  unfold hits in Hno. rewrite Hw, Hh in Hno.
  assert (Hy : 0 <= y t) by (destruct Hsp as [? [? [_ [_ [_ [_ [_ H]]]]]]]; exact H).
  assert (HX : 0 <= x t + Z.of_nat c < 10) by lia.
  assert (HY : 0 <= y t + Z.of_nat r < 20) by lia.
  split; [exact HX|]. split; [exact HY|].
  unfold cellAt.
  destruct (arr_get_Some (board g) (y t + Z.of_nat r)) as [row [Eg En]].
  { fold (height (board g)). lia. }
  rewrite Eg.
  pose proof (grid_row_length _ _ _ Hgrid En) as Hlen.
  destruct (arr_get_Some row (x t + Z.of_nat c)) as [v [Ev _]]; [lia|].
  rewrite Ev. destruct (Z.eq_dec v 0) as [->|Hv]; [reflexivity|].
  exfalso. apply Hno. right; right; right. split; [lia|].
  exists v. split; [|exact Hv]. unfold cellAt. rewrite Eg. exact Ev.
Qed.

(** X19. In every state of the game in the application, and in every
    state a host reaches by the exposed methods, the board is 20 rows of
    10 cells with values 0 to 7, and the current piece, when there is
    one, is a piece of the catalogue in rotation 0 whose filled cells all
    lie on the board, over cells that are empty. *)
Theorem reachable_piece (g : Game) :
  app_reachable g \/ reachable g ->
  board_ok (board g) /\
  forall t,
    currentTetromino g = Some t ->
    spawned t /\
    exists rows, shape t = Some rows /\
    forall r c, filledAt rows r c ->
      0 <= x t + Z.of_nat c < 10 /\ 0 <= y t + Z.of_nat r < 20 /\
      cellAt (board g) (y t + Z.of_nat r) (x t + Z.of_nat c) = Some 0.
Proof.
  intros Hreach.
  assert (Hinv : game_inv g)
    by (destruct Hreach; [apply app_reachable_inv|apply reachable_inv]; assumption).
  split; [apply Hinv|]. intros t Ec.
  pose proof Hinv as [_ [_ Hp]]. destruct (Hp t Ec) as [Hsp _].
  split; [exact Hsp|].
  destruct (shape t) as [rows|] eqn:Esh; [|exfalso; apply (spawned_shape t Hsp Esh)].
  exists rows. split; [reflexivity|].
  apply (piece_cells_free g t rows Hinv Ec Esh).
Qed.

Lemma reachable_piece_witness :
  board_ok (board (exec (handle (Frame 1000 2))
                        (exec (spawnNewTetromino 5) initialState))).
Proof.
  apply reachable_piece. left. apply app_event. apply app_init.
Defined.

(** X20. In every state of the game in the application, and in every
    state a host reaches by the exposed methods, the score and the lines
    are not negative, the level is floor(lines / 10) + 1, so at
    least 1, and the drop interval is the one [getDropInterval] gives for
    the level, between 100 and 1000. *)
Theorem reachable_stats (g : Game) :
  app_reachable g \/ reachable g ->
  0 <= score g /\ 0 <= lines g /\
  level g = lines g / 10 + 1 /\ 1 <= level g /\
  dropInterval g = getDropInterval g /\ 100 <= dropInterval g <= 1000.
Proof.
  intros Hreach.
  assert (Hinv : game_inv g)
    by (destruct Hreach; [apply app_reachable_inv|apply reachable_inv]; assumption).
  destruct Hinv as [_ [[Hs [Hl [Hlv Hd]]] _]].
  assert (0 <= lines g / 10) by (apply Z.div_pos; lia).
  repeat split; try assumption; try lia.
  - rewrite Hd. unfold getDropInterval.
    destruct (level g <=? 1); [lia|]. destruct (level g =? 2); [lia|].
    destruct (level g <=? 5); [lia|]. destruct (Z.geb_spec (level g) 10); [lia|].
    destruct (Z.leb_spec (level g) 4); lia.
  - rewrite Hd. unfold getDropInterval.
    destruct (Z.leb_spec (level g) 1); [lia|]. destruct (Z.eqb_spec (level g) 2); [lia|].
    destruct (Z.leb_spec (level g) 5); [lia|]. destruct (Z.geb_spec (level g) 10); [lia|].
    destruct (Z.leb_spec (level g) 4); lia.
Qed.

Lemma reachable_stats_witness :
  1 <= level (exec (handle (KeyDown "ArrowDown" 0))
                   (exec (spawnNewTetromino 3) initialState)).
Proof.
  apply reachable_stats. left. apply app_event. apply app_init.
Defined.

(** X21. In a state of the running game no event makes the handlers
    throw, and [update] does not reach its [catch]: it returns and leaves
    [paused] as it is. *)
Theorem events_return (g : Game) :
  app_reachable g ->
  (forall e, exists g', handle e g = (Ret tt, g') /\ app_reachable g') /\
  (forall t rnd, exists g', update t rnd g = (Ret tt, g') /\ paused g' = paused g).
Proof.
  intros Hreach. pose proof (app_reachable_inv g Hreach) as Hinv. split.
  - intros e. destruct (handle_inv e g Hinv) as [g' [E _]].
    exists g'. split; [exact E|].
    replace g' with (exec (handle e) g) by (unfold exec; rewrite E; reflexivity).
    apply app_event. exact Hreach.
  - intros t rnd. destruct (update_inv g t rnd Hinv) as [g' [E [_ Hp]]].
    exists g'. auto.
Qed.

Lemma events_return_witness :
  exists g',
    handle (KeyDown "ArrowLeft" 0) (exec (spawnNewTetromino 1) initialState)
    = (Ret tt, g') /\ app_reachable g'.
Proof.
  apply (proj1 (events_return (exec (spawnNewTetromino 1) initialState)
                  (app_init 1)) (KeyDown "ArrowLeft" 0)).
Defined.

(** X22. After game over no key changes the game, not the key R of the
    restart either; while the game is paused the keys that move, drop or
    turn the piece change nothing. *)
Theorem handleKeyDown_stopped (g : Game) (code : string) (rnd : nat) :
  (gameOver g = true -> handleKeyDown code rnd g = (Ret tt, g)) /\
  (paused g = true -> code <> "KeyP" -> code <> "KeyR" ->
   handleKeyDown code rnd g = (Ret tt, g)).
Proof.
  split.
  - intros H. unfold handleKeyDown, bind, get. rewrite H. reflexivity.
  - intros Hp HP HR. unfold handleKeyDown, bind at 1, get.
    destruct (gameOver g); [reflexivity|].
    assert (Hmove : forall newX, moveTo newX g = (Ret tt, g)).
    { intros newX. unfold moveTo, bind, get. rewrite Hp.
      destruct (currentTetromino g); reflexivity. }
    destruct (String.eqb code "ArrowLeft"); [apply Hmove|].
    destruct (String.eqb code "ArrowRight"); [apply Hmove|].
    destruct (String.eqb code "ArrowDown").
    { unfold softDrop, bind, get. rewrite Hp. destruct (currentTetromino g); reflexivity. }
    destruct (String.eqb code "ArrowUp"); [reflexivity|].
    destruct (String.eqb code "KeyX"); [reflexivity|].
    destruct (String.eqb code "KeyZ"); [reflexivity|].
    destruct (String.eqb code "Space"); [reflexivity|].
    destruct (String.eqb_spec code "KeyP"); [contradiction|].
    destruct (String.eqb_spec code "KeyR"); [contradiction|].
    reflexivity.
Qed.

Lemma handleKeyDown_stopped_witness :
  handleKeyDown "KeyR" 0 (set_gameOver true initialState) =
  (Ret tt, set_gameOver true initialState).
Proof.
  apply (proj1 (handleKeyDown_stopped (set_gameOver true initialState) "KeyR" 0)).
  reflexivity.
Defined.

(** X23. When the current piece does not collide where it is, a move to
    the left that succeeds is undone by a move to the right, and a move
    to the right that succeeds by a move to the left. *)
Theorem moveLeft_moveRight (g : Game) (t : Tetromino) :
  currentTetromino g = Some t -> paused g = false ->
  checkCollision (board g) (shape t) (x t) (y t) 0 0 = Ret false ->
  (checkCollision (board g) (shape t) (x t - 1) (y t) 0 0 = Ret false ->
   exec moveRight (exec moveLeft g) = g /\ exec moveLeft g <> g) /\
  (checkCollision (board g) (shape t) (x t + 1) (y t) 0 0 = Ret false ->
   exec moveLeft (exec moveRight g) = g /\ exec moveRight g <> g).
Proof.
  intros Ec Hp Hfree.
  assert (Hstep : forall d, checkCollision (board g) (shape t) (x t + d) (y t) 0 0 = Ret false ->
            exec (moveTo (fun t0 => x t0 + d)) g =
            set_currentTetromino (Some (set_x (x t + d) t)) g).
  { intros d Hd. unfold exec, moveTo, bind, get, lift, modify.
    rewrite Ec, Hp. cbn [negb]. rewrite Hd. reflexivity. }
  assert (Hback : forall d, d <> 0 ->
            checkCollision (board g) (shape t) (x t + d) (y t) 0 0 = Ret false ->
            exec (moveTo (fun t0 => x t0 - d)) (exec (moveTo (fun t0 => x t0 + d)) g) = g /\
            exec (moveTo (fun t0 => x t0 + d)) g <> g).
  { intros d Hd0 Hd. rewrite (Hstep d Hd). split.
    - unfold exec, moveTo, bind, get, lift, modify. cbn. rewrite Hp. cbn [negb].
      replace (x t + d - d) with (x t) by lia. rewrite Hfree. cbn.
      destruct g; destruct t; cbn in *. subst. reflexivity.
    - intros H. apply (f_equal currentTetromino) in H. cbn in H.
      rewrite Ec in H. injection H as H. apply (f_equal x) in H. cbn in H. lia. }
  split; intros Hd.
  - destruct (Hback (-1)) as [H1 H2]; [lia|exact Hd|].
    split; [|exact H2]. exact H1.
  - destruct (Hback 1) as [H1 H2]; [lia|exact Hd|].
    split; [|exact H2]. exact H1.
Qed.

Lemma moveLeft_moveRight_witness :
  let g := exec (spawnNewTetromino 1) initialState in
  exec moveRight (exec moveLeft g) = g /\ exec moveLeft g <> g.
Proof.
  intros g.
  apply (proj1 (moveLeft_moveRight g
                  (mkTetromino "O" (Some [[1; 1]; [1; 1]]) "yellow" 4 0 0)
                  eq_refl eq_refl eq_refl)).
  reflexivity.
Defined.

(* ================================================================== *)
(** * Locking a piece: what comes after                               *)
(* ================================================================== *)





(* ================================================================== *)
(** * The renderer                                                    *)
(* ================================================================== *)

(** X25. [getBlockColor] gives 'transparent' for a negative value and
    for 0, white for a value above 7, and for the values 1 to 7 seven
    colours of the table that differ from each other, from
    'transparent' and from white.  So the cells of two locked pieces of
    different types are drawn in different colours. *)
Theorem getBlockColor_spec (v v' : Z) :
  (v <= 0 -> getBlockColor v = "transparent") /\
  (7 < v -> getBlockColor v = "#FFFFFF") /\
  (1 <= v <= 7 ->
   getBlockColor v <> "transparent" /\ getBlockColor v <> "#FFFFFF" /\
   (1 <= v' <= 7 -> getBlockColor v = getBlockColor v' -> v = v')) /\
  (forall ty ty', In ty types -> In ty' types ->
     getBlockColor (getTetrominoColorValue ty) =
     getBlockColor (getTetrominoColorValue ty') -> ty = ty').
Proof.
  split; [|split; [|split]].
  - intros H. unfold getBlockColor.
    destruct (Z.ltb_spec v 0); [reflexivity|].
    assert (v = 0) as -> by lia. reflexivity.
  - intros H. unfold getBlockColor.
    destruct (Z.ltb_spec v 0); [lia|].
    unfold blockColorMap, lookupZ.
    repeat (match goal with |- context [?k =? v] =>
              destruct (Z.eqb_spec k v); [lia|] end).
    reflexivity.
  - intros H.
    assert (v = 1 \/ v = 2 \/ v = 3 \/ v = 4 \/ v = 5 \/ v = 6 \/ v = 7)
      as [->|[->|[->|[->|[->|[->| ->]]]]]] by lia;
      (split; [discriminate|]; split; [discriminate|]; intros H';
       assert (v' = 1 \/ v' = 2 \/ v' = 3 \/ v' = 4 \/ v' = 5 \/ v' = 6 \/ v' = 7)
         as [->|[->|[->|[->|[->|[->| ->]]]]]] by lia;
       cbn; intros E; try reflexivity; discriminate E).
  - intros ty ty' H H'.
    repeat (destruct H as [<-|H]; [|]); try contradiction;
      repeat (destruct H' as [<-|H']; [|]); try contradiction;
      cbn; intros E; try reflexivity; discriminate E.
Qed.

Lemma getBlockColor_spec_witness :
  getBlockColor 9 = "#FFFFFF" /\ getBlockColor (-3) = "transparent".
Proof.
  split.
  - apply (proj1 (proj2 (getBlockColor_spec 9 0))). lia.
  - apply (proj1 (getBlockColor_spec (-3) 0)). lia.
Defined.

Section Drawing.

Variable r : Renderer.
Hypothesis Hctx : hasContext r = true.

Lemma drawBoardCols_length (cells : Row) (row : nat) :
  forall col, len (drawBoardCols r cells row col) = countRow cells.
Proof.
  unfold len. induction cells as [|v rest IH]; intros col; cbn [drawBoardCols countRow];
    [reflexivity|].
  rewrite length_app, Nat2Z.inj_add, IH. unfold drawBlock. rewrite Hctx.
  destruct (v =? 0); reflexivity.
Qed.

Lemma drawBoardRows_length (rows : Board) :
  forall row, len (drawBoardRows r rows row) = countFilledBlocks rows.
Proof.
  induction rows as [|cells rest IH]; intros row;
    cbn [drawBoardRows countFilledBlocks]; [reflexivity|].
  unfold len in *. rewrite length_app, Nat2Z.inj_add, IH.
  rewrite <- (drawBoardCols_length cells row 0). reflexivity.
Qed.

Lemma drawBoardCols_In (cells : Row) (row : nat) (op : CanvasOp) :
  forall col,
  In op (drawBoardCols r cells row col) <->
  exists k v, nth_error cells k = Some v /\ v <> 0 /\
    op = FillRect (Z.of_nat (col + k) * blockSize r) (Z.of_nat row * blockSize r)
                  (blockSize r) (blockSize r) (getBlockColor v).
Proof.
  induction cells as [|v rest IH]; intros col; cbn [drawBoardCols].
  - split; [contradiction|]. intros [k [v [E _]]]. destruct k; discriminate.
  - rewrite in_app_iff, IH. unfold drawBlock. rewrite Hctx. split.
    + intros [H|[k [u [E [Hu Hop]]]]].
      * destruct (Z.eqb_spec v 0); [contradiction|].
        destruct H as [<-|[]]. exists 0%nat, v. rewrite Nat.add_0_r. auto.
      * exists (S k), u. replace (col + S k)%nat with (S col + k)%nat by lia. auto.
    + intros [[|k] [u [E [Hu Hop]]]]; cbn in E.
      * injection E as <-. left. destruct (Z.eqb_spec v 0); [contradiction|].
        left. rewrite Nat.add_0_r in Hop. congruence.
      * right. exists k, u. replace (S col + k)%nat with (col + S k)%nat by lia. auto.
Qed.

Lemma drawBoardRows_In (rows : Board) (op : CanvasOp) :
  forall row,
  In op (drawBoardRows r rows row) <->
  exists j k cells v,
    nth_error rows j = Some cells /\ nth_error cells k = Some v /\ v <> 0 /\
    op = FillRect (Z.of_nat k * blockSize r) (Z.of_nat (row + j) * blockSize r)
                  (blockSize r) (blockSize r) (getBlockColor v).
Proof.
  induction rows as [|cells rest IH]; intros row; cbn [drawBoardRows].
  - split; [contradiction|]. intros [j [k [cs [v [E _]]]]]. destruct j; discriminate.
  - rewrite in_app_iff, IH, drawBoardCols_In. split.
    + intros [[k [v [E [Hv Hop]]]]|[j [k [cs [v [E1 [E2 [Hv Hop]]]]]]]].
      * exists 0%nat, k, cells, v. rewrite Nat.add_0_r. cbn [Nat.add] in Hop. auto.
      * exists (S j), k, cs, v.
        replace (row + S j)%nat with (S row + j)%nat by lia. auto.
    + intros [[|j] [k [cs [v [E1 [E2 [Hv Hop]]]]]]]; cbn in E1.
      * injection E1 as <-. left. exists k, v. rewrite Nat.add_0_r in Hop. auto.
      * right. exists j, k, cs, v.
        replace (S row + j)%nat with (row + S j)%nat by lia. auto.
Qed.

Lemma drawShapeCols_length (cells : list Z) (x Y : Z) (color : string) :
  forall col, len (drawShapeCols r cells col x Y color) = countRow cells.
Proof.
  unfold len. induction cells as [|v rest IH]; intros col;
    cbn [drawShapeCols countRow]; [reflexivity|].
  rewrite length_app, Nat2Z.inj_add, IH. unfold drawBlock. rewrite Hctx.
  destruct (v =? 0); reflexivity.
Qed.

Lemma drawShapeRows_length (rows : Shape) (x y : Z) (color : string) :
  forall row, len (drawShapeRows r rows row x y color) = countFilledBlocks rows.
Proof.
  induction rows as [|cells rest IH]; intros row;
    cbn [drawShapeRows countFilledBlocks]; [reflexivity|].
  unfold len in *. rewrite length_app, Nat2Z.inj_add, IH.
  rewrite <- (drawShapeCols_length cells x (y + Z.of_nat row) color 0). reflexivity.
Qed.

End Drawing.

Lemma drawBoard_no_context (r : Renderer) (b : Board) :
  hasContext r = false -> drawBoard r b = [].
Proof.
  intros H. unfold drawBoard. generalize 0%nat.
  induction b as [|cells rest IH]; intros row; cbn [drawBoardRows]; [reflexivity|].
  rewrite IH, app_nil_r. generalize 0%nat.
  induction cells as [|v tl IHc]; intros col; cbn [drawBoardCols]; [reflexivity|].
  rewrite IHc. unfold drawBlock. rewrite H. destruct (v =? 0); reflexivity.
Qed.

(** X26. [drawBoard] draws one square for each cell of the board that is
    not 0, at the cell's column and row times the block size and in the
    colour of the cell's value, and nothing else; the number of squares
    is what [countFilledBlocks] counts.  A renderer whose canvas gave no
    context draws nothing. *)
Theorem drawBoard_spec (r : Renderer) (b : Board) :
  (hasContext r = false -> drawBoard r b = []) /\
  (hasContext r = true ->
   len (drawBoard r b) = countFilledBlocks b /\
   forall op,
     In op (drawBoard r b) <->
     exists row col v,
       cellAt b (Z.of_nat row) (Z.of_nat col) = Some v /\ v <> 0 /\
       op = FillRect (Z.of_nat col * blockSize r) (Z.of_nat row * blockSize r)
                     (blockSize r) (blockSize r) (getBlockColor v)).
Proof.
  split; [apply drawBoard_no_context|].
  intros Hctx. split; [apply drawBoardRows_length; assumption|].
  intros op. unfold drawBoard. rewrite (drawBoardRows_In r Hctx). split.
  - intros [j [k [cells [v [E1 [E2 [Hv Hop]]]]]]].
    exists j, k, v. rewrite cellAt_nat, E1. auto.
  - intros [row [col [v [E [Hv Hop]]]]]. rewrite cellAt_nat in E.
    destruct (nth_error b row) as [cells|] eqn:E1; [|discriminate].
    exists row, col, cells, v. auto.
Qed.

Lemma drawBoard_spec_witness :
  len (drawBoard (mkRenderer 20 true 200 400) [[0; 3]; [5; 5]]) = 3 /\
  drawBoard (mkRenderer 20 false 200 400) [[0; 3]; [5; 5]] = [].
Proof.
  split.
  - apply (proj2 (drawBoard_spec (mkRenderer 20 true 200 400) [[0; 3]; [5; 5]])).
    reflexivity.
  - apply (proj1 (drawBoard_spec (mkRenderer 20 false 200 400) [[0; 3]; [5; 5]])).
    reflexivity.
Defined.

Lemma spawned_four_cells (t : Tetromino) (rows : Shape) :
  spawned t -> shape t = Some rows -> countFilledBlocks rows = 4.
Proof.
  intros [rnd [t0 [E [_ [Hs _]]]]] Esh. rewrite Hs in Esh.
  do 7 (destruct rnd as [|rnd];
        [vm_compute in E; injection E as <-; cbn in Esh; injection Esh as <-;
         reflexivity|]).
  destruct rnd; vm_compute in E; injection E as <-; cbn in Esh; injection Esh as <-;
    reflexivity.
Qed.

(** X27. What a frame puts on the canvas.  While the game is paused
    [render] draws nothing, so the canvas keeps the last frame;
    otherwise it clears the canvas, draws the board and draws the
    current piece, in this order, and writes no field of the game.  In
    a state of the running game with a renderer that has a context, the
    frame is one clear, one square per locked cell and, with a current
    piece, four squares more. *)
Theorem renderOn_spec (r : Renderer) (g : Game) :
  (paused g = true -> renderOn r g = []) /\
  (paused g = false ->
   renderOn r g =
   clear r ++ drawBoard r (board g) ++ drawTetromino r (currentTetromino g)) /\
  exec render g = g /\
  (paused g = false -> hasContext r = true -> app_reachable g \/ reachable g ->
   len (renderOn r g) =
   1 + countFilledBlocks (board g)
   + match currentTetromino g with Some _ => 4 | None => 0 end).
Proof.
  assert (Hrun : paused g = false ->
            renderOn r g =
            clear r ++ drawBoard r (board g) ++ drawTetromino r (currentTetromino g)).
  { intros H. unfold renderOn, render, bind, get. cbv beta iota. rewrite H.
    cbn [ret]. destruct (currentTetromino g); cbn [map concat perform app];
      rewrite ?app_nil_r; reflexivity. }
  split; [|split; [exact Hrun|split]].
  - intros H. unfold renderOn, render, bind, get. cbv beta iota. rewrite H. reflexivity.
  - unfold exec, render, bind, get. cbv beta iota. destruct (paused g); reflexivity.
  - intros Hp Hctx Hreach. rewrite (Hrun Hp).
    assert (Hinv : game_inv g)
      by (destruct Hreach; [apply app_reachable_inv|apply reachable_inv]; assumption).
    pose proof (drawBoardRows_length r Hctx (board g) 0) as Hboard.
    unfold len in *. rewrite !length_app, !Nat2Z.inj_add.
    unfold drawBoard. rewrite Hboard.
    unfold clear. rewrite Hctx. cbn [length].
    destruct (currentTetromino g) as [t|] eqn:Ec;
      [|cbn [drawTetromino length]; unfold Board, Row in *; lia].
    destruct Hinv as [_ [_ Hpiece]]. destruct (Hpiece t Ec) as [Hsp _].
    unfold drawTetromino.
    destruct (shape t) as [rows|] eqn:Esh; [|exfalso; apply (spawned_shape t Hsp Esh)].
    pose proof (drawShapeRows_length r Hctx rows (x t) (y t) (color t) 0) as Hshape.
    unfold len in Hshape. rewrite Hshape.
    rewrite (spawned_four_cells t rows Hsp Esh). unfold Board, Row in *. lia.
Qed.

Lemma renderOn_spec_witness :
  len (renderOn (mkRenderer 20 true 200 400)
                (exec (spawnNewTetromino 0) initialState)) = 5 /\
  renderOn (mkRenderer 20 true 200 400) (set_paused true initialState) = [].
Proof.
  split.
  - apply (proj2 (proj2 (proj2 (renderOn_spec (mkRenderer 20 true 200 400)
                                  (exec (spawnNewTetromino 0) initialState)))));
      [reflexivity|reflexivity|left; apply app_init].
  - apply (proj1 (renderOn_spec (mkRenderer 20 true 200 400)
                    (set_paused true initialState))).
    reflexivity.
Defined.

(* ================================================================== *)
(** * The helpers of the tests                                        *)
(* ================================================================== *)

Lemma cellsLoop_eq (r1 r2 : Row) :
  length r1 = length r2 -> (cellsLoop r1 r2 = true <-> r1 = r2).
Proof.
  revert r2. induction r1 as [|v1 t1 IH]; intros [|v2 t2] Hlen; simpl in *;
    try discriminate.
  - split; reflexivity.
  - destruct (Z.eqb_spec v1 v2) as [->|Hne]; cbn [negb].
    + rewrite IH by lia. split; [intros ->; reflexivity|intros H; congruence].
    + split; [discriminate|intros H; congruence].
Qed.

Lemma rowsLoop_eq (b1 b2 : Board) :
  length b1 = length b2 -> (rowsLoop b1 b2 = true <-> b1 = b2).
Proof.
  revert b2. induction b1 as [|r1 t1 IH]; intros [|r2 t2] Hlen; simpl in *;
    try discriminate.
  - split; reflexivity.
  - destruct (Nat.eqb_spec (length r1) (length r2)) as [Hl|Hl]; cbn [negb].
    + destruct (cellsLoop r1 r2) eqn:Ec.
      * apply (cellsLoop_eq r1 r2 Hl) in Ec. subst r2.
        rewrite IH by lia. split; [intros ->; reflexivity|intros H; congruence].
      * split; [discriminate|]. intros H. injection H as -> _.
        assert (cellsLoop r2 r2 = true) by (apply cellsLoop_eq; reflexivity).
        congruence.
    + split; [discriminate|]. intros H. injection H as -> _. congruence.
Qed.

(** X28. [boardsEqual] decides the equality of two boards: it returns
    [true] exactly when they have the same rows with the same cells, also
    for boards whose rows differ in length. *)
Theorem boardsEqual_spec (b1 b2 : Board) :
  boardsEqual b1 b2 = true <-> b1 = b2.
Proof.
  unfold boardsEqual.
  destruct (Nat.eqb_spec (length b1) (length b2)) as [Hl|Hl]; cbn [negb].
  - apply rowsLoop_eq. assumption.
  - split; [discriminate|]. intros ->. congruence.
Qed.

(* ================================================================== *)
(** * A falling piece is locked                                       *)
(* ================================================================== *)

Lemma countFilledBlocks_filled (rows : Shape) :
  0 < countFilledBlocks rows -> exists r c, filledAt rows r c.
Proof.
  intros H. apply forallb_zero_filled.
  destruct (forallb (forallb (fun v => v =? 0)) rows) eqn:E; [|reflexivity].
  exfalso. revert H. induction rows as [|cells rest IH]; simpl in *; [lia|].
  apply andb_true_iff in E. destruct E as [E1 E2].
  assert (countRow cells = 0).
  { clear -E1. induction cells as [|v tl IHc]; simpl in *; [reflexivity|].
    apply andb_true_iff in E1. destruct E1 as [-> E1]. rewrite IHc by assumption.
    reflexivity. }
  intros H1. apply (IH E2). lia.
Qed.

Lemma piece_above_floor (g : Game) (t : Tetromino) :
  game_inv g -> currentTetromino g = Some t -> 0 <= y t < 20.
Proof.
  intros Hinv Ec. pose proof Hinv as [_ [_ Hp]]. destruct (Hp t Ec) as [Hsp _].
  destruct (shape t) as [rows|] eqn:Esh; [|exfalso; apply (spawned_shape t Hsp Esh)].
  destruct (countFilledBlocks_filled rows) as [r [c Hf]].
  { rewrite (spawned_four_cells t rows Hsp Esh). lia. }
  destruct (piece_cells_free g t rows Hinv Ec Esh r c Hf) as [_ [H _]].
  destruct Hsp as [? [? [_ [_ [_ [_ [_ Hy]]]]]]]. lia.
Qed.

Lemma lowered_lowered (d d' : Z) (t : Tetromino) :
  lowered d (lowered d' t) = lowered (d' + d) t.
Proof. unfold lowered. cbn. f_equal. lia. Qed.

Lemma set_current_same (g : Game) (t : Tetromino) :
  currentTetromino g = Some t ->
  set_currentTetromino (Some (lowered 0 t)) g = g.
Proof.
  intros E. destruct g; destruct t; cbn in *. subst. unfold lowered, set_currentTetromino.
  cbn. rewrite Z.add_0_r. reflexivity.
Qed.

(** X29. In a state that has the invariant of the running game a piece
    cannot fall for ever:
    after fewer than 20 - y calls of [dropCurrentTetromino] that move it
    down by one row each, and change nothing else, the next call locks
    it with [fixTetrominoToBoard]. *)
Theorem drop_locks (rnd : nat) (g : Game) (t : Tetromino) :
  game_inv g -> currentTetromino g = Some t ->
  exists k : nat,
    Z.of_nat k < 20 - y t /\
    (forall j, (j <= k)%nat ->
       dropTimes j rnd g =
       set_currentTetromino (Some (lowered (Z.of_nat j) t)) g) /\
    dropTimes (S k) rnd g =
    exec (fixTetrominoToBoard rnd)
         (set_currentTetromino (Some (lowered (Z.of_nat k) t)) g).
Proof.
  remember (Z.to_nat (20 - y t)) as n eqn:En.
  revert g t En. induction n as [|n IH]; intros g t En Hinv Ec.
  - pose proof (piece_above_floor g t Hinv Ec). lia.
  - pose proof (piece_above_floor g t Hinv Ec) as Hy.
    pose proof Hinv as [Hb [Hs Hp]]. destruct (Hp t Ec) as [Hsp Hfree].
    destruct (checkCollision_returns (board g) (shape t) (x t) (y t + 1) 0 0
                (board_ok_nonempty _ Hb)) as [[|] Er].
    + (* the piece lies on something: it is locked now *)
      exists 0%nat. split; [lia|]. split.
      * intros j Hj. assert (j = 0)%nat as -> by lia. cbn [dropTimes Z.of_nat].
        symmetry. apply set_current_same. exact Ec.
      * cbn [dropTimes Z.of_nat]. rewrite (set_current_same g t Ec).
        unfold exec at 1, dropCurrentTetromino, bind, get, lift.
        rewrite Ec, Er. reflexivity.
    + (* the piece moves down by one row *)
      set (g1 := set_currentTetromino (Some (move_down t)) g).
      assert (E1 : exec (dropCurrentTetromino rnd) g = g1).
      { unfold exec, dropCurrentTetromino, bind, get, lift, modify.
        rewrite Ec, Er. reflexivity. }
      assert (Hinv1 : game_inv g1).
      { split; [exact Hb|]. split.
        - eapply stats_ok_frame; [..|exact Hs]; reflexivity.
        - intros t' H. cbn in H. injection H as <-. cbn. split; [|exact Er].
          destruct Hsp as [r [t0 [E [H1 [H2 [H3 [H4 H5]]]]]]].
          exists r, t0. cbn. repeat split; try assumption. lia. }
      destruct (IH g1 (move_down t)) as [k [Hk [Hmove Hlock]]].
      * unfold move_down. cbn [y]. lia.
      * exact Hinv1.
      * reflexivity.
      * assert (Hlow : forall j,
                  set_currentTetromino (Some (lowered (Z.of_nat j) (move_down t))) g1 =
                  set_currentTetromino (Some (lowered (Z.of_nat (S j)) t)) g).
        { intros j. unfold g1, set_currentTetromino, lowered, move_down. cbn.
          do 2 f_equal. f_equal. lia. }
        exists (S k). split; [unfold move_down in Hk; cbn [y] in Hk; lia|]. split.
        -- intros [|j] Hj.
           ++ cbn [dropTimes Z.of_nat]. symmetry. apply set_current_same. exact Ec.
           ++ cbn [dropTimes]. rewrite E1, Hmove by lia. apply Hlow.
        -- cbn [dropTimes]. rewrite E1. cbn [dropTimes] in Hlock.
           rewrite Hlock, Hlow. reflexivity.
Qed.

Lemma drop_locks_witness :
  exists k : nat,
    Z.of_nat k < 20 /\
    dropTimes (S k) 2 (exec (spawnNewTetromino 1) initialState) =
    exec (fixTetrominoToBoard 2)
         (set_currentTetromino
            (Some (lowered (Z.of_nat k)
                     (mkTetromino "O" (Some [[1; 1]; [1; 1]]) "yellow" 4 0 0)))
            (exec (spawnNewTetromino 1) initialState)).
Proof.
  destruct (drop_locks 2 (exec (spawnNewTetromino 1) initialState)
              (mkTetromino "O" (Some [[1; 1]; [1; 1]]) "yellow" 4 0 0))
    as [k [Hk [_ H]]].
  - apply app_reachable_inv. apply app_init.
  - reflexivity.
  - exists k. split; [cbn in Hk; lia|exact H].
Defined.
